(** * GridAI trading bot: the grid controller and its persistence layer

    A shallow embedding of the bot's tick (index.ts: [processGrid],
    [findGridLevelIndex], [executeBuyTrade], [executeSellTrade]) and of the
    grid collection's helpers (database/grid.ts: [updateGridCurrentPrice],
    [updateGridTokenAmounts], [incrementGridTrades], [updateGridPriceLimits]).

    Numbers.  A JavaScript [number] is modelled as a rational [Q]: the order
    on finite doubles is the order on the rationals they denote, so every
    comparison the code makes is exact in the model.  The level tables that
    [createGrid] and [updateGridPriceLimits] compute are computed as the
    code computes them, in binary64: [double] rounds a rational to the
    nearest double, ties to even, and [fadd], [fsub], [fmul], [fdiv] are the
    exact operations followed by that rounding.  The amounts of a trade
    (quotients and products of the investment and a level price) are exact
    here where doubles round.  [NaN] and the infinities are outside the
    model: the statements about computed tables are for ranges that stay
    clear of overflow ([finiteRange]).  Level indices, grid counts and trade
    counters are [nat].

    Stores.  The bot's [gridStateMap], the Grid collection and the price feed
    are finite maps keyed by strings; the Trade collection, the requests
    handed to the swap venue and the console are lists in order of arrival.
    Grid ids are the ObjectId strings minted by [createGrid], on which the
    [Types.ObjectId.isValid] guards pass; persistence calls complete (a
    rejected database promise is not modelled) and timestamps are left out. *)

From Stdlib Require Import QArith Qround Lia Lqa.
From stdpp Require Import gmap strings list.

Local Open Scope Q_scope.

(** ** Numbers *)

(** [a <= b] on numbers. *)
Definition Qleb (a b : Q) : bool := Qle_bool a b.

(** [a < b] on numbers. *)
Definition Qltb (a b : Q) : bool := negb (Qle_bool b a).

(** Truthiness of a number: [0] is falsy. *)
Definition truthy (a : Q) : bool := negb (Qeq_bool a 0).

(** A [nat] as a number. *)
Definition ofNat (n : nat) : Q := inject_Z (Z.of_nat n).

(** The decimal that [x.toFixed(6)] writes: the multiple of 10^-6 nearest
    to [x]; of two equally near ones the larger in absolute value. *)
Definition roundMicro (x : Q) : Q :=
  Qmake (Qfloor (x * 1000000 + (1 # 2))) 1000000.

Definition toFixed6 (x : Q) : Q :=
  if Qltb x 0 then - roundMicro (- x) else roundMicro x.

(** The integer nearest to [x]; of two equally near ones the even one. *)
Definition roundEven (x : Q) : Z :=
  let f := Qfloor x in
  let r := x - inject_Z f in
  if Qltb r (1 # 2) then f
  else if Qltb (1 # 2) r then (f + 1)%Z
  else if Z.even f then f else (f + 1)%Z.

(** The double nearest to [x >= 0].  The finite doubles are the multiples
    [m * 2^e * 2^-1074] with [0 <= e] and [m < 2^53]: [x] is scaled by
    [2^1074], [e] is the number of bits its integer part has beyond 53, and
    the significand is rounded to the nearest integer, ties to even. *)
Definition roundPositive (x : Q) : Q :=
  let scaled := x * inject_Z (2 ^ 1074) in
  let e := Z.max 0 (Z.log2 (Qfloor scaled) - 52) in
  Qred (inject_Z (roundEven (scaled / inject_Z (2 ^ e)) * 2 ^ e) / inject_Z (2 ^ 1074)).

(** The double nearest to [x], ties to even: the number that a decimal
    literal or [Number(string)] denotes, and the rounding every arithmetic
    operation of binary64 ends with. *)
Definition double (x : Q) : Q :=
  if Qltb x 0 then - roundPositive (- x) else roundPositive x.

(** [a + b], [a - b], [a * b] and [a / b] on doubles. *)
Definition fadd (a b : Q) : Q := double (a + b).

Definition fsub (a b : Q) : Q := double (a - b).

Definition fmul (a b : Q) : Q := double (a * b).

Definition fdiv (a b : Q) : Q := double (a / b).

(** A range whose limits are at most 2^1022 in magnitude: no boundary
    computed for it overflows. *)
Definition finiteRange (upper lower : Q) : Prop :=
  - inject_Z (2 ^ 1022) <= lower /\ upper <= inject_Z (2 ^ 1022).

(** ** Data model *)

(** [IGrid] (database/models/grid.model.ts), without [profit],
    [currentValue] and the timestamps.  [levels] is the
    [Record<number, number>] whose keys are [0 .. length - 1], as every
    writer of the repository builds it; the optional fields are [None] for
    [null]/[undefined]. *)
Record IGrid := mkGrid {
  _id : string;
  sourceTokenSymbol : string;
  targetTokenSymbol : string;
  sourceTokenId : string;
  targetTokenId : string;
  upperLimit : Q;
  lowerLimit : Q;
  gridCount : nat;
  quantityInvested : Q;
  levels : list Q;
  totalBuys : nat;
  totalSells : nat;
  currentPrice : option Q;
  currentGridIndex : option nat;
  sourceTokenAmount : option Q;
  targetTokenAmount : option Q
}.

Inductive Side := BUY | SELL.

(** The [profit?: number] of a trade row: left undefined, a [NaN], or a
    number. *)
Inductive Profit :=
| ProfitUndefined
| ProfitNaN
| ProfitNumber (q : Q).

(** [ITrade] (database/models/trade.model.ts), without the dates. *)
Record ITrade := mkTrade {
  gridId : string;
  side : Side;
  inputToken : string;
  outputToken : string;
  inputTokenId : string;
  outputTokenId : string;
  inputAmount : Q;
  outputAmount : Q;
  gridLevel : nat;
  transactionHash : option string;
  profit : Profit
}.

(** The bot's per-grid entry of [gridStateMap]. *)
Module GridState.
Record t := mk {
  currentGridIndex : option nat;
  lastCheckedPrice : option Q;
  source : Q;
  target : Q
}.
End GridState.

(** The arguments of one [quoteAndSwap] call. *)
Record SwapRequest := mkSwap {
  inputMint : string;
  outputMint : string;
  amount : Z;
  slippageBps : nat
}.

(** What the bot reads of a [SwapResult]. *)
Record SwapResult := mkResult {
  success : bool;
  signature : option string
}.

(** The console lines that tell what the bot did. *)
Inductive LogLine :=
| LogNoPriceData
| LogNoState
| LogInitializing (level : nat)
| LogMoved (previous new : nat)
| LogExecuting (s : Side) (level : nat)
| LogNoPriceForLevel (level : nat)
| LogTradeExecuted (s : Side) (level : nat).

Record World := mkWorld {
  gridStateMap : gmap string GridState.t;
  dbGrids : gmap string IGrid;
  dbTrades : list ITrade;
  swaps : list SwapRequest;
  console : list LogLine
}.

(** ** The level locator *)

(** [Object.entries(levels).map(([key, value]) => ({index, price}))]:
    integer keys are enumerated in ascending order. *)
Fixpoint entriesFrom (i : nat) (ls : list Q) : list (nat * Q) :=
  match ls with
  | [] => []
  | p :: ls' => (i, p) :: entriesFrom (S i) ls'
  end.

Definition entries (ls : list Q) : list (nat * Q) := entriesFrom 0 ls.

(** [.sort((a, b) => a.price - b.price)]: the sort is stable, so an entry
    goes before the entries of the same price that came after it. *)
Fixpoint insertByPrice (x : nat * Q) (l : list (nat * Q)) : list (nat * Q) :=
  match l with
  | [] => [x]
  | y :: l' => if Qleb (snd x) (snd y) then x :: y :: l' else y :: insertByPrice x l'
  end.

Fixpoint sortByPrice (l : list (nat * Q)) : list (nat * Q) :=
  match l with
  | [] => []
  | x :: l' => insertByPrice x (sortByPrice l')
  end.

(** [for (i = 0; i < levels.length - 1; i++)
      if (price >= levels[i].price && price < levels[i + 1].price) ...]:
    the index of the first matching entry, if any. *)
Fixpoint scanLevels (price : Q) (l : list (nat * Q)) : option nat :=
  match l with
  | a :: ((b :: _) as l') =>
      if Qleb (snd a) price && Qltb price (snd b) then Some (fst a)
      else scanLevels price l'
  | _ => None
  end.

Definition findGridLevelIndex (grid : IGrid) (price : Q) : nat :=
  if Qleb (upperLimit grid) price then gridCount grid
  else if Qleb price (lowerLimit grid) then 0%nat
  else match scanLevels price (sortByPrice (entries (levels grid))) with
       | Some i => i
       | None => (gridCount grid / 2)%nat
       end.

(** ** Field updates *)

Definition setGridStateMap (m : gmap string GridState.t) (w : World) : World :=
  mkWorld m (dbGrids w) (dbTrades w) (swaps w) (console w).

Definition setDbGrids (m : gmap string IGrid) (w : World) : World :=
  mkWorld (gridStateMap w) m (dbTrades w) (swaps w) (console w).

Definition setDbTrades (l : list ITrade) (w : World) : World :=
  mkWorld (gridStateMap w) (dbGrids w) l (swaps w) (console w).

Definition setSwaps (l : list SwapRequest) (w : World) : World :=
  mkWorld (gridStateMap w) (dbGrids w) (dbTrades w) l (console w).

(** [console.log(...)] *)
Definition say (line : LogLine) (w : World) : World :=
  mkWorld (gridStateMap w) (dbGrids w) (dbTrades w) (swaps w) (console w ++ [line]).

Definition withIndex (i : option nat) (s : GridState.t) : GridState.t :=
  GridState.mk i (GridState.lastCheckedPrice s) (GridState.source s) (GridState.target s).

Definition withPrice (p : option Q) (s : GridState.t) : GridState.t :=
  GridState.mk (GridState.currentGridIndex s) p (GridState.source s) (GridState.target s).

Definition withAmounts (src tgt : Q) (s : GridState.t) : GridState.t :=
  GridState.mk (GridState.currentGridIndex s) (GridState.lastCheckedPrice s) src tgt.

(** A mutation of the state object that [gridStateMap] holds for [id]. *)
Definition mutate (id : string) (f : GridState.t -> GridState.t) (w : World) : World :=
  setGridStateMap (alter f id (gridStateMap w)) w.

Definition setTokenAmounts (src tgt : option Q) (g : IGrid) : IGrid :=
  mkGrid (_id g) (sourceTokenSymbol g) (targetTokenSymbol g) (sourceTokenId g)
    (targetTokenId g) (upperLimit g) (lowerLimit g) (gridCount g)
    (quantityInvested g) (levels g) (totalBuys g) (totalSells g)
    (currentPrice g) (currentGridIndex g) src tgt.

Definition addTrades (buys sells : nat) (g : IGrid) : IGrid :=
  mkGrid (_id g) (sourceTokenSymbol g) (targetTokenSymbol g) (sourceTokenId g)
    (targetTokenId g) (upperLimit g) (lowerLimit g) (gridCount g)
    (quantityInvested g) (levels g) (totalBuys g + buys) (totalSells g + sells)
    (currentPrice g) (currentGridIndex g) (sourceTokenAmount g) (targetTokenAmount g).

Definition setCurrent (price : option Q) (index : option nat) (g : IGrid) : IGrid :=
  mkGrid (_id g) (sourceTokenSymbol g) (targetTokenSymbol g) (sourceTokenId g)
    (targetTokenId g) (upperLimit g) (lowerLimit g) (gridCount g)
    (quantityInvested g) (levels g) (totalBuys g) (totalSells g)
    price index (sourceTokenAmount g) (targetTokenAmount g).

(** ** The Grid and Trade collections (database/grid.ts, database/trade.ts) *)

(** The level the persistence side derives from a price: the first interval
    of the sorted table that holds the price, [null] when there is none. *)
Definition projectLevel (ls : list Q) (price : Q) : option nat :=
  scanLevels price (sortByPrice (entries ls)).

Definition updateGridCurrentPrice (id : string) (price : Q) (w : World) : World :=
  match dbGrids w !! id with
  | None => w
  | Some grid =>
      let currentGridIndex := projectLevel (levels grid) price in
      setDbGrids (alter (setCurrent (Some price) currentGridIndex) id (dbGrids w)) w
  end.

Definition updateGridTokenAmounts (id : string) (src tgt : Q) (w : World) : World :=
  setDbGrids (alter (setTokenAmounts (Some src) (Some tgt)) id (dbGrids w)) w.

(** [$inc] of the counters; a count of [0] is left out of the update. *)
Definition incrementGridTrades (id : string) (buys sells : nat) (w : World) : World :=
  setDbGrids (alter (addTrades buys sells) id (dbGrids w)) w.

Definition createTrade (row : ITrade) (w : World) : World :=
  setDbTrades (dbTrades w ++ [row]) w.

(** The boundaries of a range cut into [n] steps, each rounded to six
    decimals: with [step = (upperLimit - lowerLimit) / newGridCount],
    [levels[i] = Number((lowerLimit + (step * i)).toFixed(6))] for
    [i = 0 .. n], in the arithmetic of doubles. *)
Definition roundedLevels (upper lower : Q) (n : nat) : list Q :=
  let step := fdiv (fsub upper lower) (ofNat n) in
  map (fun i => double (toFixed6 (fadd lower (fmul step (ofNat i))))) (seq 0 (S n)).

(** [for (i = 0; i < newGridCount; i++)
      if (currentPrice >= levels[i] && currentPrice < levels[i + 1]) ...]
    from index [i] on, [fuel] rounds; a comparison with a missing entry is
    false. *)
Fixpoint reprojectFrom (ls : list Q) (price : Q) (i fuel : nat) : option nat :=
  match fuel with
  | O => None
  | S fuel' =>
      match ls !! i, ls !! S i with
      | Some lo, Some hi =>
          if Qleb lo price && Qltb price hi then Some i
          else reprojectFrom ls price (S i) fuel'
      | _, _ => reprojectFrom ls price (S i) fuel'
      end
  end.

(** The [currentGridIndex] that [updateGridPriceLimits] writes. *)
Definition reproject (existing : option Q) (upper lower : Q) (n : nat) (ls : list Q)
  : option nat :=
  match existing with
  | None => None
  | Some price =>
      if truthy price then
        if Qleb price lower then Some 0%nat
        else if Qleb upper price then Some n
        else reprojectFrom ls price 0 n
      else None
  end.

Definition setLimits (upper lower : Q) (ls : list Q) (index : option nat)
    (count : nat) (g : IGrid) : IGrid :=
  mkGrid (_id g) (sourceTokenSymbol g) (targetTokenSymbol g) (sourceTokenId g)
    (targetTokenId g) upper lower count
    (quantityInvested g) ls (totalBuys g) (totalSells g)
    (currentPrice g) index (sourceTokenAmount g) (targetTokenAmount g).

(** [updateGridPriceLimits]: the updated document, or [None] where the
    function returns [null] and writes nothing. *)
Definition updateGridPriceLimits (id : string) (upper lower : Q)
    (count : option nat) (w : World) : option IGrid * World :=
  if Qleb upper lower then (None, w)
  else match dbGrids w !! id with
       | None => (None, w)
       | Some existingGrid =>
           let newGridCount :=
             match count with Some c => c | None => gridCount existingGrid end in
           if (newGridCount <? 2)%nat then (None, w)
           else
             let ls := roundedLevels upper lower newGridCount in
             let index := reproject (currentPrice existingGrid) upper lower newGridCount ls in
             let updated := setLimits upper lower ls index newGridCount existingGrid in
             (Some updated, setDbGrids (<[id := updated]> (dbGrids w)) w)
       end.

(** ** The bot (index.ts) *)

Section Bot.

(** The swap venue: the outcome of a [quoteAndSwap] call, given the calls
    made before it.  A call that throws leaves [executeBuyTrade] and
    [executeSellTrade] the way an unsuccessful result does, so it is an
    outcome with [success = false]. *)
Variable quoteAndSwap : list SwapRequest -> SwapRequest -> SwapResult.

(** One call of the venue, recorded in [swaps]. *)
Definition callVenue (req : SwapRequest) (w : World) : SwapResult * World :=
  (quoteAndSwap (swaps w) req, setSwaps (swaps w ++ [req]) w).

Definition executeBuyTrade (grid : IGrid) (levelIndex : nat) (w : World) : World :=
  let w := say (LogExecuting BUY levelIndex) w in
  match levels grid !! levelIndex with
  | None => say (LogNoPriceForLevel levelIndex) w
  | Some levelPrice =>
      if negb (truthy levelPrice) then say (LogNoPriceForLevel levelIndex) w
      else
        let usdInvestmentPerLevel := quantityInvested grid / ofNat (gridCount grid) in
        let sourceTokenAmount := usdInvestmentPerLevel / levelPrice in
        match gridStateMap w !! _id grid with
        | None => w
        | Some gridState =>
            let (swapResult, w) :=
              callVenue (mkSwap (sourceTokenId grid) (targetTokenId grid)
                           (Qfloor (usdInvestmentPerLevel * 1000000)) 100) w in
            if negb (success swapResult) then w
            else
              let src := GridState.source gridState + sourceTokenAmount in
              let tgt := GridState.target gridState - usdInvestmentPerLevel in
              let w := mutate (_id grid) (withAmounts src tgt) w in
              let w := updateGridTokenAmounts (_id grid) src tgt w in
              let w := incrementGridTrades (_id grid) 1 0 w in
              let w := createTrade
                         (mkTrade (_id grid) BUY
                            (targetTokenSymbol grid) (sourceTokenSymbol grid)
                            (targetTokenId grid) (sourceTokenId grid)
                            sourceTokenAmount usdInvestmentPerLevel
                            levelIndex (signature swapResult) ProfitUndefined) w in
              say (LogTradeExecuted BUY levelIndex) w
        end
  end.

(** [levelIndex > 0 ? grid.levels[levelIndex - 1] : grid.lowerLimit] *)
Definition buyPriceOf (grid : IGrid) (levelIndex : nat) : option Q :=
  if (0 <? levelIndex)%nat then levels grid !! (levelIndex - 1)%nat
  else Some (lowerLimit grid).

Definition executeSellTrade (grid : IGrid) (levelIndex : nat) (w : World) : World :=
  let w := say (LogExecuting SELL levelIndex) w in
  match levels grid !! levelIndex with
  | None => say (LogNoPriceForLevel levelIndex) w
  | Some levelPrice =>
      if negb (truthy levelPrice) then say (LogNoPriceForLevel levelIndex) w
      else
        let baseAmount := quantityInvested grid / ofNat (gridCount grid) / levelPrice in
        let sourceTokenAmount := baseAmount in
        let targetTokenAmount := sourceTokenAmount * levelPrice in
        match gridStateMap w !! _id grid with
        | None => w
        | Some gridState =>
            let (swapResult, w) :=
              callVenue (mkSwap (sourceTokenId grid) (targetTokenId grid)
                           (Qfloor (sourceTokenAmount * 1000000)) 100) w in
            if negb (success swapResult) then w
            else
              let sellPrice := levelPrice in
              let profit :=
                match buyPriceOf grid levelIndex with
                | Some buyPrice => ProfitNumber ((sellPrice - buyPrice) * sourceTokenAmount)
                | None => ProfitNaN
                end in
              let src := GridState.source gridState - sourceTokenAmount in
              let tgt := GridState.target gridState + targetTokenAmount in
              let w := mutate (_id grid) (withAmounts src tgt) w in
              let w := updateGridTokenAmounts (_id grid) src tgt w in
              let w := incrementGridTrades (_id grid) 0 1 w in
              let w := createTrade
                         (mkTrade (_id grid) SELL
                            (sourceTokenSymbol grid) (targetTokenSymbol grid)
                            (sourceTokenId grid) (targetTokenId grid)
                            sourceTokenAmount targetTokenAmount
                            levelIndex (signature swapResult) profit) w in
              say (LogTradeExecuted SELL levelIndex) w
        end
  end.

(** [for (let i = ...; i <= newGridIndex; i++) await this.executeSellTrade(grid, i)],
    from [i] on; [fuel] bounds the rounds. *)
Fixpoint sellLoop (grid : IGrid) (fuel i newGridIndex : nat) (w : World) : World :=
  match fuel with
  | O => w
  | S fuel' =>
      if (i <=? newGridIndex)%nat
      then sellLoop grid fuel' (S i) newGridIndex (executeSellTrade grid i w)
      else w
  end.

(** [for (let i = ...; i > newGridIndex; i--) await this.executeBuyTrade(grid, i)],
    from [i] on. *)
Fixpoint buyLoop (grid : IGrid) (i newGridIndex : nat) (w : World) : World :=
  match i with
  | O => w
  | S i' =>
      if (newGridIndex <? i)%nat
      then buyLoop grid i' newGridIndex (executeBuyTrade grid i w)
      else w
  end.

(** One tick for one grid.  [tokenPrices] gives, for each token the feed
    has a price string for, the number that string parses to; a missing
    entry is [None]. *)
Definition processGrid (grid : IGrid) (tokenPrices : gmap string Q) (w : World) : World :=
  match tokenPrices !! targetTokenId grid with
  | None => say LogNoPriceData w
  | Some currentPrice =>
      match gridStateMap w !! _id grid with
      | None => say LogNoState w
      | Some gridState =>
          let w := mutate (_id grid) (withPrice (Some currentPrice)) w in
          let newGridIndex := findGridLevelIndex grid currentPrice in
          match GridState.currentGridIndex gridState with
          | None =>
              let w := say (LogInitializing newGridIndex) w in
              let w := mutate (_id grid) (withIndex (Some newGridIndex)) w in
              updateGridCurrentPrice (_id grid) currentPrice w
          | Some previousGridIndex =>
              if (newGridIndex =? previousGridIndex)%nat then w
              else
                let w := say (LogMoved previousGridIndex newGridIndex) w in
                let w :=
                  if (previousGridIndex <? newGridIndex)%nat
                  then sellLoop grid (newGridIndex - previousGridIndex)
                         (previousGridIndex + 1) newGridIndex w
                  else if (newGridIndex <? previousGridIndex)%nat
                  then buyLoop grid previousGridIndex newGridIndex w
                  else w in
                let w := mutate (_id grid) (withIndex (Some newGridIndex)) w in
                updateGridCurrentPrice (_id grid) currentPrice w
          end
      end
  end.

(** The entry [initialize] makes for a grid read from the collection:
    [currentGridIndex || null], [currentPrice || null] and [amount || 0]. *)
Definition initialState (grid : IGrid) : GridState.t :=
  GridState.mk
    (match currentGridIndex grid with
     | Some i => if (i =? 0)%nat then None else Some i
     | None => None
     end)
    (match currentPrice grid with
     | Some p => if truthy p then Some p else None
     | None => None
     end)
    (match sourceTokenAmount grid with
     | Some a => a
     | None => 0
     end)
    (match targetTokenAmount grid with
     | Some a => a
     | None => 0
     end).

(** [initialize], on the grids that [getAllGrids] returned. *)
Definition initialize (grids : list IGrid) (w : World) : World :=
  fold_left (fun w grid => setGridStateMap (<[_id grid := initialState grid]> (gridStateMap w)) w)
    grids w.

End Bot.

(** The crossings a console shows: the trades the bot set out to execute. *)
Fixpoint crossings (l : list LogLine) : list (Side * nat) :=
  match l with
  | [] => []
  | LogExecuting s i :: l' => (s, i) :: crossings l'
  | _ :: l' => crossings l'
  end.

(** ** Properties of level tables and of worlds *)

(** [table[i] < table[i + 1]] for every pair of neighbours. *)
Definition strictlyIncreasing (ls : list Q) : Prop :=
  forall i a b, ls !! i = Some a -> ls !! S i = Some b -> a < b.

Definition nondecreasing (ls : list Q) : Prop :=
  forall i a b, ls !! i = Some a -> ls !! S i = Some b -> a <= b.

Fixpoint increasingb (ls : list Q) : bool :=
  match ls with
  | a :: ((b :: _) as ls') => Qltb a b && increasingb ls'
  | _ => true
  end.

(** The grid configuration the locator is specified for: a table over the
    keys [0 .. gridCount], strictly increasing, from [lowerLimit] to
    [upperLimit]. *)
Record wellFormed (g : IGrid) : Prop := mkWellFormed {
  wf_length : length (levels g) = S (gridCount g);
  wf_increasing : strictlyIncreasing (levels g);
  wf_lower : exists lo, levels g !! 0%nat = Some lo /\ lo == lowerLimit g;
  wf_upper : exists hi, levels g !! gridCount g = Some hi /\ hi == upperLimit g
}.

(** The level the bot holds for a grid, and the one the collection holds. *)
Definition heldLevel (w : World) (id : string) : option (option nat) :=
  GridState.currentGridIndex <$> gridStateMap w !! id.

Definition storedLevel (w : World) (id : string) : option (option nat) :=
  currentGridIndex <$> dbGrids w !! id.

Definition storedPrice (w : World) (id : string) : option (option Q) :=
  currentPrice <$> dbGrids w !! id.

(** What the trades of a tick leave alone: the held level and price of the
    grid, and the table the collection holds for it. *)
Record keeps (id : string) (w w' : World) : Prop := mkKeeps {
  keeps_level : heldLevel w' id = heldLevel w id;
  keeps_price :
    GridState.lastCheckedPrice <$> gridStateMap w' !! id
    = GridState.lastCheckedPrice <$> gridStateMap w !! id;
  keeps_table : levels <$> dbGrids w' !! id = levels <$> dbGrids w !! id
}.

(** The collection holds the inventory the bot holds. *)
Definition inventoryStored (id : string) (w : World) : Prop :=
  match gridStateMap w !! id, dbGrids w !! id with
  | Some s, Some g =>
      sourceTokenAmount g = Some (GridState.source s)
      /\ targetTokenAmount g = Some (GridState.target s)
  | _, _ => True
  end.

(** The world of a tick when its loop starts: the price is recorded and the
    move is on the console. *)
Definition started (grid : IGrid) (price : Q) (previous : nat) (w : World) : World :=
  say (LogMoved previous (findGridLevelIndex grid price))
    (mutate (_id grid) (withPrice (Some price)) w).

(** ** Sample grids *)

Definition solUsdc : IGrid :=
  mkGrid "67edf9f861d2cfdefceb4068" "SOL" "USDC"
    "So11111111111111111111111111111111111111112"
    "EPjFWdd5AufqSSqeM2qN1xzybapC8G4wEGGkZwyTDt1v"
    120 100 4 1000 [100; 105; 110; 115; 120] 0 0 None None None None.

(** The same pair over seven boundaries. *)
Definition solUsdcWide : IGrid :=
  mkGrid "67edf9f861d2cfdefceb4068" "SOL" "USDC"
    "So11111111111111111111111111111111111111112"
    "EPjFWdd5AufqSSqeM2qN1xzybapC8G4wEGGkZwyTDt1v"
    130 100 6 1200 [100; 105; 110; 115; 120; 125; 130] 0 0 None None None None.

(** A venue on which every swap lands. *)
Definition venueOk : list SwapRequest -> SwapRequest -> SwapResult :=
  fun _ _ => mkResult true (Some "5xSig").

(** A venue that fails its [k]-th call (counting from 1) and no other. *)
Definition venueFailing (k : nat) : list SwapRequest -> SwapRequest -> SwapResult :=
  fun before _ =>
    if (S (length before) =? k)%nat then mkResult false None
    else mkResult true (Some "5xSig").

(** A bot that tracks [grid] at [level], with the grid in the collection. *)
Definition tracking (grid : IGrid) (level : option nat) (price : Q) : World :=
  mkWorld {[ _id grid := GridState.mk level (Some price) 0 0 ]}
    {[ _id grid := setCurrent (Some price) level grid ]} [] [] [].

Definition feed (grid : IGrid) (price : Q) : gmap string Q :=
  {[ targetTokenId grid := price ]}.

(** A grid on a token priced in millionths: the range 0.00001 .. 0.00005
    in four steps, last seen at the price 0.0000128. *)
Definition microGrid : IGrid :=
  mkGrid "67edf9f861d2cfdefceb4070" "SOL" "BONK"
    "So11111111111111111111111111111111111111112"
    "DezXAZ8z7PnrnRJjz3wXBoRgixCa6xjnB7YaB1pPB263"
    (double (5 # 100000)) (double (1 # 100000)) 4 200
    (map double [1 # 100000; 2 # 100000; 3 # 100000; 4 # 100000; 5 # 100000])
    0 0 (Some (double (128 # 10000000))) (Some 0%nat) None None.

(** The collection with one grid in it, before the bot starts. *)
Definition collection (grid : IGrid) : World :=
  mkWorld ∅ {[ _id grid := grid ]} [] [] [].

(** ** More of the Grid and Trade collections *)

(** The boundaries [createGrid] computes when it is given no levels: with
    [step = (upperLimit - lowerLimit) / gridCount],
    [levels[i] = lowerLimit + (step * i)] for [i = 0 .. gridCount], in the
    arithmetic of doubles. *)
Definition evenLevels (upper lower : Q) (n : nat) : list Q :=
  let step := fdiv (fsub upper lower) (ofNat n) in
  map (fun i => fadd lower (fmul step (ofNat i))) (seq 0 (S n)).

(** [createGrid].  [newId] is the ObjectId the call mints; [gridData] gives
    the fields the caller passes ([_id] and the counters of the record are
    not read), with [levels = []] for absent or empty levels.  The document
    starts with its counters at 0.  [Grid.create] rejects an [_id] that is
    in the collection already: [None], and nothing is written. *)
Definition createGrid (newId : string) (gridData : IGrid) (w : World)
  : option IGrid * World :=
  let ls :=
    match levels gridData with
    | [] => evenLevels (upperLimit gridData) (lowerLimit gridData) (gridCount gridData)
    | _ :: _ => levels gridData
    end in
  let grid :=
    mkGrid newId (sourceTokenSymbol gridData) (targetTokenSymbol gridData)
      (sourceTokenId gridData) (targetTokenId gridData)
      (upperLimit gridData) (lowerLimit gridData) (gridCount gridData)
      (quantityInvested gridData) ls 0 0
      (currentPrice gridData) (currentGridIndex gridData)
      (sourceTokenAmount gridData) (targetTokenAmount gridData) in
  match dbGrids w !! newId with
  | Some _ => (None, w)
  | None => (Some grid, setDbGrids (<[newId := grid]> (dbGrids w)) w)
  end.

Definition getGridById (id : string) (w : World) : option IGrid :=
  dbGrids w !! id.

(** [deleteGrid]: whether a document was deleted. *)
Definition deleteGrid (id : string) (w : World) : bool * World :=
  match dbGrids w !! id with
  | Some _ => (true, setDbGrids (delete id (dbGrids w)) w)
  | None => (false, w)
  end.

Definition sideEqb (a b : Side) : bool :=
  match a, b with
  | BUY, BUY | SELL, SELL => true
  | _, _ => false
  end.

(** [Trade.countDocuments({ gridId, side })] *)
Fixpoint countDocuments (id : string) (s : Side) (rows : list ITrade) : nat :=
  match rows with
  | [] => 0
  | row :: rows' =>
      (if String.eqb (gridId row) id && sideEqb (side row) s then 1 else 0)
      + countDocuments id s rows'
  end.

(** [$sum] of a profit into a running total: a row without profit is not
    matched, and a [NaN] makes the total a [NaN]. *)
Definition addProfit (total : Profit) (p : Profit) : Profit :=
  match p, total with
  | ProfitUndefined, _ => total
  | ProfitNumber x, ProfitNumber t => ProfitNumber (t + x)
  | _, _ => ProfitNaN
  end.

(** The [totalProfit] of the aggregation over the rows of a grid, in the
    order of the collection; [0] when no row is matched. *)
Definition sumProfit (id : string) (rows : list ITrade) : Profit :=
  fold_left
    (fun total row => if String.eqb (gridId row) id then addProfit total (profit row) else total)
    rows (ProfitNumber 0).

Module TradeSummary.
Record t := mk {
  totalBuys : nat;
  totalSells : nat;
  totalProfit : Profit
}.
End TradeSummary.

Definition getTradeSummaryByGridId (id : string) (w : World) : TradeSummary.t :=
  TradeSummary.mk (countDocuments id BUY (dbTrades w))
    (countDocuments id SELL (dbTrades w)) (sumProfit id (dbTrades w)).

(** ** More of the bot *)

(** The bot's own fields, beside [gridStateMap]. *)
Record Bot := mkBot {
  isRunning : bool;
  grids : list IGrid
}.

(** [start], on the grids that [getAllGrids] returns: a running bot is left
    as it is. *)
Definition start (loaded : list IGrid) (bot : Bot) (w : World) : Bot * World :=
  if isRunning bot then (bot, w)
  else (mkBot true loaded, initialize loaded w).

Definition stop (bot : Bot) : Bot := mkBot false (grids bot).

(** [monitorPricesAndExecuteTrades].  [priceResponse] is the [data.data] of
    a successful answer of the price feed, [None] for an unsuccessful one. *)
Definition monitorPricesAndExecuteTrades
    (quoteAndSwap : list SwapRequest -> SwapRequest -> SwapResult)
    (bot : Bot) (priceResponse : option (gmap string Q)) (w : World) : World :=
  if negb (isRunning bot) || (length (grids bot) =? 0)%nat then w
  else match priceResponse with
       | None => w
       | Some tokenPrices =>
           fold_left (fun w grid => processGrid quoteAndSwap grid tokenPrices w)
             (grids bot) w
       end.

(** ** More properties of worlds *)

(** The counters of the grid document are the counts of its trade rows. *)
Definition countersMatch (id : string) (w : World) : Prop :=
  forall g, dbGrids w !! id = Some g ->
    totalBuys g = TradeSummary.totalBuys (getTradeSummaryByGridId id w)
    /\ totalSells g = TradeSummary.totalSells (getTradeSummaryByGridId id w).

(** The bot holds, for the grid, the level of the price it checked last. *)
Definition holdsLevelOf (grid : IGrid) (price : Q) (w : World) : Prop :=
  exists s,
    gridStateMap w !! _id grid = Some s
    /\ GridState.currentGridIndex s = Some (findGridLevelIndex grid price)
    /\ GridState.lastCheckedPrice s = Some price.

(** Every boundary of the table is a price the bot trades at. *)
Definition allTruthy (ls : list Q) : bool := forallb truthy ls.

(** A second grid of the sample bot. *)
Definition solJup : IGrid :=
  mkGrid "67edf9f861d2cfdefceb4069" "SOL" "JUP"
    "So11111111111111111111111111111111111111112"
    "JUPyiwrYJFskUPiHa7hkeR8VUtAeFoSYbKedZNsDvCN"
    4 2 4 400 [2; 5 # 2; 3; 7 # 2; 4] 0 0 None None None None.

(** The first sample grid with its table out of order. *)
Definition shuffled : IGrid :=
  setLimits 120 100 [120; 100; 110; 105; 115] None 4 solUsdc.

(** What the trades of one grid leave alone: the entries of the other
    grids, in the bot and in the collection. *)
Definition sameElsewhere (id0 : string) (w w' : World) : Prop :=
  forall id, id <> id0 ->
    gridStateMap w' !! id = gridStateMap w !! id
    /\ dbGrids w' !! id = dbGrids w !! id.

(** What a trade row says was traded: the side and the level. *)
Definition tradeKey (row : ITrade) : Side * nat := (side row, gridLevel row).

(** The crossings of a move from one level to another, in the order the
    loops of [processGrid] take them. *)
Definition crossingsBetween (previous new : nat) : list (Side * nat) :=
  if (previous <? new)%nat
  then map (pair SELL) (seq (S previous) (new - previous))
  else map (pair BUY) (rev (seq (S new) (previous - new))).

(** The table has a price the bot trades at for the level. *)
Definition pricedLevel (grid : IGrid) (level : nat) : Prop :=
  exists p, levels grid !! level = Some p /\ truthy p = true.

(** A venue on which every swap lands. *)
Definition alwaysLands (quoteAndSwap : list SwapRequest -> SwapRequest -> SwapResult)
  : Prop :=
  forall before req, success (quoteAndSwap before req) = true.

(** A venue on which no swap lands. *)
Definition neverLands (quoteAndSwap : list SwapRequest -> SwapRequest -> SwapResult)
  : Prop :=
  forall before req, success (quoteAndSwap before req) = false.

(** A venue that is down. *)
Definition venueDown : list SwapRequest -> SwapRequest -> SwapResult :=
  fun _ _ => mkResult false None.

(** The inventory the bot holds for a grid. *)
Definition heldInventory (s : GridState.t) : Q * Q :=
  (GridState.source s, GridState.target s).

(** The counters and the inventory of a grid document. *)
Definition storedLedger (g : IGrid) : nat * nat * option Q * option Q :=
  (totalBuys g, totalSells g, sourceTokenAmount g, targetTokenAmount g).

(** Nothing was traded for the grid between two worlds: no trade row was
    added, and the held inventory, the stored inventory and the counters are
    the same. *)
Record untraded (id : string) (w w' : World) : Prop := mkUntraded {
  untraded_rows : dbTrades w' = dbTrades w;
  untraded_held :
    heldInventory <$> gridStateMap w' !! id = heldInventory <$> gridStateMap w !! id;
  untraded_stored :
    storedLedger <$> dbGrids w' !! id = storedLedger <$> dbGrids w !! id
}.

(** ** The swap venue (jupiter/swap.ts) *)

Module Jupiter.

(** What a call to a collaborator does: it returns, or it throws. *)
Inductive Outcome (A : Type) :=
| Returned (a : A)
| Threw (message : string).
Arguments Returned {A} a.
Arguments Threw {A} message.

(** What [quoteAndSwap] reads of an [ExecuteResponse]; [simulationError] is
    [None] for [null]. *)
Record ExecuteResponse := mkExecute {
  swapTransaction : string;
  simulationError : option string
}.

(** The collaborators of one [quoteAndSwap] call: the quote and swap
    endpoints, the environment, the key pair and the RPC connection.
    [getQuote] gives the [outAmount] of the quote (the empty string when it
    has none), [SOLANA_PRIVATE_KEY] is empty when the variable is unset,
    [walletOf] decodes the key and gives the public key of its wallet,
    [signTransaction] deserialises, signs and serialises the transaction,
    and [confirmTransaction] gives [value.err] as JSON, [None] for none. *)
Record Venue := mkVenue {
  getQuote : SwapRequest -> Outcome string;
  SOLANA_PRIVATE_KEY : string;
  walletOf : string -> Outcome string;
  executeSwap : string -> string -> Outcome ExecuteResponse;
  signTransaction : string -> string -> Outcome string;
  sendRawTransaction : string -> Outcome string;
  confirmTransaction : string -> Outcome (option string)
}.

(** The requests that leave the process. *)
Inductive Call :=
| CallQuote (req : SwapRequest)
| CallSwap (outAmount publicKey : string)
| CallSend (signedTransaction : string)
| CallConfirm (signature : string).

(** The [SwapResult] of jupiter/swap.ts. *)
Record SwapResult := mkSwapResult {
  success : bool;
  signature : option string;
  outputAmount : option string;
  error : option string;
  txUrl : option string
}.

Definition failed (message : string) : SwapResult :=
  mkSwapResult false None None (Some message) None.

Definition isEmpty (s : string) : bool := String.eqb s "".

(** [quoteAndSwap], with the requests it made. *)
Definition quoteAndSwap (v : Venue) (req : SwapRequest) : SwapResult * list Call :=
  match getQuote v req with
  | Threw message => (failed message, [CallQuote req])
  | Returned outAmount =>
      if isEmpty outAmount
      then (failed "No outAmount found in quote response", [CallQuote req])
      else if isEmpty (SOLANA_PRIVATE_KEY v)
      then (failed "Please provide your private key in the SOLANA_PRIVATE_KEY environment variable",
            [CallQuote req])
      else match walletOf v (SOLANA_PRIVATE_KEY v) with
      | Threw message => (failed message, [CallQuote req])
      | Returned publicKey =>
          match executeSwap v outAmount publicKey with
          | Threw message =>
              (failed message, [CallQuote req; CallSwap outAmount publicKey])
          | Returned executeResponse =>
              match simulationError executeResponse with
              | Some reason =>
                  (failed (String.append "Swap simulation failed: " reason),
                   [CallQuote req; CallSwap outAmount publicKey])
              | None =>
                  match signTransaction v (swapTransaction executeResponse) publicKey with
                  | Threw message =>
                      (failed message, [CallQuote req; CallSwap outAmount publicKey])
                  | Returned signed =>
                      match sendRawTransaction v signed with
                      | Threw message =>
                          (failed message,
                           [CallQuote req; CallSwap outAmount publicKey; CallSend signed])
                      | Returned sig =>
                          let url :=
                            String.append "https://solscan.io/tx/" (String.append sig "/") in
                          let calls :=
                            [CallQuote req; CallSwap outAmount publicKey;
                             CallSend signed; CallConfirm sig] in
                          match confirmTransaction v sig with
                          | Threw message => (failed message, calls)
                          | Returned (Some err) =>
                              (mkSwapResult false (Some sig) None (Some err) (Some url),
                               calls)
                          | Returned None =>
                              (mkSwapResult true (Some sig) (Some outAmount) None (Some url),
                               calls)
                          end
                      end
                  end
              end
          end
      end
  end.

(** Whether a transaction was sent. *)
Definition isSend (c : Call) : bool :=
  match c with
  | CallSend _ => true
  | _ => false
  end.

End Jupiter.

(** The venue as the bot sees it: what [executeBuyTrade] and
    [executeSellTrade] read of the result of [quoteAndSwap], on the
    collaborators that answer after the calls made before. *)
Definition botVenue (v : list SwapRequest -> Jupiter.Venue)
  : list SwapRequest -> SwapRequest -> SwapResult :=
  fun before req =>
    let result := fst (Jupiter.quoteAndSwap (v before) req) in
    mkResult (Jupiter.success result) (Jupiter.signature result).

(** Collaborators that all answer: the quote has an amount, the key is set,
    the simulation passes, and the transaction is sent and confirmed. *)
Definition venueUp : Jupiter.Venue :=
  Jupiter.mkVenue
    (fun _ => Jupiter.Returned "2272727")
    "4NwwCq5bBmDwkvBkfhwUCaaP3gQkdQp6bTGBhjg5cHZd"
    (fun _ => Jupiter.Returned "9xQeWvG816bUx9EPjHmaT23yvVM2ZWbrrpZb9PusVFin")
    (fun _ _ => Jupiter.Returned (Jupiter.mkExecute "AQAB" None))
    (fun tx _ => Jupiter.Returned tx)
    (fun _ => Jupiter.Returned "5xSig")
    (fun _ => Jupiter.Returned None).

(** The same collaborators with a confirmation call that throws. *)
Definition venueUnconfirmed : Jupiter.Venue :=
  Jupiter.mkVenue
    (Jupiter.getQuote venueUp) (Jupiter.SOLANA_PRIVATE_KEY venueUp)
    (Jupiter.walletOf venueUp) (Jupiter.executeSwap venueUp)
    (Jupiter.signTransaction venueUp) (Jupiter.sendRawTransaction venueUp)
    (fun _ => Jupiter.Threw "block height exceeded").

(** The same collaborators with a simulation that fails. *)
Definition venueSimulationFails : Jupiter.Venue :=
  Jupiter.mkVenue
    (Jupiter.getQuote venueUp) (Jupiter.SOLANA_PRIVATE_KEY venueUp)
    (Jupiter.walletOf venueUp)
    (fun _ _ => Jupiter.Returned (Jupiter.mkExecute "AQAB" (Some "insufficient funds")))
    (Jupiter.signTransaction venueUp) (Jupiter.sendRawTransaction venueUp)
    (Jupiter.confirmTransaction venueUp).

(** The profit total of a grid is a number before and after, and is not
    lower after. *)
Definition profitGrows (id : string) (w w' : World) : Prop :=
  forall x,
    TradeSummary.totalProfit (getTradeSummaryByGridId id w) = ProfitNumber x ->
    exists y,
      TradeSummary.totalProfit (getTradeSummaryByGridId id w') = ProfitNumber y
      /\ x <= y.

(** * Results *)

(** ** Numbers *)

Lemma Qleb_iff a b : Qleb a b = true <-> a <= b.
Proof. apply Qle_bool_iff. Qed.

Lemma Qleb_false a b : Qleb a b = false <-> b < a.
Proof.
  unfold Qleb. split.
  - intros H. apply Qnot_le_lt. intros Hle. apply Qle_bool_iff in Hle. congruence.
  - intros H. destruct (Qle_bool a b) eqn:E; [|reflexivity].
    apply Qle_bool_iff in E. exfalso. exact (Qlt_not_le _ _ H E).
Qed.

Lemma Qltb_iff a b : Qltb a b = true <-> a < b.
Proof.
  unfold Qltb. rewrite negb_true_iff. apply (Qleb_false b a).
Qed.

Lemma Qltb_false a b : Qltb a b = false <-> b <= a.
Proof.
  unfold Qltb. rewrite negb_false_iff. apply Qle_bool_iff.
Qed.

Lemma truthy_iff a : truthy a = true <-> ~ a == 0.
Proof.
  unfold truthy. rewrite negb_true_iff. split.
  - intros H. apply Qeq_bool_neq. exact H.
  - intros H. destruct (Qeq_bool a 0) eqn:E; [|reflexivity].
    apply Qeq_bool_iff in E. contradiction.
Qed.

(** ** Rounding to doubles *)

Lemma roundEven_bounds x : (Qfloor x <= roundEven x <= Qfloor x + 1)%Z.
Proof.
  unfold roundEven.
  destruct (Qltb _ _); [lia|]. destruct (Qltb _ _); [lia|]. destruct (Z.even _); lia.
Qed.

Lemma roundEven_mono x y : x <= y -> (roundEven x <= roundEven y)%Z.
Proof.
  intros Hxy.
  pose proof (Qfloor_resp_le x y Hxy) as Hfloor.
  destruct (Z.eq_dec (Qfloor x) (Qfloor y)) as [Heq | Hne].
  - unfold roundEven. rewrite <- Heq.
    destruct (Qltb (x - inject_Z (Qfloor x)) (1 # 2)) eqn:Hx1.
    + destruct (Qltb (y - inject_Z (Qfloor x)) (1 # 2)); [lia|].
      destruct (Qltb (1 # 2) (y - inject_Z (Qfloor x))); [lia|].
      destruct (Z.even (Qfloor x)); lia.
    + apply Qltb_false in Hx1.
      assert (Hy1 : Qltb (y - inject_Z (Qfloor x)) (1 # 2) = false)
        by (apply Qltb_false; lra).
      rewrite Hy1.
      destruct (Qltb (1 # 2) (x - inject_Z (Qfloor x))) eqn:Hx2.
      * apply Qltb_iff in Hx2.
        assert (Hy2 : Qltb (1 # 2) (y - inject_Z (Qfloor x)) = true)
          by (apply Qltb_iff; lra).
        rewrite Hy2. lia.
      * destruct (Qltb (1 # 2) (y - inject_Z (Qfloor x))); [destruct (Z.even _); lia|].
        destruct (Z.even (Qfloor x)); lia.
  - pose proof (roundEven_bounds x). pose proof (roundEven_bounds y). lia.
Qed.

Lemma roundEven_inject_Z k : roundEven (inject_Z k) = k.
Proof.
  unfold roundEven. rewrite Qfloor_Z.
  assert (H : Qltb (inject_Z k - inject_Z k) (1 # 2) = true) by (apply Qltb_iff; lra).
  rewrite H. reflexivity.
Qed.

Lemma pow2_pos e : (0 <= e)%Z -> 0 < inject_Z (2 ^ e).
Proof.
  intros He. change 0 with (inject_Z 0). rewrite <- Zlt_Qlt. apply Z.pow_pos_nonneg; lia.
Qed.

(** A scaled value is below [2 ^ (e + 53)], [e] being the exponent chosen
    for it. *)
Lemma below_next_binade X :
  0 <= X ->
  X < inject_Z (2 ^ (Z.max 0 (Z.log2 (Qfloor X) - 52) + 53)).
Proof.
  intros Hpos.
  set (e := Z.max 0 (Z.log2 (Qfloor X) - 52)).
  assert (Hfloor : (Qfloor X + 1 <= 2 ^ (e + 53))%Z).
  { destruct (Z.lt_ge_cases 0 (Qfloor X)) as [Hf | Hf].
    - destruct (Z.log2_spec _ Hf) as [_ Hup].
      assert (Hle : (2 ^ Z.succ (Z.log2 (Qfloor X)) <= 2 ^ (e + 53))%Z).
      { apply Z.pow_le_mono_r; lia. }
      lia.
    - assert (H1 : (1 <= 2 ^ (e + 53))%Z).
      { change 1%Z with (2 ^ 0)%Z. apply Z.pow_le_mono_r; lia. }
      lia. }
  apply Qlt_le_trans with (inject_Z (Qfloor X + 1)).
  - apply Qlt_floor.
  - rewrite <- Zle_Qle. exact Hfloor.
Qed.

(** Rounding to the nearest double keeps the order. *)
Lemma roundPositive_mono x y : 0 <= x -> x <= y -> roundPositive x <= roundPositive y.
Proof.
  intros Hx Hxy. unfold roundPositive. rewrite !Qred_correct.
  set (P := inject_Z (2 ^ 1074)).
  assert (HP : 0 < P) by (apply pow2_pos; lia).
  set (X := x * P). set (Y := y * P).
  assert (HX : 0 <= X) by (unfold X; apply Qmult_le_0_compat; lra).
  assert (HXY : X <= Y) by (unfold X, Y; apply Qmult_le_compat_r; lra).
  set (ex := Z.max 0 (Z.log2 (Qfloor X) - 52)).
  set (ey := Z.max 0 (Z.log2 (Qfloor Y) - 52)).
  assert (Hexy : (ex <= ey)%Z).
  { unfold ex, ey. pose proof (Z.log2_le_mono _ _ (Qfloor_resp_le X Y HXY)). lia. }
  assert (Hex : (0 <= ex)%Z) by (unfold ex; lia).
  assert (Hgoal : (roundEven (X / inject_Z (2 ^ ex)) * 2 ^ ex
                   <= roundEven (Y / inject_Z (2 ^ ey)) * 2 ^ ey)%Z).
  { destruct (Z.eq_dec ex ey) as [Heq | Hne].
    - rewrite <- Heq. apply Z.mul_le_mono_nonneg_r; [apply Z.pow_nonneg; lia|].
      apply roundEven_mono. unfold Qdiv. apply Qmult_le_compat_r; [exact HXY|].
      apply Qinv_le_0_compat, Qlt_le_weak, pow2_pos, Hex.
    - assert (Hlt : (ex < ey)%Z) by lia.
      assert (Hlog : Z.log2 (Qfloor Y) = (ey + 52)%Z) by (unfold ey in *; lia).
      assert (HfY : (0 < Qfloor Y)%Z).
      { destruct (Z.lt_ge_cases 0 (Qfloor Y)) as [H | H]; [exact H|].
        rewrite (Z.log2_nonpos _ H) in Hlog. lia. }
      assert (HYlow : inject_Z (2 ^ (ey + 52)) <= Y).
      { apply Qle_trans with (inject_Z (Qfloor Y)); [|apply Qfloor_le].
        rewrite <- Zle_Qle. rewrite <- Hlog. apply (Z.log2_spec _ HfY). }
      assert (Hmy : (2 ^ 52 <= roundEven (Y / inject_Z (2 ^ ey)))%Z).
      { rewrite <- (roundEven_inject_Z (2 ^ 52)). apply roundEven_mono.
        apply Qle_shift_div_l; [apply pow2_pos; lia|].
        rewrite <- inject_Z_mult, <- Z.pow_add_r by lia.
        rewrite (Z.add_comm 52 ey). exact HYlow. }
      assert (Hmx : (roundEven (X / inject_Z (2 ^ ex)) <= 2 ^ 53)%Z).
      { rewrite <- (roundEven_inject_Z (2 ^ 53)). apply roundEven_mono.
        apply Qle_shift_div_r; [apply pow2_pos; lia|].
        rewrite <- inject_Z_mult, <- Z.pow_add_r by lia.
        rewrite (Z.add_comm 53 ex). apply Qlt_le_weak. exact (below_next_binade X HX). }
      apply Z.le_trans with (2 ^ 53 * 2 ^ ex)%Z.
      + apply Z.mul_le_mono_nonneg_r; [apply Z.pow_nonneg; lia | exact Hmx].
      + apply Z.le_trans with (2 ^ 52 * 2 ^ ey)%Z.
        * rewrite <- !Z.pow_add_r by lia. apply Z.pow_le_mono_r; lia.
        * apply Z.mul_le_mono_nonneg_r; [apply Z.pow_nonneg; lia | exact Hmy]. }
  unfold Qdiv. apply Qmult_le_compat_r.
  - rewrite <- Zle_Qle. exact Hgoal.
  - apply Qinv_le_0_compat, Qlt_le_weak, HP.
Qed.

Lemma roundPositive_nonneg x : 0 <= x -> 0 <= roundPositive x.
Proof.
  intros H. apply Qle_trans with (roundPositive 0).
  - apply Qleb_iff. vm_compute. reflexivity.
  - apply roundPositive_mono; [apply Qle_refl | exact H].
Qed.

Lemma double_mono x y : x <= y -> double x <= double y.
Proof.
  intros H. unfold double.
  destruct (Qltb x 0) eqn:Hx; destruct (Qltb y 0) eqn:Hy.
  - apply Qltb_iff in Hx, Hy. apply Qopp_le_compat, roundPositive_mono; lra.
  - apply Qltb_iff in Hx. apply Qltb_false in Hy.
    pose proof (roundPositive_nonneg (- x) ltac:(lra)).
    pose proof (roundPositive_nonneg y Hy). lra.
  - apply Qltb_false in Hx. apply Qltb_iff in Hy. lra.
  - apply Qltb_false in Hx. apply roundPositive_mono; assumption.
Qed.

Lemma double_nonneg x : 0 <= x -> 0 <= double x.
Proof.
  intros H. unfold double.
  assert (Hx : Qltb x 0 = false) by (apply Qltb_false; exact H).
  rewrite Hx. apply roundPositive_nonneg, H.
Qed.

Lemma double_proper x y : x == y -> double x == double y.
Proof.
  intros H. apply Qle_antisym; apply double_mono; rewrite H; apply Qle_refl.
Qed.

Lemma double_zero x : x == 0 -> double x == 0.
Proof.
  intros H. rewrite (double_proper x 0 H). vm_compute. reflexivity.
Qed.

(** ** Level tables *)

Lemma nondecreasing_tail a ls : nondecreasing (a :: ls) -> nondecreasing ls.
Proof. intros H i x y Hx Hy. exact (H (S i) x y Hx Hy). Qed.

Lemma strictlyIncreasing_nondecreasing ls :
  strictlyIncreasing ls -> nondecreasing ls.
Proof. intros H i x y Hx Hy. apply Qlt_le_weak. exact (H i x y Hx Hy). Qed.

Lemma increasingb_spec ls : increasingb ls = true -> strictlyIncreasing ls.
Proof.
  induction ls as [|a [|b ls'] IH]; intros Hb i x y Hx Hy.
  - discriminate.
  - destruct i; discriminate.
  - cbn [increasingb] in Hb. apply andb_prop in Hb. destruct Hb as [Hab Hrest].
    destruct i as [|i].
    + cbn in Hx, Hy. injection Hx as <-. injection Hy as <-.
      apply Qltb_iff. exact Hab.
    + exact (IH Hrest i x y Hx Hy).
Qed.

Lemma nondecreasing_le ls :
  nondecreasing ls ->
  forall d i a b, ls !! i = Some a -> ls !! (i + d)%nat = Some b -> a <= b.
Proof.
  intros Hmono d. induction d as [|d IH]; intros i a b Ha Hb.
  - rewrite Nat.add_0_r in Hb. rewrite Ha in Hb. injection Hb as <-. apply Qle_refl.
  - assert (Hlt : (i + d < length ls)%nat).
    { apply lookup_lt_Some in Hb. lia. }
    destruct (lookup_lt_is_Some_2 ls (i + d)%nat Hlt) as [c Hc].
    apply Qle_trans with c.
    + exact (IH i a c Ha Hc).
    + apply (Hmono (i + d)%nat c b Hc). rewrite <- Nat.add_succ_r. exact Hb.
Qed.

Lemma strictlyIncreasing_lt ls :
  strictlyIncreasing ls ->
  forall i j a b, (i < j)%nat -> ls !! i = Some a -> ls !! j = Some b -> a < b.
Proof.
  intros Hinc i j a b Hij Ha Hb.
  assert (Hlt : (S i < length ls)%nat).
  { apply lookup_lt_Some in Hb. lia. }
  destruct (lookup_lt_is_Some_2 ls (S i) Hlt) as [c Hc].
  apply Qlt_le_trans with c.
  - exact (Hinc i a c Ha Hc).
  - apply (nondecreasing_le ls (strictlyIncreasing_nondecreasing ls Hinc) (j - S i) (S i) c b Hc).
    replace (S i + (j - S i))%nat with j by lia. exact Hb.
Qed.

(** A table that does not decrease is already in the order the sort gives. *)
Lemma sortByPrice_entriesFrom k ls :
  nondecreasing ls -> sortByPrice (entriesFrom k ls) = entriesFrom k ls.
Proof.
  revert k. induction ls as [|a ls IH]; intros k Hmono; [reflexivity|].
  cbn [entriesFrom sortByPrice]. rewrite (IH (S k) (nondecreasing_tail a ls Hmono)).
  destruct ls as [|b ls']; [reflexivity|].
  cbn [entriesFrom insertByPrice snd].
  assert (Hab : Qleb a b = true).
  { apply Qleb_iff. exact (Hmono 0%nat a b eq_refl eq_refl). }
  rewrite Hab. reflexivity.
Qed.

(** A match of the scan is an interval that holds the price. *)
Lemma scanLevels_Some price k ls i :
  scanLevels price (entriesFrom k ls) = Some i ->
  exists a b, (k <= i)%nat /\ ls !! (i - k)%nat = Some a /\ ls !! S (i - k) = Some b
              /\ a <= price /\ price < b.
Proof.
  revert k. induction ls as [|a ls IH]; intros k Hscan; [discriminate|].
  destruct ls as [|b ls']; [discriminate|].
  cbn [entriesFrom scanLevels fst snd] in Hscan.
  destruct (Qleb a price && Qltb price b) eqn:Hin.
  - injection Hscan as <-. apply andb_prop in Hin. destruct Hin as [H1 H2].
    exists a, b. rewrite Nat.sub_diag. split; [lia|].
    split; [reflexivity|]. split; [reflexivity|].
    split; [apply Qleb_iff; exact H1 | apply Qltb_iff; exact H2].
  - destruct (IH (S k) Hscan) as (x & y & Hk & Hx & Hy & Hle & Hlt).
    exists x, y. split; [lia|].
    replace (i - k)%nat with (S (i - S k)) by lia.
    split; [exact Hx|]. split; [exact Hy|]. split; assumption.
Qed.

(** A price between the first and the last boundary has an interval. *)
Lemma scanLevels_bracket price k ls n lo hi :
  length ls = S n -> ls !! 0%nat = Some lo -> ls !! n = Some hi ->
  lo <= price -> price < hi ->
  is_Some (scanLevels price (entriesFrom k ls)).
Proof.
  revert k n lo. induction ls as [|a ls IH]; intros k n lo Hlen Hlo Hhi Hle Hlt;
    [discriminate|].
  cbn in Hlo. injection Hlo as ->.
  destruct ls as [|b ls'].
  - cbn in Hlen. assert (n = 0%nat) as -> by lia. cbn in Hhi. injection Hhi as <-.
    exfalso. exact (Qlt_not_le _ _ Hlt Hle).
  - cbn [entriesFrom scanLevels fst snd].
    destruct (Qleb lo price && Qltb price b) eqn:Hin; [eexists; reflexivity|].
    assert (Hb : b <= price).
    { apply Qltb_false. apply Qleb_iff in Hle. rewrite Hle in Hin. exact Hin. }
    destruct n as [|n]; [cbn in Hlen; lia|].
    apply (IH (S k) n b); [cbn in Hlen |- *; lia | reflexivity | exact Hhi | exact Hb | exact Hlt].
Qed.

(** The scan by index of [updateGridPriceLimits] is the scan of the
    entries. *)
Lemma reprojectFrom_scan price pre ls :
  reprojectFrom (pre ++ ls) price (length pre) (length ls - 1)
  = scanLevels price (entriesFrom (length pre) ls).
Proof.
  revert pre. induction ls as [|a ls IH]; intros pre; [reflexivity|].
  destruct ls as [|b ls']; [reflexivity|].
  replace (length (a :: b :: ls') - 1)%nat with (S (length ls')) by (cbn; lia).
  cbn [reprojectFrom entriesFrom scanLevels fst snd].
  rewrite (list_lookup_middle pre (b :: ls') a (length pre) eq_refl).
  assert (Hnext : (pre ++ a :: b :: ls') !! S (length pre) = Some b).
  { rewrite (cons_middle a pre (b :: ls')), app_assoc.
    apply list_lookup_middle. rewrite length_app. cbn. lia. }
  rewrite Hnext.
  specialize (IH (pre ++ [a])).
  rewrite <- app_assoc, length_app in IH. cbn [app] in IH.
  replace (length pre + length [a])%nat with (S (length pre)) in IH by (cbn; lia).
  replace (length (b :: ls') - 1)%nat with (length ls') in IH by (cbn; lia).
  rewrite IH. reflexivity.
Qed.

(** ** The locator on a well-formed grid *)

Section Locator.

Variable g : IGrid.
Variables lo hi : Q.
Hypothesis Hwf : wellFormed g.
Hypothesis Hlo : levels g !! 0%nat = Some lo.
Hypothesis Hhi : levels g !! gridCount g = Some hi.

Lemma lowest_is_lowerLimit : lo == lowerLimit g.
Proof.
  destruct (wf_lower g Hwf) as (x & Hx & Heq). rewrite Hlo in Hx.
  injection Hx as <-. exact Heq.
Qed.

Lemma highest_is_upperLimit : hi == upperLimit g.
Proof.
  destruct (wf_upper g Hwf) as (x & Hx & Heq). rewrite Hhi in Hx.
  injection Hx as <-. exact Heq.
Qed.

Lemma table_sorted : sortByPrice (entries (levels g)) = entries (levels g).
Proof.
  apply sortByPrice_entriesFrom, strictlyIncreasing_nondecreasing, (wf_increasing g Hwf).
Qed.

Lemma lowest_le i a : levels g !! i = Some a -> lo <= a.
Proof.
  intros Ha.
  exact (nondecreasing_le _ (strictlyIncreasing_nondecreasing _ (wf_increasing g Hwf))
           i 0%nat lo a Hlo Ha).
Qed.

Lemma le_highest i a : levels g !! i = Some a -> a <= hi.
Proof.
  intros Ha.
  assert (Hi : (i <= gridCount g)%nat).
  { apply lookup_lt_Some in Ha. rewrite (wf_length g Hwf) in Ha. lia. }
  apply (nondecreasing_le _ (strictlyIncreasing_nondecreasing _ (wf_increasing g Hwf))
           (gridCount g - i) i a hi Ha).
  replace (i + (gridCount g - i))%nat with (gridCount g) by lia. exact Hhi.
Qed.

(** At most one interval of the table holds a given price. *)
Lemma interval_unique price i j a b a' b' :
  levels g !! i = Some a -> levels g !! S i = Some b ->
  levels g !! j = Some a' -> levels g !! S j = Some b' ->
  a <= price -> price < b -> a' <= price -> price < b' -> j = i.
Proof.
  intros Ha Hb Ha' Hb' H1 H2 H3 H4.
  pose proof (strictlyIncreasing_nondecreasing _ (wf_increasing g Hwf)) as Hmono.
  destruct (Nat.lt_trichotomy j i) as [Hlt | [Heq | Hgt]]; [|exact Heq|].
  - exfalso.
    assert (Hle : b' <= a).
    { apply (nondecreasing_le _ Hmono (i - S j) (S j) b' a Hb').
      replace (S j + (i - S j))%nat with i by lia. exact Ha. }
    apply (Qlt_irrefl price).
    apply Qlt_le_trans with b'; [exact H4|]. apply Qle_trans with a; assumption.
  - exfalso.
    assert (Hle : b <= a').
    { apply (nondecreasing_le _ Hmono (j - S i) (S i) b a' Hb).
      replace (S i + (j - S i))%nat with j by lia. exact Ha'. }
    apply (Qlt_irrefl price).
    apply Qlt_le_trans with b; [exact H2|]. apply Qle_trans with a'; assumption.
Qed.

(** From the lowest boundary up to, not including, the highest one the
    projection finds the interval that holds the price. *)
Lemma projectLevel_inside price :
  lo <= price -> price < hi ->
  exists i a b, projectLevel (levels g) price = Some i
                /\ levels g !! i = Some a /\ levels g !! S i = Some b
                /\ a <= price /\ price < b.
Proof.
  intros Hle Hlt. unfold projectLevel. rewrite table_sorted. unfold entries.
  destruct (scanLevels_bracket price 0 (levels g) (gridCount g) lo hi
              (wf_length g Hwf) Hlo Hhi Hle Hlt) as [i Hi].
  destruct (scanLevels_Some price 0 (levels g) i Hi) as (a & b & _ & Ha & Hb & H1 & H2).
  rewrite Nat.sub_0_r in Ha, Hb.
  exists i, a, b. repeat split; assumption.
Qed.

(** Outside of that range the projection finds nothing. *)
Lemma projectLevel_outside price :
  price < lo \/ hi <= price -> projectLevel (levels g) price = None.
Proof.
  intros Hout. unfold projectLevel. rewrite table_sorted. unfold entries.
  destruct (scanLevels price (entriesFrom 0 (levels g))) as [i|] eqn:Hscan; [|reflexivity].
  exfalso.
  destruct (scanLevels_Some price 0 (levels g) i Hscan) as (a & b & _ & Ha & Hb & H1 & H2).
  destruct Hout as [Hbelow | Habove].
  - apply (Qlt_irrefl price). apply Qlt_le_trans with lo; [exact Hbelow|].
    apply Qle_trans with a; [exact (lowest_le _ a Ha) | exact H1].
  - apply (Qlt_irrefl price). apply Qlt_le_trans with b; [exact H2|].
    apply Qle_trans with hi; [exact (le_highest _ b Hb) | exact Habove].
Qed.

Lemma findGridLevelIndex_top price :
  hi <= price -> findGridLevelIndex g price = gridCount g.
Proof.
  intros Hge. unfold findGridLevelIndex.
  assert (H : Qleb (upperLimit g) price = true).
  { apply Qleb_iff. rewrite <- highest_is_upperLimit. exact Hge. }
  rewrite H. reflexivity.
Qed.

Lemma findGridLevelIndex_bottom price :
  price <= lo -> findGridLevelIndex g price = 0%nat.
Proof.
  intros Hle. unfold findGridLevelIndex.
  destruct (Qleb (upperLimit g) price) eqn:Hup.
  - apply Qleb_iff in Hup. rewrite <- highest_is_upperLimit in Hup.
    destruct (gridCount g) as [|n] eqn:Hn; [reflexivity|].
    exfalso. apply (Qlt_irrefl lo).
    apply Qlt_le_trans with hi.
    + apply (strictlyIncreasing_lt _ (wf_increasing g Hwf) 0%nat (S n) lo hi);
        [lia | exact Hlo | exact Hhi].
    + apply Qle_trans with price; assumption.
  - assert (H : Qleb price (lowerLimit g) = true).
    { apply Qleb_iff. rewrite <- lowest_is_lowerLimit. exact Hle. }
    rewrite H. reflexivity.
Qed.

Lemma findGridLevelIndex_inside price :
  lo < price -> price < hi ->
  projectLevel (levels g) price = Some (findGridLevelIndex g price).
Proof.
  intros Hgt Hlt. unfold findGridLevelIndex.
  assert (H1 : Qleb (upperLimit g) price = false).
  { apply Qleb_false. rewrite <- highest_is_upperLimit. exact Hlt. }
  assert (H2 : Qleb price (lowerLimit g) = false).
  { apply Qleb_false. rewrite <- lowest_is_lowerLimit. exact Hgt. }
  rewrite H1, H2.
  destruct (projectLevel_inside price (Qlt_le_weak _ _ Hgt) Hlt) as (i & a & b & Hi & _).
  unfold projectLevel in Hi |- *. rewrite Hi. reflexivity.
Qed.

End Locator.

(** At most one interval of a table that does not decrease holds a given
    price. *)
Lemma interval_unique_in ls price i j a b a' b' :
  nondecreasing ls ->
  ls !! i = Some a -> ls !! S i = Some b ->
  ls !! j = Some a' -> ls !! S j = Some b' ->
  a <= price -> price < b -> a' <= price -> price < b' -> j = i.
Proof.
  intros Hmono Ha Hb Ha' Hb' H1 H2 H3 H4.
  destruct (Nat.lt_trichotomy j i) as [Hlt | [Heq | Hgt]]; [|exact Heq|].
  - exfalso.
    assert (Hle : b' <= a).
    { apply (nondecreasing_le _ Hmono (i - S j) (S j) b' a Hb').
      replace (S j + (i - S j))%nat with i by lia. exact Ha. }
    apply (Qlt_irrefl price).
    apply Qlt_le_trans with b'; [exact H4|]. apply Qle_trans with a; assumption.
  - exfalso.
    assert (Hle : b <= a').
    { apply (nondecreasing_le _ Hmono (j - S i) (S i) b a' Hb).
      replace (S i + (j - S i))%nat with j by lia. exact Ha'. }
    apply (Qlt_irrefl price).
    apply Qlt_le_trans with b; [exact H2|]. apply Qle_trans with a'; assumption.
Qed.

(** The scan finds an interval when the table has one that holds the
    price. *)
Lemma scanLevels_finds price k ls i a b :
  ls !! i = Some a -> ls !! S i = Some b -> a <= price -> price < b ->
  is_Some (scanLevels price (entriesFrom k ls)).
Proof.
  revert k i. induction ls as [|x ls IH]; intros k i Ha Hb H1 H2; [discriminate|].
  destruct ls as [|y ls']; [destruct i; discriminate|].
  cbn [entriesFrom scanLevels fst snd].
  destruct (Qleb x price && Qltb price y) eqn:Hin; [eexists; reflexivity|].
  destruct i as [|i].
  - exfalso. cbn in Ha, Hb. injection Ha as ->. injection Hb as ->.
    apply Qleb_iff in H1. apply Qltb_iff in H2. rewrite H1, H2 in Hin. discriminate.
  - exact (IH (S k) i Ha Hb H1 H2).
Qed.

(** Between the limits the locator returns the interval of the table that
    holds the price, whatever the ends of the table are. *)
Lemma findGridLevelIndex_interval g price i a b :
  nondecreasing (levels g) ->
  lowerLimit g < price -> price < upperLimit g ->
  levels g !! i = Some a -> levels g !! S i = Some b ->
  a <= price -> price < b ->
  findGridLevelIndex g price = i.
Proof.
  intros Hmono Hlow Hup Ha Hb H1 H2. unfold findGridLevelIndex.
  assert (E1 : Qleb (upperLimit g) price = false) by (apply Qleb_false; exact Hup).
  assert (E2 : Qleb price (lowerLimit g) = false) by (apply Qleb_false; exact Hlow).
  rewrite E1, E2. unfold entries. rewrite (sortByPrice_entriesFrom 0 _ Hmono).
  destruct (scanLevels_finds price 0 (levels g) i a b Ha Hb H1 H2) as [j Hj].
  rewrite Hj.
  destruct (scanLevels_Some price 0 (levels g) j Hj) as (a' & b' & _ & Ha' & Hb' & H3 & H4).
  rewrite Nat.sub_0_r in Ha', Hb'.
  exact (interval_unique_in (levels g) price i j a b a' b' Hmono Ha Hb Ha' Hb' H1 H2 H3 H4).
Qed.

(** Between the limits a price that no interval of the table holds is put
    on the middle level. *)
Lemma findGridLevelIndex_fallback g price :
  nondecreasing (levels g) ->
  lowerLimit g < price -> price < upperLimit g ->
  (forall i a b, levels g !! i = Some a -> levels g !! S i = Some b ->
                 ~ (a <= price /\ price < b)) ->
  findGridLevelIndex g price = (gridCount g / 2)%nat.
Proof.
  intros Hmono Hlow Hup Hnone. unfold findGridLevelIndex.
  assert (E1 : Qleb (upperLimit g) price = false) by (apply Qleb_false; exact Hup).
  assert (E2 : Qleb price (lowerLimit g) = false) by (apply Qleb_false; exact Hlow).
  rewrite E1, E2. unfold entries. rewrite (sortByPrice_entriesFrom 0 _ Hmono).
  destruct (scanLevels price (entriesFrom 0 (levels g))) as [j|] eqn:Hj; [|reflexivity].
  exfalso.
  destruct (scanLevels_Some price 0 (levels g) j Hj) as (a & b & _ & Ha & Hb & H1 & H2).
  exact (Hnone _ a b Ha Hb (conj H1 H2)).
Qed.

(** C3, as the code has it.  On a strictly increasing table the locator
    returns one level, and it clamps on the limits of the grid, not on the
    ends of the table: [gridCount] for a price at or above [upperLimit];
    below that, 0 for a price at or below [lowerLimit]; between the limits
    the one level [i] with [table[i] <= price < table[i + 1]] when the table
    has such an interval, and the middle level [floor(gridCount / 2)] when it
    has none.  Where the table runs over the keys [0 .. gridCount] from
    [lowerLimit] to [upperLimit], this is: level 0 for a price at or below
    [table[0]], level [gridCount] for a price at or above
    [table[gridCount]], and otherwise the one level [i] with
    [table[i] <= price < table[i + 1]]; a price equal to an interior boundary
    is on that boundary's own level. *)
Theorem findGridLevelIndex_locates (g : IGrid) (price : Q) :
  strictlyIncreasing (levels g) ->
  (upperLimit g <= price -> findGridLevelIndex g price = gridCount g)
  /\ (price < upperLimit g -> price <= lowerLimit g ->
      findGridLevelIndex g price = 0%nat)
  /\ (lowerLimit g < price -> price < upperLimit g ->
      forall i a b,
        levels g !! i = Some a -> levels g !! S i = Some b ->
        a <= price -> price < b -> findGridLevelIndex g price = i)
  /\ (lowerLimit g < price -> price < upperLimit g ->
      (forall i a b,
         levels g !! i = Some a -> levels g !! S i = Some b ->
         ~ (a <= price /\ price < b)) ->
      findGridLevelIndex g price = (gridCount g / 2)%nat)
  /\ (forall lo hi,
        length (levels g) = S (gridCount g) ->
        levels g !! 0%nat = Some lo -> lo == lowerLimit g ->
        levels g !! gridCount g = Some hi -> hi == upperLimit g ->
        (price <= lo -> findGridLevelIndex g price = 0%nat)
        /\ (hi <= price -> findGridLevelIndex g price = gridCount g)
        /\ (lo < price -> price < hi ->
            exists a b,
              levels g !! findGridLevelIndex g price = Some a
              /\ levels g !! S (findGridLevelIndex g price) = Some b
              /\ a <= price /\ price < b
              /\ forall j a' b',
                   levels g !! j = Some a' -> levels g !! S j = Some b' ->
                   a' <= price -> price < b' -> j = findGridLevelIndex g price)
        /\ (forall i b,
              (0 < i)%nat -> (i < gridCount g)%nat -> levels g !! i = Some b ->
              price == b -> findGridLevelIndex g price = i)).
Proof.
  intros Hinc.
  pose proof (strictlyIncreasing_nondecreasing _ Hinc) as Hmono.
  split.
  { intros Hup. unfold findGridLevelIndex. apply Qleb_iff in Hup. rewrite Hup. reflexivity. }
  split.
  { intros Hup Hlow. unfold findGridLevelIndex.
    apply Qleb_false in Hup. apply Qleb_iff in Hlow. rewrite Hup, Hlow. reflexivity. }
  split.
  { intros Hlow Hup i a b Ha Hb H1 H2.
    exact (findGridLevelIndex_interval g price i a b Hmono Hlow Hup Ha Hb H1 H2). }
  split.
  { intros Hlow Hup Hnone. exact (findGridLevelIndex_fallback g price Hmono Hlow Hup Hnone). }
  intros lo hi Hlen Hlo Hlo_eq Hhi Hhi_eq.
  assert (Hwf : wellFormed g).
  { split; [exact Hlen | exact Hinc | exists lo; split; assumption
           | exists hi; split; assumption]. }
  assert (Hinside : lo < price -> price < hi ->
    exists a b,
        levels g !! findGridLevelIndex g price = Some a
        /\ levels g !! S (findGridLevelIndex g price) = Some b
        /\ a <= price /\ price < b
        /\ forall j a' b',
             levels g !! j = Some a' -> levels g !! S j = Some b' ->
             a' <= price -> price < b' -> j = findGridLevelIndex g price).
  { intros Hgt Hlt.
    pose proof (findGridLevelIndex_inside g lo hi Hwf Hlo Hhi price Hgt Hlt) as Hfind.
    destruct (projectLevel_inside g lo hi Hwf Hlo Hhi price (Qlt_le_weak _ _ Hgt) Hlt)
      as (i & a & b & Hi & Ha & Hb & H1 & H2).
    rewrite Hi in Hfind. injection Hfind as Hfind. rewrite <- Hfind.
    exists a, b. repeat split; try assumption.
    intros j a' b' Ha' Hb' H3 H4.
    exact (interval_unique g Hwf price i j a b a' b' Ha Hb Ha' Hb' H1 H2 H3 H4). }
  split; [exact (findGridLevelIndex_bottom g lo hi Hwf Hlo Hhi price)|].
  split; [exact (findGridLevelIndex_top g hi Hwf Hhi price)|].
  split; [exact Hinside|].
  intros i b Hpos Hbelow Hb Heq.
  assert (Hnext : (S i < length (levels g))%nat) by (rewrite Hlen; lia).
  destruct (lookup_lt_is_Some_2 _ _ Hnext) as [c Hc].
  assert (Hgt : lo < price).
  { rewrite Heq.
    exact (strictlyIncreasing_lt _ Hinc 0%nat i lo b Hpos Hlo Hb). }
  assert (Hlt : price < hi).
  { rewrite Heq.
    exact (strictlyIncreasing_lt _ Hinc i (gridCount g) b hi Hbelow Hb Hhi). }
  destruct (Hinside Hgt Hlt) as (a' & b' & _ & _ & _ & _ & Huniq).
  symmetry. apply (Huniq i b c Hb Hc).
  - rewrite Heq. apply Qle_refl.
  - rewrite Heq. exact (Hinc i b c Hb Hc).
Qed.

(** ** One trade *)

Ltac simpl_world :=
  cbn [gridStateMap dbGrids dbTrades swaps console say setSwaps setDbTrades
       setDbGrids setGridStateMap mutate updateGridTokenAmounts
       incrementGridTrades createTrade callVenue negb fst snd] in *.

Lemma crossings_app l1 l2 : crossings (l1 ++ l2) = crossings l1 ++ crossings l2.
Proof.
  induction l1 as [|x l1 IH]; [reflexivity|].
  destruct x; cbn [app crossings]; rewrite IH; reflexivity.
Qed.

Lemma fmap_lookup_alter {A B : Type} (proj : A -> B) (f : A -> A)
    (m : gmap string A) (i j : string) :
  (forall x, proj (f x) = proj x) -> proj <$> alter f i m !! j = proj <$> m !! j.
Proof.
  intros Hf. rewrite lookup_alter. case_decide as Hij; [|reflexivity].
  subst j. destruct (m !! i) as [x|]; cbn; [rewrite Hf|]; reflexivity.
Qed.

Lemma keeps_refl id w : keeps id w w.
Proof. split; reflexivity. Qed.

Lemma keeps_trans id w1 w2 w3 : keeps id w1 w2 -> keeps id w2 w3 -> keeps id w1 w3.
Proof.
  intros [Hl1 Hp1 Ht1] [Hl2 Hp2 Ht2]. split.
  - rewrite Hl2. exact Hl1.
  - rewrite Hp2. exact Hp1.
  - rewrite Ht2. exact Ht1.
Qed.

Section Trades.

Variable quoteAndSwap : list SwapRequest -> SwapRequest -> SwapResult.

Ltac trade_cases grid levelIndex w :=
  destruct (levels grid !! levelIndex) as [levelPrice|];
  [destruct (truthy levelPrice); simpl_world;
   [destruct (gridStateMap w !! _id grid) as [gridState|]; simpl_world;
    [match goal with
     | |- context [success ?r] => destruct (success r); simpl_world
     end|]|]|]; simpl_world.

Lemma executeSellTrade_crossings grid levelIndex w :
  crossings (console (executeSellTrade quoteAndSwap grid levelIndex w))
  = crossings (console w) ++ [(SELL, levelIndex)].
Proof.
  unfold executeSellTrade. trade_cases grid levelIndex w;
    repeat rewrite crossings_app; cbn [crossings]; repeat rewrite app_nil_r;
    reflexivity.
Qed.

Lemma executeBuyTrade_crossings grid levelIndex w :
  crossings (console (executeBuyTrade quoteAndSwap grid levelIndex w))
  = crossings (console w) ++ [(BUY, levelIndex)].
Proof.
  unfold executeBuyTrade. trade_cases grid levelIndex w;
    repeat rewrite crossings_app; cbn [crossings]; repeat rewrite app_nil_r;
    reflexivity.
Qed.

Lemma executeSellTrade_keeps id grid levelIndex w :
  keeps id w (executeSellTrade quoteAndSwap grid levelIndex w).
Proof.
  unfold executeSellTrade. trade_cases grid levelIndex w;
    (split; unfold heldLevel; simpl_world;
     rewrite ?fmap_lookup_alter by reflexivity; reflexivity).
Qed.

Lemma executeBuyTrade_keeps id grid levelIndex w :
  keeps id w (executeBuyTrade quoteAndSwap grid levelIndex w).
Proof.
  unfold executeBuyTrade. trade_cases grid levelIndex w;
    (split; unfold heldLevel; simpl_world;
     rewrite ?fmap_lookup_alter by reflexivity; reflexivity).
Qed.

Lemma executeSellTrade_inventory grid levelIndex w :
  inventoryStored (_id grid) w ->
  inventoryStored (_id grid) (executeSellTrade quoteAndSwap grid levelIndex w).
Proof.
  unfold executeSellTrade, inventoryStored.
  destruct (levels grid !! levelIndex) as [levelPrice|]; [|simpl_world; tauto].
  destruct (truthy levelPrice); simpl_world; [|tauto].
  destruct (gridStateMap w !! _id grid) as [held|] eqn:Hheld; simpl_world;
    [|rewrite Hheld; tauto].
  match goal with
  | |- context [success ?r] => destruct (success r)
  end; simpl_world.
  - intros _. rewrite !lookup_alter_eq, Hheld. cbn.
    destruct (dbGrids w !! _id grid); cbn; [split; reflexivity | exact I].
  - rewrite Hheld. tauto.
Qed.

Lemma executeBuyTrade_inventory grid levelIndex w :
  inventoryStored (_id grid) w ->
  inventoryStored (_id grid) (executeBuyTrade quoteAndSwap grid levelIndex w).
Proof.
  unfold executeBuyTrade, inventoryStored.
  destruct (levels grid !! levelIndex) as [levelPrice|]; [|simpl_world; tauto].
  destruct (truthy levelPrice); simpl_world; [|tauto].
  destruct (gridStateMap w !! _id grid) as [held|] eqn:Hheld; simpl_world;
    [|rewrite Hheld; tauto].
  match goal with
  | |- context [success ?r] => destruct (success r)
  end; simpl_world.
  - intros _. rewrite !lookup_alter_eq, Hheld. cbn.
    destruct (dbGrids w !! _id grid); cbn; [split; reflexivity | exact I].
  - rewrite Hheld. tauto.
Qed.

End Trades.

(** ** The two loops *)

Section Loops.

Variable quoteAndSwap : list SwapRequest -> SwapRequest -> SwapResult.

(** The sell loop runs over [i, i + 1, ..], as far as [newGridIndex] and
    the fuel allow. *)
Lemma sellLoop_crossings grid fuel i newGridIndex w :
  crossings (console (sellLoop quoteAndSwap grid fuel i newGridIndex w))
  = crossings (console w)
    ++ map (pair SELL) (seq i (Nat.min fuel (S newGridIndex - i))).
Proof.
  revert i w. induction fuel as [|fuel IH]; intros i w.
  - cbn. rewrite app_nil_r. reflexivity.
  - cbn [sellLoop]. destruct (i <=? newGridIndex)%nat eqn:Hi.
    + apply Nat.leb_le in Hi. rewrite IH, executeSellTrade_crossings.
      replace (S newGridIndex - i)%nat with (S (S newGridIndex - S i)) by lia.
      rewrite <- Nat.succ_min_distr. cbn [seq map].
      rewrite <- app_assoc. reflexivity.
    + apply Nat.leb_gt in Hi.
      replace (S newGridIndex - i)%nat with 0%nat by lia.
      rewrite Nat.min_0_r. cbn. rewrite app_nil_r. reflexivity.
Qed.

(** The buy loop runs over [i, i - 1, ..], down to [newGridIndex + 1]. *)
Lemma buyLoop_crossings grid i newGridIndex w :
  crossings (console (buyLoop quoteAndSwap grid i newGridIndex w))
  = crossings (console w)
    ++ map (pair BUY) (rev (seq (S newGridIndex) (i - newGridIndex))).
Proof.
  revert w. induction i as [|i IH]; intros w.
  - cbn. rewrite app_nil_r. reflexivity.
  - cbn [buyLoop]. destruct (newGridIndex <? S i)%nat eqn:Hi.
    + apply Nat.ltb_lt in Hi. rewrite IH, executeBuyTrade_crossings.
      replace (S i - newGridIndex)%nat with (S (i - newGridIndex)) by lia.
      rewrite seq_S, rev_app_distr. cbn [rev app map].
      replace (S newGridIndex + (i - newGridIndex))%nat with (S i) by lia.
      rewrite <- app_assoc. reflexivity.
    + apply Nat.ltb_ge in Hi.
      replace (S i - newGridIndex)%nat with 0%nat by lia.
      cbn. rewrite app_nil_r. reflexivity.
Qed.

Lemma sellLoop_keeps id grid fuel i newGridIndex w :
  keeps id w (sellLoop quoteAndSwap grid fuel i newGridIndex w).
Proof.
  revert i w. induction fuel as [|fuel IH]; intros i w; [apply keeps_refl|].
  cbn [sellLoop]. destruct (i <=? newGridIndex)%nat; [|apply keeps_refl].
  eapply keeps_trans; [apply executeSellTrade_keeps | apply IH].
Qed.

Lemma buyLoop_keeps id grid i newGridIndex w :
  keeps id w (buyLoop quoteAndSwap grid i newGridIndex w).
Proof.
  revert w. induction i as [|i IH]; intros w; [apply keeps_refl|].
  cbn [buyLoop]. destruct (newGridIndex <? S i)%nat; [|apply keeps_refl].
  eapply keeps_trans; [apply executeBuyTrade_keeps | apply IH].
Qed.

Lemma sellLoop_inventory grid fuel i newGridIndex w :
  inventoryStored (_id grid) w ->
  inventoryStored (_id grid) (sellLoop quoteAndSwap grid fuel i newGridIndex w).
Proof.
  revert i w. induction fuel as [|fuel IH]; intros i w H; [exact H|].
  cbn [sellLoop]. destruct (i <=? newGridIndex)%nat; [|exact H].
  apply IH, executeSellTrade_inventory, H.
Qed.

Lemma buyLoop_inventory grid i newGridIndex w :
  inventoryStored (_id grid) w ->
  inventoryStored (_id grid) (buyLoop quoteAndSwap grid i newGridIndex w).
Proof.
  revert w. induction i as [|i IH]; intros w H; [exact H|].
  cbn [buyLoop]. destruct (newGridIndex <? S i)%nat; [|exact H].
  apply IH, executeBuyTrade_inventory, H.
Qed.

(** The fuel the tick gives the sell loop is enough: more of it changes
    nothing. *)
Lemma sellLoop_fuel grid fuel fuel' i newGridIndex w :
  (S newGridIndex - i <= fuel)%nat -> (S newGridIndex - i <= fuel')%nat ->
  sellLoop quoteAndSwap grid fuel i newGridIndex w
  = sellLoop quoteAndSwap grid fuel' i newGridIndex w.
Proof.
  revert fuel' i w. induction fuel as [|fuel IH]; intros fuel' i w H H'.
  - destruct fuel' as [|fuel']; [reflexivity|]. cbn [sellLoop].
    assert (Hi : (i <=? newGridIndex)%nat = false) by (apply Nat.leb_gt; lia).
    rewrite Hi. reflexivity.
  - destruct fuel' as [|fuel']; cbn [sellLoop].
    + assert (Hi : (i <=? newGridIndex)%nat = false) by (apply Nat.leb_gt; lia).
      rewrite Hi. reflexivity.
    + destruct (i <=? newGridIndex)%nat eqn:Hi; [|reflexivity].
      apply Nat.leb_le in Hi. apply IH; lia.
Qed.

End Loops.

(** ** One tick *)

Lemma updateGridCurrentPrice_elsewhere id price w :
  gridStateMap (updateGridCurrentPrice id price w) = gridStateMap w
  /\ dbTrades (updateGridCurrentPrice id price w) = dbTrades w
  /\ swaps (updateGridCurrentPrice id price w) = swaps w
  /\ console (updateGridCurrentPrice id price w) = console w.
Proof.
  unfold updateGridCurrentPrice. destruct (dbGrids w !! id); repeat split; reflexivity.
Qed.

Lemma updateGridCurrentPrice_stored id price w stored :
  dbGrids w !! id = Some stored ->
  dbGrids (updateGridCurrentPrice id price w) !! id
  = Some (setCurrent (Some price) (projectLevel (levels stored) price) stored).
Proof.
  intros Hstored. unfold updateGridCurrentPrice. rewrite Hstored. simpl_world.
  rewrite lookup_alter_eq, Hstored. reflexivity.
Qed.

Lemma heldLevel_withIndex id level w x :
  heldLevel w id = Some x ->
  heldLevel (mutate id (withIndex level) w) id = Some level.
Proof.
  unfold heldLevel. simpl_world. rewrite lookup_alter_eq.
  destruct (gridStateMap w !! id); [reflexivity | discriminate].
Qed.

Section Tick.

Variable quoteAndSwap : list SwapRequest -> SwapRequest -> SwapResult.
Variable grid : IGrid.
Variable tokenPrices : gmap string Q.
Variable w : World.
Variable gridState : GridState.t.
Variable price : Q.
Hypothesis Hprice : tokenPrices !! targetTokenId grid = Some price.
Hypothesis Hstate : gridStateMap w !! _id grid = Some gridState.

(** The tick of a tracked grid whose level moved. *)
Lemma processGrid_moved previous :
  GridState.currentGridIndex gridState = Some previous ->
  findGridLevelIndex grid price <> previous ->
  exists traded,
    processGrid quoteAndSwap grid tokenPrices w
    = updateGridCurrentPrice (_id grid) price
        (mutate (_id grid) (withIndex (Some (findGridLevelIndex grid price))) traded)
    /\ keeps (_id grid) (started grid price previous w) traded
    /\ crossings (console traded)
       = crossings (console w)
         ++ (if (previous <? findGridLevelIndex grid price)%nat
             then map (pair SELL)
                    (seq (S previous) (findGridLevelIndex grid price - previous))
             else map (pair BUY)
                    (rev (seq (S (findGridLevelIndex grid price))
                            (previous - findGridLevelIndex grid price)))).
Proof.
  intros Hprev Hne. unfold processGrid. rewrite Hprice, Hstate, Hprev.
  apply Nat.eqb_neq in Hne. rewrite Hne. apply Nat.eqb_neq in Hne.
  fold (started grid price previous w).
  assert (Hconsole : crossings (console (started grid price previous w)) = crossings (console w)).
  { unfold started. simpl_world. rewrite crossings_app. cbn. apply app_nil_r. }
  destruct (previous <? findGridLevelIndex grid price)%nat eqn:Hup.
  - apply Nat.ltb_lt in Hup. eexists. split; [reflexivity|]. split.
    + apply sellLoop_keeps.
    + rewrite sellLoop_crossings, Hconsole. f_equal. f_equal.
      rewrite Nat.add_1_r. f_equal. lia.
  - apply Nat.ltb_ge in Hup.
    assert (Hdown : (findGridLevelIndex grid price <? previous)%nat = true)
      by (apply Nat.ltb_lt; lia).
    rewrite Hdown. eexists. split; [reflexivity|]. split.
    + apply buyLoop_keeps.
    + rewrite buyLoop_crossings, Hconsole. reflexivity.
Qed.

(** The tick of a tracked grid whose level did not move. *)
Lemma processGrid_still previous :
  GridState.currentGridIndex gridState = Some previous ->
  findGridLevelIndex grid price = previous ->
  processGrid quoteAndSwap grid tokenPrices w
  = mutate (_id grid) (withPrice (Some price)) w.
Proof.
  intros Hprev Heq. unfold processGrid. rewrite Hprice, Hstate, Hprev.
  apply Nat.eqb_eq in Heq. rewrite Heq. reflexivity.
Qed.

(** The first tick of a grid. *)
Lemma processGrid_first :
  GridState.currentGridIndex gridState = None ->
  processGrid quoteAndSwap grid tokenPrices w
  = updateGridCurrentPrice (_id grid) price
      (mutate (_id grid) (withIndex (Some (findGridLevelIndex grid price)))
         (say (LogInitializing (findGridLevelIndex grid price))
            (mutate (_id grid) (withPrice (Some price)) w))).
Proof.
  intros Hprev. unfold processGrid. rewrite Hprice, Hstate, Hprev. reflexivity.
Qed.

End Tick.

(** ** Crossings of a tick *)

(** C5. When the located level is above the previous one, a tick sets out
    to execute exactly [newLevel - previousLevel] SELL crossings, at the
    levels [previousLevel + 1 .. newLevel] in ascending order. *)
Theorem processGrid_sells_upward
    (quoteAndSwap : list SwapRequest -> SwapRequest -> SwapResult)
    (grid : IGrid) (tokenPrices : gmap string Q) (w : World)
    (gridState : GridState.t) (price : Q) (previous : nat) :
  tokenPrices !! targetTokenId grid = Some price ->
  gridStateMap w !! _id grid = Some gridState ->
  GridState.currentGridIndex gridState = Some previous ->
  (previous < findGridLevelIndex grid price)%nat ->
  crossings (console (processGrid quoteAndSwap grid tokenPrices w))
  = crossings (console w)
    ++ map (pair SELL) (seq (S previous) (findGridLevelIndex grid price - previous))
  /\ length (seq (S previous) (findGridLevelIndex grid price - previous))
     = (findGridLevelIndex grid price - previous)%nat.
Proof.
  intros Hprice Hstate Hprev Hup. split; [|apply length_seq].
  destruct (processGrid_moved quoteAndSwap grid tokenPrices w gridState price
              Hprice Hstate previous Hprev ltac:(lia)) as (traded & -> & _ & Htraded).
  destruct (updateGridCurrentPrice_elsewhere (_id grid) price
              (mutate (_id grid) (withIndex (Some (findGridLevelIndex grid price))) traded))
    as (_ & _ & _ & ->).
  simpl_world. rewrite Htraded.
  apply Nat.ltb_lt in Hup. rewrite Hup. reflexivity.
Qed.

Lemma processGrid_sells_upward_witness :
  feed solUsdc 118 !! targetTokenId solUsdc = Some 118
  /\ (1 < findGridLevelIndex solUsdc 118)%nat
  /\ crossings (console (processGrid venueOk solUsdc (feed solUsdc 118)
                           (tracking solUsdc (Some 1%nat) 106)))
     = [(SELL, 2%nat); (SELL, 3%nat)].
Proof.
  split; [reflexivity|]. split; [vm_compute; lia|].
  exact (proj1 (processGrid_sells_upward venueOk solUsdc (feed solUsdc 118)
                  (tracking solUsdc (Some 1%nat) 106)
                  (GridState.mk (Some 1%nat) (Some 106) 0 0) 118 1%nat
                  eq_refl eq_refl eq_refl ltac:(vm_compute; lia))).
Defined.

(** C2, as the code has it.  When the located level is below the previous
    one, a tick sets out to execute exactly [previousLevel - newLevel] BUY
    crossings, one for each level of the half-open interval
    [(newLevel, previousLevel]]: the levels [previousLevel] down to
    [newLevel + 1], in descending order. *)
Theorem processGrid_buys_downward
    (quoteAndSwap : list SwapRequest -> SwapRequest -> SwapResult)
    (grid : IGrid) (tokenPrices : gmap string Q) (w : World)
    (gridState : GridState.t) (price : Q) (previous : nat) :
  tokenPrices !! targetTokenId grid = Some price ->
  gridStateMap w !! _id grid = Some gridState ->
  GridState.currentGridIndex gridState = Some previous ->
  (findGridLevelIndex grid price < previous)%nat ->
  crossings (console (processGrid quoteAndSwap grid tokenPrices w))
  = crossings (console w)
    ++ map (pair BUY)
         (rev (seq (S (findGridLevelIndex grid price))
                 (previous - findGridLevelIndex grid price)))
  /\ length (rev (seq (S (findGridLevelIndex grid price))
                    (previous - findGridLevelIndex grid price)))
     = (previous - findGridLevelIndex grid price)%nat.
Proof.
  intros Hprice Hstate Hprev Hdown.
  split; [|rewrite length_rev; apply length_seq].
  destruct (processGrid_moved quoteAndSwap grid tokenPrices w gridState price
              Hprice Hstate previous Hprev ltac:(lia)) as (traded & -> & _ & Htraded).
  destruct (updateGridCurrentPrice_elsewhere (_id grid) price
              (mutate (_id grid) (withIndex (Some (findGridLevelIndex grid price))) traded))
    as (_ & _ & _ & ->).
  simpl_world. rewrite Htraded.
  assert (Hup : (previous <? findGridLevelIndex grid price)%nat = false)
    by (apply Nat.ltb_ge; lia).
  rewrite Hup. reflexivity.
Qed.

Lemma processGrid_buys_downward_witness :
  feed solUsdc 101 !! targetTokenId solUsdc = Some 101
  /\ (findGridLevelIndex solUsdc 101 < 3)%nat
  /\ crossings (console (processGrid venueOk solUsdc (feed solUsdc 101)
                           (tracking solUsdc (Some 3%nat) 116)))
     = [(BUY, 3%nat); (BUY, 2%nat); (BUY, 1%nat)].
Proof.
  split; [reflexivity|]. split; [vm_compute; lia|].
  exact (proj1 (processGrid_buys_downward venueOk solUsdc (feed solUsdc 101)
                  (tracking solUsdc (Some 3%nat) 116)
                  (GridState.mk (Some 3%nat) (Some 116) 0 0) 101 3%nat
                  eq_refl eq_refl eq_refl ltac:(vm_compute; lia))).
Defined.

(** C2 as stated fails: from level 3 down to level 0 the crossings are not
    the levels 2, 1, 0 of [[newLevel, previousLevel)]. *)
Lemma buys_are_not_below_previous_level :
  findGridLevelIndex solUsdc 101 = 0%nat
  /\ crossings (console (processGrid venueOk solUsdc (feed solUsdc 101)
                           (tracking solUsdc (Some 3%nat) 116)))
     <> map (pair BUY) (rev (seq 0 (3 - 0))).
Proof.
  split; [reflexivity|]. vm_compute. intros H. discriminate H.
Qed.

(** ** Failed executions *)

(** C1, as the code has it.  A failed execution does not stop the tick: for
    any outcomes of the venue, a tick of a tracked grid whose level moved
    sets out to execute every crossing of the sequence, and then holds the
    newly located level; the next tick at the same price sets out to execute
    nothing, calls the venue for nothing and records nothing, so a crossing
    whose execution failed is not taken up again. *)
Theorem processGrid_passes_failed_crossings
    (quoteAndSwap : list SwapRequest -> SwapRequest -> SwapResult)
    (grid : IGrid) (tokenPrices : gmap string Q) (w : World)
    (gridState : GridState.t) (price : Q) (previous : nat) :
  tokenPrices !! targetTokenId grid = Some price ->
  gridStateMap w !! _id grid = Some gridState ->
  GridState.currentGridIndex gridState = Some previous ->
  findGridLevelIndex grid price <> previous ->
  let newLevel := findGridLevelIndex grid price in
  let w' := processGrid quoteAndSwap grid tokenPrices w in
  crossings (console w')
  = crossings (console w)
    ++ (if (previous <? newLevel)%nat
        then map (pair SELL) (seq (S previous) (newLevel - previous))
        else map (pair BUY) (rev (seq (S newLevel) (previous - newLevel))))
  /\ heldLevel w' (_id grid) = Some (Some newLevel)
  /\ forall nextVenue : list SwapRequest -> SwapRequest -> SwapResult,
       let w'' := processGrid nextVenue grid tokenPrices w' in
       crossings (console w'') = crossings (console w')
       /\ swaps w'' = swaps w'
       /\ dbTrades w'' = dbTrades w'
       /\ heldLevel w'' (_id grid) = Some (Some newLevel).
Proof.
  intros Hprice Hstate Hprev Hne newLevel w'.
  destruct (processGrid_moved quoteAndSwap grid tokenPrices w gridState price
              Hprice Hstate previous Hprev Hne) as (traded & Hw' & Hkeeps & Htraded).
  fold newLevel in Hw', Htraded. fold w' in Hw'.
  destruct (updateGridCurrentPrice_elsewhere (_id grid) price
              (mutate (_id grid) (withIndex (Some newLevel)) traded))
    as (Hmap & _ & _ & Hconsole).
  assert (Hheld : heldLevel w' (_id grid) = Some (Some newLevel)).
  { unfold heldLevel. rewrite Hw', Hmap.
    apply (heldLevel_withIndex (_id grid) (Some newLevel) traded (Some previous)).
    rewrite (keeps_level _ _ _ Hkeeps). unfold heldLevel, started. simpl_world.
    rewrite lookup_alter_eq, Hstate. cbn. rewrite Hprev. reflexivity. }
  split; [|split; [exact Hheld|]].
  - rewrite Hw', Hconsole. simpl_world. exact Htraded.
  - intros nextVenue w''.
    unfold heldLevel in Hheld.
    destruct (gridStateMap w' !! _id grid) as [held|] eqn:Hheld'; [|discriminate].
    cbn in Hheld. injection Hheld as Hheld.
    assert (Hw'' : w'' = mutate (_id grid) (withPrice (Some price)) w').
    { exact (processGrid_still nextVenue grid tokenPrices w' held price
               Hprice Hheld' newLevel Hheld eq_refl). }
    rewrite Hw''. simpl_world. repeat split.
    unfold heldLevel. simpl_world. rewrite lookup_alter_eq, Hheld'. cbn.
    rewrite Hheld. reflexivity.
Qed.

Lemma processGrid_passes_failed_crossings_witness :
  let w := tracking solUsdcWide (Some 1%nat) 106 in
  let w' := processGrid (venueFailing 3) solUsdcWide (feed solUsdcWide 131) w in
  findGridLevelIndex solUsdcWide 131 <> 1%nat
  /\ crossings (console w')
     = [(SELL, 2%nat); (SELL, 3%nat); (SELL, 4%nat); (SELL, 5%nat); (SELL, 6%nat)]
  /\ heldLevel w' (_id solUsdcWide) = Some (Some 6%nat).
Proof.
  assert (Hne : findGridLevelIndex solUsdcWide 131 <> 1%nat)
    by (vm_compute; lia).
  split; [exact Hne|].
  pose proof (processGrid_passes_failed_crossings (venueFailing 3) solUsdcWide
                (feed solUsdcWide 131) (tracking solUsdcWide (Some 1%nat) 106)
                (GridState.mk (Some 1%nat) (Some 106) 0 0) 131 1%nat
                eq_refl eq_refl eq_refl Hne) as H.
  split; [exact (proj1 H) | exact (proj1 (proj2 H))].
Defined.

(** C1 as stated fails: of five resolved crossings the third execution
    fails, yet all five are attempted, the four others are traded, and the
    held level is the new level 6, not [1 + 2]; the next tick at the same
    price resolves no crossing where the claim has three. *)
Lemma failed_crossing_does_not_stop_the_tick :
  let w := tracking solUsdcWide (Some 1%nat) 106 in
  let w' := processGrid (venueFailing 3) solUsdcWide (feed solUsdcWide 131) w in
  let w'' := processGrid venueOk solUsdcWide (feed solUsdcWide 131) w' in
  crossings (console w')
  = [(SELL, 2%nat); (SELL, 3%nat); (SELL, 4%nat); (SELL, 5%nat); (SELL, 6%nat)]
  /\ map gridLevel (dbTrades w') = [2%nat; 3%nat; 5%nat; 6%nat]
  /\ heldLevel w' (_id solUsdcWide) <> Some (Some (1 + (3 - 1))%nat)
  /\ crossings (console w'') <> crossings (console w')
                                ++ [(SELL, 4%nat); (SELL, 5%nat); (SELL, 6%nat)].
Proof.
  vm_compute. repeat split; intros H; discriminate H.
Qed.

(** ** The first observation *)

(** C4. The first tick of a grid (no level held yet) with a price at hand
    trades nothing: it sets out to execute no crossing, calls the venue for
    nothing and records no trade; it holds the located level and the observed
    price from then on, with the inventory it had; the collection gets the
    observed price as a checkpoint, with its counters and inventory as they
    were; and no other grid is touched. *)
Theorem processGrid_first_observation
    (quoteAndSwap : list SwapRequest -> SwapRequest -> SwapResult)
    (grid : IGrid) (tokenPrices : gmap string Q) (w : World)
    (gridState : GridState.t) (stored : IGrid) (price : Q) :
  tokenPrices !! targetTokenId grid = Some price ->
  gridStateMap w !! _id grid = Some gridState ->
  GridState.currentGridIndex gridState = None ->
  dbGrids w !! _id grid = Some stored ->
  let w' := processGrid quoteAndSwap grid tokenPrices w in
  crossings (console w') = crossings (console w)
  /\ swaps w' = swaps w
  /\ dbTrades w' = dbTrades w
  /\ gridStateMap w' !! _id grid
     = Some (GridState.mk (Some (findGridLevelIndex grid price)) (Some price)
               (GridState.source gridState) (GridState.target gridState))
  /\ (exists stored',
        dbGrids w' !! _id grid = Some stored'
        /\ currentPrice stored' = Some price
        /\ currentGridIndex stored' = projectLevel (levels stored) price
        /\ totalBuys stored' = totalBuys stored
        /\ totalSells stored' = totalSells stored
        /\ sourceTokenAmount stored' = sourceTokenAmount stored
        /\ targetTokenAmount stored' = targetTokenAmount stored
        /\ levels stored' = levels stored)
  /\ (forall id, id <> _id grid ->
        gridStateMap w' !! id = gridStateMap w !! id
        /\ dbGrids w' !! id = dbGrids w !! id).
Proof.
  intros Hprice Hstate Hnone Hstored w'.
  pose proof (processGrid_first quoteAndSwap grid tokenPrices w gridState price
                Hprice Hstate Hnone) as Hw'.
  fold w' in Hw'. rewrite Hw'.
  set (recorded := mutate (_id grid) (withIndex (Some (findGridLevelIndex grid price)))
                     (say (LogInitializing (findGridLevelIndex grid price))
                        (mutate (_id grid) (withPrice (Some price)) w))).
  destruct (updateGridCurrentPrice_elsewhere (_id grid) price recorded)
    as (Hmap & Htrades & Hswaps & Hconsole).
  rewrite Hmap, Htrades, Hswaps, Hconsole.
  assert (Hdb : dbGrids recorded = dbGrids w) by reflexivity.
  split.
  { unfold recorded. simpl_world. rewrite crossings_app. cbn. apply app_nil_r. }
  split; [reflexivity|]. split; [reflexivity|]. split.
  { unfold recorded. simpl_world. rewrite !lookup_alter_eq, Hstate. cbn.
    unfold withIndex, withPrice. cbn. reflexivity. }
  split.
  { exists (setCurrent (Some price) (projectLevel (levels stored) price) stored).
    split; [|repeat split].
    apply updateGridCurrentPrice_stored. rewrite Hdb. exact Hstored. }
  intros id Hid. split.
  - unfold recorded. simpl_world. rewrite !lookup_alter_ne by congruence. reflexivity.
  - unfold updateGridCurrentPrice. rewrite Hdb, Hstored. simpl_world.
    rewrite lookup_alter_ne by congruence. reflexivity.
Qed.

Lemma processGrid_first_observation_witness :
  let w := tracking solUsdc None 106 in
  let w' := processGrid venueOk solUsdc (feed solUsdc 106) w in
  GridState.currentGridIndex (GridState.mk None (Some 106) 0 0) = None
  /\ crossings (console w') = crossings (console w)
  /\ swaps w' = swaps w
  /\ dbTrades w' = dbTrades w.
Proof.
  pose proof (processGrid_first_observation venueOk solUsdc (feed solUsdc 106)
                (tracking solUsdc None 106) (GridState.mk None (Some 106) 0 0)
                (setCurrent (Some 106) None solUsdc) 106
                eq_refl eq_refl eq_refl eq_refl) as H.
  split; [reflexivity|].
  split; [exact (proj1 H)|].
  split; [exact (proj1 (proj2 H)) | exact (proj1 (proj2 (proj2 H)))].
Defined.

(** ** The checkpoint *)

Lemma inventoryStored_mutate id f w :
  (forall s, GridState.source (f s) = GridState.source s) ->
  (forall s, GridState.target (f s) = GridState.target s) ->
  inventoryStored id w -> inventoryStored id (mutate id f w).
Proof.
  intros Hsrc Htgt. unfold inventoryStored. simpl_world. rewrite lookup_alter_eq.
  destruct (gridStateMap w !! id) as [s|]; cbn; [|tauto].
  destruct (dbGrids w !! id); [|tauto]. rewrite Hsrc, Htgt. tauto.
Qed.

Lemma inventoryStored_updateGridCurrentPrice id price w :
  inventoryStored id w -> inventoryStored id (updateGridCurrentPrice id price w).
Proof.
  unfold inventoryStored, updateGridCurrentPrice.
  destruct (dbGrids w !! id) as [stored|] eqn:Hstored.
  - simpl_world. rewrite lookup_alter_eq, Hstored. cbn. tauto.
  - rewrite Hstored. tauto.
Qed.

Lemma processGrid_inventory
    (quoteAndSwap : list SwapRequest -> SwapRequest -> SwapResult)
    (grid : IGrid) (tokenPrices : gmap string Q) (w : World) :
  inventoryStored (_id grid) w ->
  inventoryStored (_id grid) (processGrid quoteAndSwap grid tokenPrices w).
Proof.
  intros H. unfold processGrid.
  destruct (tokenPrices !! targetTokenId grid) as [price|]; [|exact H].
  destruct (gridStateMap w !! _id grid) as [gridState|]; [|exact H].
  assert (Hpriced : inventoryStored (_id grid)
                      (mutate (_id grid) (withPrice (Some price)) w))
    by (apply inventoryStored_mutate; [reflexivity | reflexivity | exact H]).
  destruct (GridState.currentGridIndex gridState) as [previous|].
  - destruct (findGridLevelIndex grid price =? previous)%nat; [exact Hpriced|].
    apply inventoryStored_updateGridCurrentPrice.
    apply inventoryStored_mutate; [reflexivity | reflexivity |].
    destruct (previous <? findGridLevelIndex grid price)%nat;
      [apply sellLoop_inventory; exact Hpriced|].
    destruct (findGridLevelIndex grid price <? previous)%nat;
      [apply buyLoop_inventory; exact Hpriced | exact Hpriced].
  - apply inventoryStored_updateGridCurrentPrice.
    apply inventoryStored_mutate; [reflexivity | reflexivity | exact Hpriced].
Qed.

(** C9, as the code has it.  On a tick of a tracked grid with a price at
    hand, the checkpoint is written after the crossing loop when the located
    level differs from the previous one, whatever the outcomes of the
    executions: the collection then holds the observed price and the level
    it projects from that price.  When the level did not change the tick
    writes nothing to the collection: only the bot holds the observed price.
    The inventory is stored by the trades themselves: a tick leaves the
    stored inventory equal to the held one if it was so before. *)
Theorem processGrid_checkpoint
    (quoteAndSwap : list SwapRequest -> SwapRequest -> SwapResult)
    (grid : IGrid) (tokenPrices : gmap string Q) (w : World)
    (gridState : GridState.t) (stored : IGrid) (price : Q) (previous : nat) :
  tokenPrices !! targetTokenId grid = Some price ->
  gridStateMap w !! _id grid = Some gridState ->
  GridState.currentGridIndex gridState = Some previous ->
  dbGrids w !! _id grid = Some stored ->
  let w' := processGrid quoteAndSwap grid tokenPrices w in
  (findGridLevelIndex grid price <> previous ->
     storedPrice w' (_id grid) = Some (Some price)
     /\ storedLevel w' (_id grid) = Some (projectLevel (levels stored) price))
  /\ (findGridLevelIndex grid price = previous ->
        dbGrids w' = dbGrids w
        /\ dbTrades w' = dbTrades w
        /\ GridState.lastCheckedPrice <$> gridStateMap w' !! _id grid
           = Some (Some price))
  /\ (inventoryStored (_id grid) w -> inventoryStored (_id grid) w').
Proof.
  intros Hprice Hstate Hprev Hstored w'.
  split; [|split].
  - intros Hne.
    destruct (processGrid_moved quoteAndSwap grid tokenPrices w gridState price
                Hprice Hstate previous Hprev Hne) as (traded & Hw' & Hkeeps & _).
    fold w' in Hw'.
    pose proof (keeps_table _ _ _ Hkeeps) as Htable.
    unfold started in Htable. simpl_world. rewrite Hstored in Htable.
    destruct (dbGrids traded !! _id grid) as [stored2|] eqn:Hstored2; [|discriminate].
    cbn in Htable. injection Htable as Htable.
    assert (Hlookup : dbGrids w' !! _id grid
                      = Some (setCurrent (Some price)
                                (projectLevel (levels stored2) price) stored2)).
    { rewrite Hw'. apply updateGridCurrentPrice_stored. simpl_world. exact Hstored2. }
    unfold storedPrice, storedLevel. rewrite Hlookup, Htable. split; reflexivity.
  - intros Heq.
    pose proof (processGrid_still quoteAndSwap grid tokenPrices w gridState price
                  Hprice Hstate previous Hprev Heq) as Hw'.
    fold w' in Hw'. rewrite Hw'. simpl_world.
    split; [reflexivity|]. split; [reflexivity|].
    rewrite lookup_alter_eq, Hstate. reflexivity.
  - apply processGrid_inventory.
Qed.

Lemma processGrid_checkpoint_witness :
  let w := tracking solUsdc (Some 1%nat) 106 in
  let w' := processGrid (venueFailing 2) solUsdc (feed solUsdc 121) w in
  findGridLevelIndex solUsdc 121 <> 1%nat
  /\ storedPrice w' (_id solUsdc) = Some (Some 121)
  /\ storedLevel w' (_id solUsdc) = Some (projectLevel (levels solUsdc) 121).
Proof.
  assert (Hne : findGridLevelIndex solUsdc 121 <> 1%nat) by (vm_compute; lia).
  split; [exact Hne|].
  exact (proj1 (processGrid_checkpoint (venueFailing 2) solUsdc (feed solUsdc 121)
                  (tracking solUsdc (Some 1%nat) 106)
                  (GridState.mk (Some 1%nat) (Some 106) 0 0)
                  (setCurrent (Some 106) (Some 1%nat) solUsdc) 121 1%nat
                  eq_refl eq_refl eq_refl eq_refl) Hne).
Defined.

(** C9 as stated fails: the price moves from 106 to 108 inside level 1; the
    bot holds 108 after the tick and the collection still holds 106. *)
Lemma unchanged_level_writes_no_checkpoint :
  let w := tracking solUsdc (Some 1%nat) 106 in
  let w' := processGrid venueOk solUsdc (feed solUsdc 108) w in
  heldLevel w (_id solUsdc) = Some (Some 1%nat)
  /\ findGridLevelIndex solUsdc 108 = 1%nat
  /\ GridState.lastCheckedPrice <$> gridStateMap w' !! _id solUsdc = Some (Some 108)
  /\ storedPrice w' (_id solUsdc) = Some (Some 106)
  /\ storedPrice w' (_id solUsdc) <> Some (Some 108).
Proof.
  vm_compute. repeat split. intros H. discriminate H.
Qed.

(** ** The locator and the projection of the checkpoint *)

Lemma solUsdc_wellFormed : wellFormed solUsdc.
Proof.
  split.
  - reflexivity.
  - apply increasingb_spec. reflexivity.
  - exists 100. split; reflexivity.
  - exists 120. split; reflexivity.
Qed.

Lemma findGridLevelIndex_locates_witness :
  strictlyIncreasing (levels solUsdc)
  /\ findGridLevelIndex solUsdc 99 = 0%nat
  /\ findGridLevelIndex solUsdc 120 = 4%nat
  /\ findGridLevelIndex solUsdc 105 = 1%nat
  /\ findGridLevelIndex solUsdc 117 = 3%nat.
Proof.
  assert (Hinc : strictlyIncreasing (levels solUsdc)) by (apply increasingb_spec; reflexivity).
  split; [exact Hinc|].
  split; [|split; [|split]].
  - destruct (findGridLevelIndex_locates solUsdc 99 Hinc) as (_ & _ & _ & _ & Hends).
    apply (proj1 (Hends 100 120 eq_refl eq_refl ltac:(reflexivity) eq_refl ltac:(reflexivity))).
    apply Qleb_iff. reflexivity.
  - apply (proj1 (findGridLevelIndex_locates solUsdc 120 Hinc)).
    apply Qleb_iff. reflexivity.
  - destruct (findGridLevelIndex_locates solUsdc 105 Hinc) as (_ & _ & _ & _ & Hends).
    apply (proj2 (proj2 (proj2 (Hends 100 120 eq_refl eq_refl ltac:(reflexivity)
                                  eq_refl ltac:(reflexivity)))) 1%nat 105).
    + lia.
    + cbn. lia.
    + reflexivity.
    + reflexivity.
  - destruct (findGridLevelIndex_locates solUsdc 117 Hinc) as (_ & _ & Hin & _).
    apply (Hin ltac:(apply Qltb_iff; reflexivity) ltac:(apply Qltb_iff; reflexivity)
             3%nat 115 120 eq_refl eq_refl).
    + apply Qleb_iff. reflexivity.
    + apply Qltb_iff. reflexivity.
Defined.

(** C3 as stated fails where the limits are not the ends of the table.  The
    edit of the limits to 99.9999996 .. 120.0000004 writes the strictly
    increasing table 100, 105, 110, 115, 120 beside those limits: the price
    99.9999998 is at or below [table[0]] and the price 120.0000002 at or
    above [table[4]], and the locator puts both on the middle level 2, not
    on level 0 and level 4. *)
Lemma price_beyond_the_table_is_on_the_middle_level :
  exists updated w',
    updateGridPriceLimits (_id solUsdc)
      (double (1200000004 # 10000000)) (double (999999996 # 10000000)) None
      (collection solUsdc) = (Some updated, w')
    /\ levels updated = [100; 105; 110; 115; 120]
    /\ strictlyIncreasing (levels updated)
    /\ double (999999998 # 10000000) <= 100
    /\ findGridLevelIndex updated (double (999999998 # 10000000)) = 2%nat
    /\ findGridLevelIndex updated (double (999999998 # 10000000)) <> 0%nat
    /\ 120 <= double (1200000002 # 10000000)
    /\ findGridLevelIndex updated (double (1200000002 # 10000000)) = 2%nat
    /\ findGridLevelIndex updated (double (1200000002 # 10000000)) <> gridCount updated.
Proof.
  remember (updateGridPriceLimits (_id solUsdc)
              (double (1200000004 # 10000000)) (double (999999996 # 10000000)) None
              (collection solUsdc)) as edit eqn:Hedit.
  assert (Hupdated : fst edit
                     = Some (setLimits (double (1200000004 # 10000000))
                               (double (999999996 # 10000000))
                               [100; 105; 110; 115; 120] None 4 solUsdc))
    by (rewrite Hedit; vm_compute; reflexivity).
  clear Hedit. destruct edit as [result w']. cbn [fst] in Hupdated. subst result.
  eexists. exists w'. split; [reflexivity|].
  cbn [levels gridCount setLimits].
  split; [reflexivity|].
  split; [apply increasingb_spec; reflexivity|].
  split; [apply Qleb_iff; vm_compute; reflexivity|].
  split; [vm_compute; reflexivity|].
  split; [vm_compute; intros H; discriminate H|].
  split; [apply Qleb_iff; vm_compute; reflexivity|].
  split; [vm_compute; reflexivity|].
  vm_compute. intros H. discriminate H.
Qed.

(** C10, as the code has it.  On a well-formed grid whose stored table is
    the one the bot holds, the checkpoint routine stores no level
    ([currentGridIndex = null]) for a price strictly below the lowest
    boundary or at or above the highest one, where the locator returns the
    clamped level 0 or [gridCount]; for every price from the lowest boundary
    up to, not including, the highest one it stores the very level the
    locator returns.  The lowest boundary itself is stored as level 0. *)
Theorem updateGridCurrentPrice_agrees_inside
    (g stored : IGrid) (lo hi price : Q) (w : World) :
  wellFormed g ->
  levels g !! 0%nat = Some lo ->
  levels g !! gridCount g = Some hi ->
  dbGrids w !! _id g = Some stored ->
  levels stored = levels g ->
  let w' := updateGridCurrentPrice (_id g) price w in
  (price < lo ->
     storedLevel w' (_id g) = Some None /\ findGridLevelIndex g price = 0%nat)
  /\ (hi <= price ->
        storedLevel w' (_id g) = Some None
        /\ findGridLevelIndex g price = gridCount g)
  /\ (lo <= price -> price < hi ->
        storedLevel w' (_id g) = Some (Some (findGridLevelIndex g price))).
Proof.
  intros Hwf Hlo Hhi Hstored Htable w'.
  assert (Hlevel : storedLevel w' (_id g) = Some (projectLevel (levels g) price)).
  { unfold storedLevel, w'.
    rewrite (updateGridCurrentPrice_stored _ price w stored Hstored), Htable.
    reflexivity. }
  rewrite Hlevel. split; [|split].
  - intros Hbelow. split.
    + rewrite (projectLevel_outside g lo hi Hwf Hlo Hhi price (or_introl Hbelow)).
      reflexivity.
    + apply (findGridLevelIndex_bottom g lo hi Hwf Hlo Hhi). apply Qlt_le_weak, Hbelow.
  - intros Habove. split.
    + rewrite (projectLevel_outside g lo hi Hwf Hlo Hhi price (or_intror Habove)).
      reflexivity.
    + apply (findGridLevelIndex_top g hi Hwf Hhi). exact Habove.
  - intros Hle Hlt. f_equal.
    destruct (Qlt_le_dec lo price) as [Hgt | Hbottom].
    + exact (findGridLevelIndex_inside g lo hi Hwf Hlo Hhi price Hgt Hlt).
    + rewrite (findGridLevelIndex_bottom g lo hi Hwf Hlo Hhi price Hbottom).
      destruct (projectLevel_inside g lo hi Hwf Hlo Hhi price Hle Hlt)
        as (i & a & b & Hi & Ha & Hb & H1 & H2).
      rewrite Hi. f_equal.
      assert (Hcount : (0 < gridCount g)%nat).
      { destruct (gridCount g) as [|n] eqn:Hn; [|lia]. exfalso.
        rewrite Hlo in Hhi. injection Hhi as Hhi. rewrite Hhi in Hle.
        exact (Qlt_not_le _ _ Hlt Hle). }
      assert (Hnext : (1 < length (levels g))%nat) by (rewrite (wf_length g Hwf); lia).
      destruct (lookup_lt_is_Some_2 _ _ Hnext) as [c Hc].
      apply (interval_unique g Hwf price 0%nat i lo c a b Hlo Hc Ha Hb Hle).
      * apply Qle_lt_trans with lo; [exact Hbottom|].
        exact (wf_increasing g Hwf 0%nat lo c Hlo Hc).
      * exact H1.
      * exact H2.
Qed.

Lemma updateGridCurrentPrice_agrees_inside_witness :
  let w := tracking solUsdc (Some 1%nat) 106 in
  wellFormed solUsdc
  /\ 100 <= 117 /\ 117 < 120
  /\ storedLevel (updateGridCurrentPrice (_id solUsdc) 117 w) (_id solUsdc)
     = Some (Some (findGridLevelIndex solUsdc 117)).
Proof.
  assert (H1 : 100 <= 117) by (apply Qleb_iff; reflexivity).
  assert (H2 : 117 < 120) by (apply Qltb_iff; reflexivity).
  split; [exact solUsdc_wellFormed|]. split; [exact H1|]. split; [exact H2|].
  exact (proj2 (proj2 (updateGridCurrentPrice_agrees_inside solUsdc
                         (setCurrent (Some 106) (Some 1%nat) solUsdc) 100 120 117
                         (tracking solUsdc (Some 1%nat) 106)
                         solUsdc_wellFormed eq_refl eq_refl eq_refl eq_refl)) H1 H2).
Defined.

(** C10 as stated fails at the lowest boundary: for the price 100 the
    checkpoint routine stores level 0, not [null], and so agrees with the
    locator. *)
Lemma lowest_boundary_is_stored :
  let w := tracking solUsdc (Some 1%nat) 106 in
  100 <= 100
  /\ storedLevel (updateGridCurrentPrice (_id solUsdc) 100 w) (_id solUsdc)
     <> Some None
  /\ storedLevel (updateGridCurrentPrice (_id solUsdc) 100 w) (_id solUsdc)
     = Some (Some (findGridLevelIndex solUsdc 100)).
Proof.
  split; [apply Qle_refl|]. vm_compute. split; [intros H; discriminate H | reflexivity].
Qed.

(** ** Recorded trades *)

Lemma not_extended {A : Type} (l : list A) (x : A) : l <> l ++ [x].
Proof.
  intros H. apply (f_equal length) in H. rewrite length_app in H. cbn in H. lia.
Qed.

(** A SELL that records a trade went through the swap: the row and the
    request are those of the level's price. *)
Lemma executeSellTrade_row
    (quoteAndSwap : list SwapRequest -> SwapRequest -> SwapResult)
    (grid : IGrid) (levelIndex : nat) (w : World) (row : ITrade) :
  dbTrades (executeSellTrade quoteAndSwap grid levelIndex w) = dbTrades w ++ [row] ->
  exists levelPrice,
    levels grid !! levelIndex = Some levelPrice
    /\ truthy levelPrice = true
    /\ swaps (executeSellTrade quoteAndSwap grid levelIndex w)
       = swaps w
         ++ [mkSwap (sourceTokenId grid) (targetTokenId grid)
               (Qfloor (quantityInvested grid / ofNat (gridCount grid) / levelPrice
                        * 1000000)) 100]
    /\ row = mkTrade (_id grid) SELL (sourceTokenSymbol grid) (targetTokenSymbol grid)
               (sourceTokenId grid) (targetTokenId grid)
               (quantityInvested grid / ofNat (gridCount grid) / levelPrice)
               (quantityInvested grid / ofNat (gridCount grid) / levelPrice * levelPrice)
               levelIndex (transactionHash row)
               (match buyPriceOf grid levelIndex with
                | Some buyPrice =>
                    ProfitNumber
                      ((levelPrice - buyPrice)
                       * (quantityInvested grid / ofNat (gridCount grid) / levelPrice))
                | None => ProfitNaN
                end).
Proof.
  unfold executeSellTrade.
  destruct (levels grid !! levelIndex) as [levelPrice|] eqn:Hlevel; simpl_world;
    [|intros H; destruct (not_extended _ _ H)].
  destruct (truthy levelPrice) eqn:Htruthy; simpl_world;
    [|intros H; destruct (not_extended _ _ H)].
  destruct (gridStateMap w !! _id grid) as [gridState|]; simpl_world;
    [|intros H; destruct (not_extended _ _ H)].
  match goal with
  | |- context [success ?r] => destruct (success r)
  end; simpl_world; [|intros H; destruct (not_extended _ _ H)].
  intros H. apply app_inv_head in H. injection H as <-.
  exists levelPrice. split; [reflexivity|]. split; [exact Htruthy|].
  split; reflexivity.
Qed.

(** A BUY that records a trade: the request it handed to the venue and the
    row it wrote. *)
Lemma executeBuyTrade_row
    (quoteAndSwap : list SwapRequest -> SwapRequest -> SwapResult)
    (grid : IGrid) (levelIndex : nat) (w : World) (row : ITrade) :
  dbTrades (executeBuyTrade quoteAndSwap grid levelIndex w) = dbTrades w ++ [row] ->
  exists levelPrice,
    levels grid !! levelIndex = Some levelPrice
    /\ truthy levelPrice = true
    /\ swaps (executeBuyTrade quoteAndSwap grid levelIndex w)
       = swaps w
         ++ [mkSwap (sourceTokenId grid) (targetTokenId grid)
               (Qfloor (quantityInvested grid / ofNat (gridCount grid) * 1000000)) 100]
    /\ row = mkTrade (_id grid) BUY (targetTokenSymbol grid) (sourceTokenSymbol grid)
               (targetTokenId grid) (sourceTokenId grid)
               (quantityInvested grid / ofNat (gridCount grid) / levelPrice)
               (quantityInvested grid / ofNat (gridCount grid))
               levelIndex (transactionHash row) ProfitUndefined.
Proof.
  unfold executeBuyTrade.
  destruct (levels grid !! levelIndex) as [levelPrice|] eqn:Hlevel; simpl_world;
    [|intros H; destruct (not_extended _ _ H)].
  destruct (truthy levelPrice) eqn:Htruthy; simpl_world;
    [|intros H; destruct (not_extended _ _ H)].
  destruct (gridStateMap w !! _id grid) as [gridState|]; simpl_world;
    [|intros H; destruct (not_extended _ _ H)].
  match goal with
  | |- context [success ?r] => destruct (success r)
  end; simpl_world; [|intros H; destruct (not_extended _ _ H)].
  intros H. apply app_inv_head in H. injection H as <-.
  exists levelPrice. split; [reflexivity|]. split; [exact Htruthy|].
  split; reflexivity.
Qed.

(** C7. A SELL executed at level [L] records the profit
    [(sellPrice - referencePrice) * inputAmount], the reference price being
    the boundary of level [L - 1] when [L > 0] and the lower limit of the grid
    when [L = 0]; an executed BUY records no profit. *)
Theorem recorded_profit
    (quoteAndSwap : list SwapRequest -> SwapRequest -> SwapResult)
    (grid : IGrid) (levelIndex : nat) (w : World) (row : ITrade) :
  (dbTrades (executeSellTrade quoteAndSwap grid levelIndex w) = dbTrades w ++ [row] ->
   exists sellPrice,
     side row = SELL
     /\ gridLevel row = levelIndex
     /\ levels grid !! levelIndex = Some sellPrice
     /\ ((0 < levelIndex)%nat ->
         exists referencePrice,
           levels grid !! (levelIndex - 1)%nat = Some referencePrice
           /\ profit row
              = ProfitNumber ((sellPrice - referencePrice) * inputAmount row))
     /\ (levelIndex = 0%nat ->
         profit row = ProfitNumber ((sellPrice - lowerLimit grid) * inputAmount row)))
  /\ (dbTrades (executeBuyTrade quoteAndSwap grid levelIndex w) = dbTrades w ++ [row] ->
      side row = BUY /\ gridLevel row = levelIndex /\ profit row = ProfitUndefined).
Proof.
  split.
  - intros H.
    destruct (executeSellTrade_row quoteAndSwap grid levelIndex w row H)
      as (sellPrice & Hlevel & _ & _ & Hrow).
    exists sellPrice. rewrite Hrow. cbn [side gridLevel profit inputAmount].
    split; [reflexivity|]. split; [reflexivity|]. split; [exact Hlevel|]. split.
    + intros Hpos.
      assert (Hbelow : (levelIndex - 1 < length (levels grid))%nat).
      { apply lookup_lt_Some in Hlevel. lia. }
      destruct (lookup_lt_is_Some_2 _ _ Hbelow) as [referencePrice Href].
      exists referencePrice. split; [exact Href|].
      unfold buyPriceOf. apply Nat.ltb_lt in Hpos. rewrite Hpos, Href. reflexivity.
    + intros ->. reflexivity.
  - intros H.
    destruct (executeBuyTrade_row quoteAndSwap grid levelIndex w row H)
      as (levelPrice & _ & _ & _ & Hrow).
    rewrite Hrow. repeat split.
Qed.

Lemma recorded_profit_witness :
  let w := tracking solUsdc (Some 1%nat) 106 in
  let row := mkTrade (_id solUsdc) SELL "SOL" "USDC" (sourceTokenId solUsdc)
               (targetTokenId solUsdc) (1000 / ofNat 4 / 110)
               (1000 / ofNat 4 / 110 * 110) 2 (Some "5xSig")
               (ProfitNumber ((110 - 105) * (1000 / ofNat 4 / 110))) in
  dbTrades (executeSellTrade venueOk solUsdc 2 w) = dbTrades w ++ [row]
  /\ exists referencePrice,
       levels solUsdc !! 1%nat = Some referencePrice
       /\ profit row = ProfitNumber ((110 - referencePrice) * inputAmount row).
Proof.
  intros w row.
  assert (Hrow : dbTrades (executeSellTrade venueOk solUsdc 2 w) = dbTrades w ++ [row])
    by reflexivity.
  split; [exact Hrow|].
  destruct (proj1 (recorded_profit venueOk solUsdc 2 w row) Hrow)
    as (sellPrice & _ & _ & Hsell & Hprofit & _).
  injection Hsell as <-.
  exact (Hprofit ltac:(lia)).
Defined.

(** C6 at a BUY.  The request handed to the venue sells the source token,
    as the request of a SELL at the same level does, and the row records
    the source-token amount [250 / 110] as its input amount where the amount
    per level is 250. *)
Theorem executeBuyTrade_hands_over_the_source_token :
  let w := tracking solUsdc (Some 3%nat) 116 in
  let bought := executeBuyTrade venueOk solUsdc 2 w in
  let sold := executeSellTrade venueOk solUsdc 2 w in
  quantityInvested solUsdc / ofNat (gridCount solUsdc) == 250
  /\ swaps bought
     = [mkSwap (sourceTokenId solUsdc) (targetTokenId solUsdc) 250000000 100]
  /\ map inputMint (swaps bought) = map inputMint (swaps sold)
  /\ map outputMint (swaps bought) = map outputMint (swaps sold)
  /\ exists row,
       dbTrades bought = [row]
       /\ side row = BUY
       /\ inputTokenId row = targetTokenId solUsdc
       /\ outputTokenId row = sourceTokenId solUsdc
       /\ inputAmount row == 250 / 110
       /\ ~ inputAmount row == 250
       /\ outputAmount row == 250.
Proof.
  intros w bought sold.
  split; [reflexivity|]. split; [reflexivity|].
  split; [reflexivity|]. split; [reflexivity|].
  eexists. split; [reflexivity|]. cbn [side inputTokenId outputTokenId inputAmount outputAmount].
  split; [reflexivity|]. split; [reflexivity|]. split; [reflexivity|].
  split; [reflexivity|]. split; [|reflexivity].
  intros H. vm_compute in H. discriminate H.
Qed.

(** ** Editing the limits of a grid *)

Lemma roundMicro_mono x y : x <= y -> roundMicro x <= roundMicro y.
Proof.
  intros H. unfold roundMicro.
  assert (Hfloor : (Qfloor (x * 1000000 + (1 # 2)) <= Qfloor (y * 1000000 + (1 # 2)))%Z).
  { apply Qfloor_resp_le. lra. }
  unfold Qle. cbn [Qnum Qden]. lia.
Qed.

Lemma roundMicro_nonneg x : 0 <= x -> 0 <= roundMicro x.
Proof.
  intros H. apply Qle_trans with (roundMicro 0); [|apply roundMicro_mono, H].
  apply Qleb_iff. reflexivity.
Qed.

(** Rounding to six decimals keeps the order. *)
Lemma toFixed6_mono x y : x <= y -> toFixed6 x <= toFixed6 y.
Proof.
  intros H. unfold toFixed6.
  destruct (Qltb x 0) eqn:Hx; destruct (Qltb y 0) eqn:Hy.
  - apply Qopp_le_compat, roundMicro_mono. lra.
  - apply Qltb_iff in Hx. apply Qltb_false in Hy.
    apply Qle_trans with 0; [|apply roundMicro_nonneg, Hy].
    assert (Hpos : 0 <= roundMicro (- x)) by (apply roundMicro_nonneg; lra).
    lra.
  - apply Qltb_false in Hx. apply Qltb_iff in Hy. lra.
  - apply roundMicro_mono, H.
Qed.

Lemma ofNat_le i j : (i <= j)%nat -> ofNat i <= ofNat j.
Proof. intros H. unfold ofNat. rewrite <- Zle_Qle. lia. Qed.

Lemma lookup_map_seq {A : Type} (f : nat -> A) k n i :
  (i < n)%nat -> map f (seq k n) !! i = Some (f (k + i)%nat).
Proof.
  revert k i. induction n as [|n IH]; intros k i Hi; [lia|].
  destruct i as [|i]; cbn [seq map].
  - rewrite Nat.add_0_r. reflexivity.
  - cbn. rewrite IH by lia. f_equal. f_equal. lia.
Qed.

Lemma roundedLevels_length upper lower n : length (roundedLevels upper lower n) = S n.
Proof. unfold roundedLevels. rewrite length_map, length_seq. reflexivity. Qed.

Lemma roundedLevels_lookup upper lower n i :
  (i <= n)%nat ->
  roundedLevels upper lower n !! i
  = Some (double (toFixed6
            (fadd lower (fmul (fdiv (fsub upper lower) (ofNat n)) (ofNat i))))).
Proof.
  intros Hi. unfold roundedLevels. rewrite lookup_map_seq by lia. reflexivity.
Qed.

(** The step of a range is not negative, however it is rounded. *)
Lemma step_nonneg upper lower n :
  lower <= upper -> 0 <= fdiv (fsub upper lower) (ofNat n).
Proof.
  intros Hrange. unfold fdiv, fsub. apply double_nonneg.
  unfold Qdiv. apply Qmult_le_0_compat.
  - apply double_nonneg. lra.
  - apply Qinv_le_0_compat. apply (ofNat_le 0 n). lia.
Qed.

(** The boundaries computed for a range come in order, however they are
    rounded. *)
Lemma boundary_mono upper lower n i j :
  lower <= upper -> (i <= j)%nat ->
  fadd lower (fmul (fdiv (fsub upper lower) (ofNat n)) (ofNat i))
  <= fadd lower (fmul (fdiv (fsub upper lower) (ofNat n)) (ofNat j)).
Proof.
  intros Hrange Hij.
  pose proof (step_nonneg upper lower n Hrange) as Hstep.
  set (step := fdiv (fsub upper lower) (ofNat n)) in *.
  unfold fadd, fmul. apply double_mono.
  assert (Hmul : double (step * ofNat i) <= double (step * ofNat j)).
  { apply double_mono. pose proof (ofNat_le i j Hij) as Hnat. nra. }
  lra.
Qed.

(** The rounded table of a range does not decrease. *)
Lemma roundedLevels_nondecreasing upper lower n :
  lower < upper -> nondecreasing (roundedLevels upper lower n).
Proof.
  intros Hrange i a b Ha Hb.
  assert (Hi : (S i <= n)%nat).
  { apply lookup_lt_Some in Hb. rewrite roundedLevels_length in Hb. lia. }
  rewrite roundedLevels_lookup in Ha by lia. rewrite roundedLevels_lookup in Hb by lia.
  injection Ha as <-. injection Hb as <-.
  apply double_mono, toFixed6_mono, boundary_mono; [apply Qlt_le_weak, Hrange | lia].
Qed.

(** The scan by index of the rounded table is the scan of its entries. *)
Lemma reprojectFrom_roundedLevels upper lower n price :
  reprojectFrom (roundedLevels upper lower n) price 0 n
  = scanLevels price (entries (roundedLevels upper lower n)).
Proof.
  pose proof (reprojectFrom_scan price [] (roundedLevels upper lower n)) as H.
  rewrite roundedLevels_length in H. cbn [app length] in H.
  replace (S n - 1)%nat with n in H by lia. exact H.
Qed.

Section Edit.

Variables upper lower price : Q.
Variable n : nat.
Hypothesis Hrange : lower < upper.

(** A reprojected level is a level of the new table, and the one the
    locator gives on the updated grid. *)
Lemma reproject_is_located existing index i :
  reproject (Some price) upper lower n (roundedLevels upper lower n) = Some i ->
  (i <= n)%nat
  /\ findGridLevelIndex
       (setLimits upper lower (roundedLevels upper lower n) index n existing) price
     = i.
Proof.
  unfold reproject. intros Hindex.
  destruct (truthy price); [|discriminate].
  unfold findGridLevelIndex. cbn [upperLimit lowerLimit gridCount levels setLimits].
  destruct (Qleb price lower) eqn:Hlow.
  - injection Hindex as <-. split; [lia|].
    assert (Hup : Qleb upper price = false).
    { apply Qleb_false. apply Qleb_iff in Hlow. lra. }
    rewrite Hup. reflexivity.
  - destruct (Qleb upper price) eqn:Hup.
    + injection Hindex as <-. split; [lia | reflexivity].
    + rewrite reprojectFrom_roundedLevels in Hindex.
      unfold entries at 1.
      rewrite (sortByPrice_entriesFrom 0 _ (roundedLevels_nondecreasing upper lower n Hrange)).
      fold (entries (roundedLevels upper lower n)). rewrite Hindex. split; [|reflexivity].
      destruct (scanLevels_Some price 0 _ i Hindex) as (a & b & _ & _ & Hb & _).
      apply lookup_lt_Some in Hb. rewrite roundedLevels_length in Hb. lia.
Qed.

(** A price from the lowest boundary of the rounded table up to, not
    including, its highest one is reprojected. *)
Lemma reproject_defined lo hi :
  truthy price = true ->
  roundedLevels upper lower n !! 0%nat = Some lo ->
  roundedLevels upper lower n !! n = Some hi ->
  lo <= price -> price < hi ->
  is_Some (reproject (Some price) upper lower n (roundedLevels upper lower n)).
Proof.
  intros Htruthy Hlo Hhi Hle Hlt. unfold reproject. rewrite Htruthy.
  destruct (Qleb price lower); [eexists; reflexivity|].
  destruct (Qleb upper price); [eexists; reflexivity|].
  rewrite reprojectFrom_roundedLevels.
  exact (scanLevels_bracket price 0 _ n lo hi (roundedLevels_length upper lower n)
           Hlo Hhi Hle Hlt).
Qed.

End Edit.

(** A bot started on a grid whose stored level, when it is not 0, is the
    level of the stored price: its first tick at that price trades nothing. *)
Lemma processGrid_after_initialize
    (quoteAndSwap : list SwapRequest -> SwapRequest -> SwapResult)
    (grid : IGrid) (tokenPrices : gmap string Q) (w : World) (price : Q) :
  tokenPrices !! targetTokenId grid = Some price ->
  (forall i, currentGridIndex grid = Some i -> i <> 0%nat ->
             findGridLevelIndex grid price = i) ->
  let w' := processGrid quoteAndSwap grid tokenPrices (initialize [grid] w) in
  crossings (console w') = crossings (console w)
  /\ swaps w' = swaps w
  /\ dbTrades w' = dbTrades w.
Proof.
  intros Hprice Hlevel. cbn [initialize fold_left].
  set (w1 := setGridStateMap (<[_id grid := initialState grid]> (gridStateMap w)) w).
  assert (Hstate : gridStateMap w1 !! _id grid = Some (initialState grid))
    by (unfold w1; simpl_world; apply lookup_insert_eq).
  destruct (GridState.currentGridIndex (initialState grid)) as [i|] eqn:Hheld.
  - assert (Hstored : currentGridIndex grid = Some i /\ i <> 0%nat).
    { unfold initialState in Hheld. cbn [GridState.currentGridIndex] in Hheld.
      destruct (currentGridIndex grid) as [j|]; [|discriminate].
      destruct (j =? 0)%nat eqn:Hj; [discriminate|].
      injection Hheld as <-. apply Nat.eqb_neq in Hj. split; [reflexivity | exact Hj]. }
    destruct Hstored as [Hstored Hpos].
    rewrite (processGrid_still quoteAndSwap grid tokenPrices w1 (initialState grid)
               price Hprice Hstate i Hheld (Hlevel i Hstored Hpos)).
    repeat split.
  - rewrite (processGrid_first quoteAndSwap grid tokenPrices w1 (initialState grid)
               price Hprice Hstate Hheld).
    match goal with
    | |- context [updateGridCurrentPrice ?id ?p ?x] =>
        destruct (updateGridCurrentPrice_elsewhere id p x) as (_ & -> & -> & ->)
    end.
    unfold w1. simpl_world. rewrite crossings_app. cbn. rewrite app_nil_r.
    repeat split.
Qed.

(** C8, as the code has it.  An edit of the limits (and optionally of the
    level count) with [newUpperLimit > newLowerLimit], both clear of
    overflow, a level count of at least 2 and a last known price writes, in
    one update of the document, the new limits, the table of the boundaries
    [lower + step * i] for [i = 0 .. count], with
    [step = (upper - lower) / count], computed in doubles and each rounded
    to six decimals, a table that does not decrease, and the reprojected
    level: 0 for a price at or below the new
    lower limit, the level count for a price at or above the new upper
    limit; a level that is written is at most the level count and is the one
    the locator gives the price on the updated grid, and one is written
    whenever the price lies from the lowest boundary of the table up to, not
    including, its highest one.  A bot started from the updated document
    sets out to execute no crossing on its first tick at the unchanged
    price. *)
Theorem updateGridPriceLimits_reprojects
    (id : string) (upper lower : Q) (count : option nat) (w : World)
    (existing : IGrid) (price : Q) :
  lower < upper ->
  finiteRange upper lower ->
  dbGrids w !! id = Some existing ->
  (2 <= default (gridCount existing) count)%nat ->
  currentPrice existing = Some price ->
  ~ price == 0 ->
  let n := default (gridCount existing) count in
  exists updated w',
    updateGridPriceLimits id upper lower count w = (Some updated, w')
    /\ dbGrids w' !! id = Some updated
    /\ upperLimit updated = upper
    /\ lowerLimit updated = lower
    /\ gridCount updated = n
    /\ length (levels updated) = S n
    /\ (forall i, (i <= n)%nat ->
          levels updated !! i
          = Some (double (toFixed6
                    (fadd lower (fmul (fdiv (fsub upper lower) (ofNat n)) (ofNat i))))))
    /\ nondecreasing (levels updated)
    /\ (price <= lower -> currentGridIndex updated = Some 0%nat)
    /\ (upper <= price -> currentGridIndex updated = Some n)
    /\ (forall i, currentGridIndex updated = Some i ->
          (i <= n)%nat /\ findGridLevelIndex updated price = i)
    /\ (forall lo hi,
          levels updated !! 0%nat = Some lo -> levels updated !! n = Some hi ->
          lo <= price -> price < hi ->
          is_Some (currentGridIndex updated))
    /\ (forall (quoteAndSwap : list SwapRequest -> SwapRequest -> SwapResult)
               (tokenPrices : gmap string Q),
          tokenPrices !! targetTokenId updated = Some price ->
          let w'' := processGrid quoteAndSwap updated tokenPrices
                       (initialize [updated] w') in
          crossings (console w'') = crossings (console w')
          /\ swaps w'' = swaps w'
          /\ dbTrades w'' = dbTrades w').
Proof.
  intros Hrange _ Hexisting Hcount Hprice Hnonzero n.
  assert (Htruthy : truthy price = true) by (apply truthy_iff; exact Hnonzero).
  set (table := roundedLevels upper lower n).
  set (index := reproject (Some price) upper lower n table).
  set (updated := setLimits upper lower table index n existing).
  exists updated, (setDbGrids (<[id := updated]> (dbGrids w)) w).
  assert (Hlocated : forall i, currentGridIndex updated = Some i ->
                               (i <= n)%nat /\ findGridLevelIndex updated price = i).
  { intros i Hi.
    exact (reproject_is_located upper lower price n Hrange existing index i Hi). }
  split.
  { unfold updateGridPriceLimits.
    assert (Hup : Qleb upper lower = false) by (apply Qleb_false; exact Hrange).
    rewrite Hup, Hexisting.
    change (match count with Some c => c | None => gridCount existing end) with n.
    assert (Hn : (n <? 2)%nat = false) by (apply Nat.ltb_ge; exact Hcount).
    rewrite Hn, Hprice. reflexivity. }
  split; [simpl_world; apply lookup_insert_eq|].
  split; [reflexivity|]. split; [reflexivity|]. split; [reflexivity|].
  split; [apply roundedLevels_length|].
  split; [intros i Hi; apply roundedLevels_lookup; exact Hi|].
  split; [exact (roundedLevels_nondecreasing upper lower n Hrange)|].
  split.
  { intros Hlow. cbn [currentGridIndex updated setLimits]. unfold index, reproject.
    apply Qleb_iff in Hlow. rewrite Htruthy, Hlow. reflexivity. }
  split.
  { intros Hhigh. cbn [currentGridIndex updated setLimits]. unfold index, reproject.
    assert (Hlow : Qleb price lower = false) by (apply Qleb_false; lra).
    apply Qleb_iff in Hhigh. rewrite Htruthy, Hlow, Hhigh. reflexivity. }
  split; [exact Hlocated|].
  split.
  { intros lo hi Hlo Hhi Hle Hlt.
    exact (reproject_defined upper lower price n lo hi Htruthy Hlo Hhi Hle Hlt). }
  intros quoteAndSwap tokenPrices Hfeed.
  apply (processGrid_after_initialize quoteAndSwap updated tokenPrices _ price Hfeed).
  intros i Hi _. exact (proj2 (Hlocated i Hi)).
Qed.

Lemma updateGridPriceLimits_reprojects_witness :
  let w := tracking solUsdc (Some 1%nat) 106 in
  90 < 130
  /\ finiteRange 130 90
  /\ (2 <= default (gridCount (setCurrent (Some 106%Q) (Some 1%nat) solUsdc)) None)%nat
  /\ ~ 106 == 0
  /\ exists updated w',
       updateGridPriceLimits (_id solUsdc) 130 90 None w = (Some updated, w')
       /\ dbGrids w' !! _id solUsdc = Some updated
       /\ forall i, currentGridIndex updated = Some i ->
                    (i <= 4)%nat /\ findGridLevelIndex updated 106 = i.
Proof.
  intros w.
  assert (H1 : 90 < 130) by (apply Qltb_iff; reflexivity).
  assert (H2 : (2 <= default (gridCount (setCurrent (Some 106%Q) (Some 1%nat) solUsdc)) None)%nat)
    by (cbn; lia).
  assert (H3 : ~ 106 == 0) by (apply truthy_iff; reflexivity).
  assert (H4 : finiteRange 130 90) by (split; apply Qleb_iff; vm_compute; reflexivity).
  split; [exact H1|]. split; [exact H4|]. split; [exact H2|]. split; [exact H3|].
  destruct (updateGridPriceLimits_reprojects (_id solUsdc) 130 90 None w
              (setCurrent (Some 106) (Some 1%nat) solUsdc) 106
              H1 H4 eq_refl H2 eq_refl H3)
    as (updated & w' & Hrun & Hdb & _ & _ & _ & _ & _ & _ & _ & _ & Hlocated & _).
  exists updated, w'. split; [exact Hrun|]. split; [exact Hdb | exact Hlocated].
Defined.

(** C8 as stated fails on a token priced in millionths: the new range
    0.0000126 .. 0.00005 in four steps gets the table 0.000013, 0.000022,
    0.000031, 0.000041, 0.00005, whose steps differ; the last known price
    0.0000128 lies in the range and below the lowest boundary of the table,
    so the edit writes no level ([null]), where the locator puts that price
    on level 2 of the new table. *)
Lemma rounded_table_loses_the_level :
  exists updated w',
    updateGridPriceLimits (_id microGrid)
      (double (5 # 100000)) (double (126 # 10000000)) None
      (collection microGrid) = (Some updated, w')
    /\ currentPrice microGrid = Some (double (128 # 10000000))
    /\ levels updated
       = map double
           [13 # 1000000; 22 # 1000000; 31 # 1000000; 41 # 1000000; 50 # 1000000]
    /\ ~ double (22 # 1000000) - double (13 # 1000000)
         == double (41 # 1000000) - double (31 # 1000000)
    /\ lowerLimit updated < double (128 # 10000000)
    /\ double (128 # 10000000) < upperLimit updated
    /\ currentGridIndex updated = None
    /\ findGridLevelIndex updated (double (128 # 10000000)) = 2%nat
    /\ currentGridIndex updated
       <> Some (findGridLevelIndex updated (double (128 # 10000000))).
Proof.
  remember (updateGridPriceLimits (_id microGrid)
              (double (5 # 100000)) (double (126 # 10000000)) None
              (collection microGrid)) as edit eqn:Hedit.
  assert (Hupdated : fst edit
                     = Some (setLimits (double (5 # 100000)) (double (126 # 10000000))
                               (map double
                                  [13 # 1000000; 22 # 1000000; 31 # 1000000;
                                   41 # 1000000; 50 # 1000000])
                               None 4 microGrid))
    by (rewrite Hedit; vm_compute; reflexivity).
  clear Hedit. destruct edit as [result w']. cbn [fst] in Hupdated. subst result.
  eexists. exists w'. split; [reflexivity|].
  cbn [levels currentGridIndex upperLimit lowerLimit setLimits].
  split; [reflexivity|]. split; [reflexivity|].
  split; [intros H; vm_compute in H; discriminate H|].
  split; [apply Qltb_iff; vm_compute; reflexivity|].
  split; [apply Qltb_iff; vm_compute; reflexivity|].
  split; [reflexivity|]. split; [vm_compute; reflexivity|].
  intros H. discriminate H.
Qed.

(** * Further results *)

(** ** The locator on any table *)

Lemma In_insertByPrice x y l : In y (insertByPrice x l) -> y = x \/ In y l.
Proof.
  induction l as [|z l IH]; cbn [insertByPrice].
  - intros [<- | []]. left. reflexivity.
  - destruct (Qleb (snd x) (snd z)).
    + intros [<- | H]; [left; reflexivity | right; exact H].
    + intros [<- | H]; [right; left; reflexivity|].
      destruct (IH H) as [-> | H']; [left; reflexivity | right; right; exact H'].
Qed.

Lemma In_sortByPrice y l : In y (sortByPrice l) -> In y l.
Proof.
  induction l as [|x l IH]; cbn [sortByPrice]; [intros []|].
  intros H. destruct (In_insertByPrice x y _ H) as [-> | H'].
  - left. reflexivity.
  - right. exact (IH H').
Qed.

Lemma scanLevels_In price l i :
  scanLevels price l = Some i -> exists q, In (i, q) l.
Proof.
  induction l as [|a l IH]; [discriminate|].
  destruct l as [|b l']; [discriminate|].
  cbn [scanLevels].
  destruct (Qleb (snd a) price && Qltb price (snd b)).
  - intros H. injection H as <-. exists (snd a). left. destruct a; reflexivity.
  - intros H. destruct (IH H) as [q Hq]. exists q. right. exact Hq.
Qed.

Lemma In_entriesFrom i q k ls :
  In (i, q) (entriesFrom k ls) -> (k <= i < k + length ls)%nat.
Proof.
  revert k. induction ls as [|a ls IH]; intros k; cbn [entriesFrom length]; [intros []|].
  intros [H | H].
  - injection H as <- _. lia.
  - specialize (IH (S k) H). lia.
Qed.

(** The level the projection finds is a key of the table, not the last. *)
Lemma projectLevel_bound ls price i :
  projectLevel ls price = Some i -> (i < length ls)%nat.
Proof.
  unfold projectLevel. intros H.
  destruct (scanLevels_In _ _ _ H) as [q Hq].
  apply In_sortByPrice in Hq. apply In_entriesFrom in Hq. lia.
Qed.

Lemma locator_in_range grid price :
  length (levels grid) = S (gridCount grid) ->
  (findGridLevelIndex grid price <= gridCount grid)%nat.
Proof.
  intros Hlen. unfold findGridLevelIndex.
  destruct (Qleb (upperLimit grid) price); [lia|].
  destruct (Qleb price (lowerLimit grid)); [lia|].
  destruct (scanLevels price (sortByPrice (entries (levels grid)))) as [i|] eqn:Hscan.
  - pose proof (projectLevel_bound (levels grid) price i Hscan). lia.
  - apply Nat.Div0.div_le_upper_bound. lia.
Qed.

(** X1. Whatever the prices of a table over the keys [0 .. gridCount] are,
    sorted or not, the locator returns a level from 0 to [gridCount]. *)
Theorem findGridLevelIndex_in_range (grid : IGrid) (price : Q) :
  length (levels grid) = S (gridCount grid) ->
  (findGridLevelIndex grid price <= gridCount grid)%nat.
Proof. exact (locator_in_range grid price). Qed.

Lemma findGridLevelIndex_in_range_witness :
  length (levels shuffled) = 5%nat
  /\ (findGridLevelIndex shuffled 107 <= 4)%nat.
Proof.
  split; [reflexivity|].
  exact (findGridLevelIndex_in_range shuffled 107 eq_refl).
Defined.

Lemma locator_monotone g lo hi p q :
  wellFormed g ->
  levels g !! 0%nat = Some lo ->
  levels g !! gridCount g = Some hi ->
  p <= q ->
  (findGridLevelIndex g p <= findGridLevelIndex g q)%nat.
Proof.
  intros Hwf Hlo Hhi Hpq.
  destruct (Qlt_le_dec q hi) as [Hq | Hq].
  - destruct (Qlt_le_dec lo p) as [Hp | Hp].
    + assert (Hp' : p < hi) by (apply Qle_lt_trans with q; assumption).
      assert (Hq' : lo < q) by (apply Qlt_le_trans with p; assumption).
      pose proof (findGridLevelIndex_inside g lo hi Hwf Hlo Hhi p Hp Hp') as Hfp.
      pose proof (findGridLevelIndex_inside g lo hi Hwf Hlo Hhi q Hq' Hq) as Hfq.
      destruct (projectLevel_inside g lo hi Hwf Hlo Hhi p (Qlt_le_weak _ _ Hp) Hp')
        as (i & a & b & Hi & Ha & Hb & H1 & H2).
      destruct (projectLevel_inside g lo hi Hwf Hlo Hhi q (Qlt_le_weak _ _ Hq') Hq)
        as (j & a' & b' & Hj & Ha' & Hb' & H3 & H4).
      rewrite Hi in Hfp. rewrite Hj in Hfq.
      injection Hfp as <-. injection Hfq as <-.
      destruct (Nat.le_gt_cases i j) as [Hij | Hji]; [exact Hij|]. exfalso.
      assert (Hle : b' <= a).
      { apply (nondecreasing_le _ (strictlyIncreasing_nondecreasing _ (wf_increasing g Hwf))
                 (i - S j) (S j) b' a Hb').
        replace (S j + (i - S j))%nat with i by lia. exact Ha. }
      apply (Qlt_irrefl q). apply Qlt_le_trans with b'; [exact H4|].
      apply Qle_trans with a; [exact Hle|]. apply Qle_trans with p; assumption.
    + rewrite (findGridLevelIndex_bottom g lo hi Hwf Hlo Hhi p Hp). lia.
  - rewrite (findGridLevelIndex_top g hi Hwf Hhi q Hq).
    apply locator_in_range. exact (wf_length g Hwf).
Qed.

(** X2. On a well-formed grid the locator is monotone: a price that is not
    lower is not on a lower level. *)
Theorem findGridLevelIndex_monotone (g : IGrid) (lo hi p q : Q) :
  wellFormed g ->
  levels g !! 0%nat = Some lo ->
  levels g !! gridCount g = Some hi ->
  p <= q ->
  (findGridLevelIndex g p <= findGridLevelIndex g q)%nat.
Proof. exact (locator_monotone g lo hi p q). Qed.

Lemma findGridLevelIndex_monotone_witness :
  wellFormed solUsdc /\ 104 <= 117
  /\ (findGridLevelIndex solUsdc 104 <= findGridLevelIndex solUsdc 117)%nat.
Proof.
  assert (H : 104 <= 117) by (apply Qleb_iff; reflexivity).
  split; [exact solUsdc_wellFormed|]. split; [exact H|].
  exact (findGridLevelIndex_monotone solUsdc 100 120 104 117
           solUsdc_wellFormed eq_refl eq_refl H).
Defined.


(** ** What a tick holds and what it leaves alone *)

Lemma sameElsewhere_refl id0 w : sameElsewhere id0 w w.
Proof. intros id _. split; reflexivity. Qed.

Lemma sameElsewhere_trans id0 w1 w2 w3 :
  sameElsewhere id0 w1 w2 -> sameElsewhere id0 w2 w3 -> sameElsewhere id0 w1 w3.
Proof.
  intros H12 H23 id Hid. destruct (H12 id Hid) as [A1 B1].
  destruct (H23 id Hid) as [A2 B2]. split; congruence.
Qed.

Lemma sameElsewhere_mutate id0 f w : sameElsewhere id0 w (mutate id0 f w).
Proof.
  intros id Hid. simpl_world. rewrite lookup_alter_ne by congruence.
  split; reflexivity.
Qed.

Lemma sameElsewhere_say id0 line w : sameElsewhere id0 w (say line w).
Proof. intros id _. split; reflexivity. Qed.

Lemma sameElsewhere_updateGridCurrentPrice id0 price w :
  sameElsewhere id0 w (updateGridCurrentPrice id0 price w).
Proof.
  intros id Hid. unfold updateGridCurrentPrice.
  destruct (dbGrids w !! id0); [|split; reflexivity].
  simpl_world. rewrite lookup_alter_ne by congruence. split; reflexivity.
Qed.

Section Elsewhere.

Variable quoteAndSwap : list SwapRequest -> SwapRequest -> SwapResult.

Lemma executeSellTrade_elsewhere grid levelIndex w :
  sameElsewhere (_id grid) w (executeSellTrade quoteAndSwap grid levelIndex w).
Proof.
  intros id Hid. unfold executeSellTrade.
  destruct (levels grid !! levelIndex) as [levelPrice|]; simpl_world;
    [|split; reflexivity].
  destruct (truthy levelPrice); simpl_world; [|split; reflexivity].
  destruct (gridStateMap w !! _id grid) as [gridState|]; simpl_world;
    [|split; reflexivity].
  match goal with
  | |- context [success ?r] => destruct (success r)
  end; simpl_world; [|split; reflexivity].
  rewrite !lookup_alter_ne by congruence. split; reflexivity.
Qed.

Lemma executeBuyTrade_elsewhere grid levelIndex w :
  sameElsewhere (_id grid) w (executeBuyTrade quoteAndSwap grid levelIndex w).
Proof.
  intros id Hid. unfold executeBuyTrade.
  destruct (levels grid !! levelIndex) as [levelPrice|]; simpl_world;
    [|split; reflexivity].
  destruct (truthy levelPrice); simpl_world; [|split; reflexivity].
  destruct (gridStateMap w !! _id grid) as [gridState|]; simpl_world;
    [|split; reflexivity].
  match goal with
  | |- context [success ?r] => destruct (success r)
  end; simpl_world; [|split; reflexivity].
  rewrite !lookup_alter_ne by congruence. split; reflexivity.
Qed.

Lemma sellLoop_elsewhere grid fuel i newGridIndex w :
  sameElsewhere (_id grid) w (sellLoop quoteAndSwap grid fuel i newGridIndex w).
Proof.
  revert i w. induction fuel as [|fuel IH]; intros i w; [apply sameElsewhere_refl|].
  cbn [sellLoop]. destruct (i <=? newGridIndex)%nat; [|apply sameElsewhere_refl].
  eapply sameElsewhere_trans; [apply executeSellTrade_elsewhere | apply IH].
Qed.

Lemma buyLoop_elsewhere grid i newGridIndex w :
  sameElsewhere (_id grid) w (buyLoop quoteAndSwap grid i newGridIndex w).
Proof.
  revert w. induction i as [|i IH]; intros w; [apply sameElsewhere_refl|].
  cbn [buyLoop]. destruct (newGridIndex <? S i)%nat; [|apply sameElsewhere_refl].
  eapply sameElsewhere_trans; [apply executeBuyTrade_elsewhere | apply IH].
Qed.

Lemma processGrid_elsewhere grid tokenPrices w :
  sameElsewhere (_id grid) w (processGrid quoteAndSwap grid tokenPrices w).
Proof.
  unfold processGrid.
  destruct (tokenPrices !! targetTokenId grid) as [price|]; [|apply sameElsewhere_say].
  destruct (gridStateMap w !! _id grid) as [gridState|]; [|apply sameElsewhere_say].
  assert (Hpriced : sameElsewhere (_id grid) w
                      (mutate (_id grid) (withPrice (Some price)) w))
    by apply sameElsewhere_mutate.
  destruct (GridState.currentGridIndex gridState) as [previous|].
  - destruct (findGridLevelIndex grid price =? previous)%nat; [exact Hpriced|].
    eapply sameElsewhere_trans; [|apply sameElsewhere_updateGridCurrentPrice].
    eapply sameElsewhere_trans; [|apply sameElsewhere_mutate].
    eapply sameElsewhere_trans; [exact Hpriced|].
    eapply sameElsewhere_trans; [apply sameElsewhere_say|].
    destruct (previous <? findGridLevelIndex grid price)%nat;
      [apply sellLoop_elsewhere|].
    destruct (findGridLevelIndex grid price <? previous)%nat;
      [apply buyLoop_elsewhere | apply sameElsewhere_refl].
  - eapply sameElsewhere_trans; [|apply sameElsewhere_updateGridCurrentPrice].
    eapply sameElsewhere_trans; [|apply sameElsewhere_mutate].
    eapply sameElsewhere_trans; [exact Hpriced | apply sameElsewhere_say].
Qed.

(** After a tick with a price at hand the bot holds the level of that
    price, and the price. *)
Lemma processGrid_holds grid tokenPrices w gridState price :
  tokenPrices !! targetTokenId grid = Some price ->
  gridStateMap w !! _id grid = Some gridState ->
  holdsLevelOf grid price (processGrid quoteAndSwap grid tokenPrices w).
Proof.
  intros Hprice Hstate. unfold holdsLevelOf.
  destruct (GridState.currentGridIndex gridState) as [previous|] eqn:Hprev.
  - destruct (Nat.eq_dec (findGridLevelIndex grid price) previous) as [Heq | Hne].
    + rewrite (processGrid_still quoteAndSwap grid tokenPrices w gridState price
                 Hprice Hstate previous Hprev Heq).
      simpl_world. rewrite lookup_alter_eq, Hstate.
      eexists. split; [reflexivity|]. cbn. rewrite Hprev, Heq. split; reflexivity.
    + destruct (processGrid_moved quoteAndSwap grid tokenPrices w gridState price
                  Hprice Hstate previous Hprev Hne) as (traded & -> & Hkeeps & _).
      destruct (updateGridCurrentPrice_elsewhere (_id grid) price
                  (mutate (_id grid)
                     (withIndex (Some (findGridLevelIndex grid price))) traded))
        as (-> & _).
      simpl_world. rewrite lookup_alter_eq.
      pose proof (keeps_price _ _ _ Hkeeps) as Hkept.
      unfold started in Hkept. simpl_world.
      rewrite lookup_alter_eq, Hstate in Hkept. cbn in Hkept.
      destruct (gridStateMap traded !! _id grid) as [held|]; [|discriminate].
      cbn in Hkept. injection Hkept as Hkept.
      eexists. split; [reflexivity|]. cbn. split; [reflexivity | exact Hkept].
  - rewrite (processGrid_first quoteAndSwap grid tokenPrices w gridState price
               Hprice Hstate Hprev).
    match goal with
    | |- context [updateGridCurrentPrice ?id ?p ?x] =>
        destruct (updateGridCurrentPrice_elsewhere id p x) as (-> & _)
    end.
    simpl_world. rewrite !lookup_alter_eq, Hstate.
    eexists. split; [reflexivity|]. cbn. split; reflexivity.
Qed.

End Elsewhere.

(** X3. After every tick of a grid that has a price at hand and an entry in
    the bot, the bot holds the level the locator gives that price, and that
    price as the last one checked, whatever level it held before and
    whatever the swaps did. *)
Theorem processGrid_holds_level_of_price
    (quoteAndSwap : list SwapRequest -> SwapRequest -> SwapResult)
    (grid : IGrid) (tokenPrices : gmap string Q) (w : World)
    (gridState : GridState.t) (price : Q) :
  tokenPrices !! targetTokenId grid = Some price ->
  gridStateMap w !! _id grid = Some gridState ->
  holdsLevelOf grid price (processGrid quoteAndSwap grid tokenPrices w).
Proof. exact (processGrid_holds quoteAndSwap grid tokenPrices w gridState price). Qed.

Lemma processGrid_holds_level_of_price_witness :
  holdsLevelOf solUsdc 118
    (processGrid (venueFailing 1) solUsdc (feed solUsdc 118)
       (tracking solUsdc (Some 1%nat) 106)).
Proof.
  exact (processGrid_holds_level_of_price (venueFailing 1) solUsdc (feed solUsdc 118)
           (tracking solUsdc (Some 1%nat) 106)
           (GridState.mk (Some 1%nat) (Some 106) 0 0) 118 eq_refl eq_refl).
Defined.

(** X4. A tick of one grid touches no other grid: the entry the bot holds
    for any other id and the document the collection holds for it are what
    they were. *)
Theorem processGrid_isolated
    (quoteAndSwap : list SwapRequest -> SwapRequest -> SwapResult)
    (grid : IGrid) (tokenPrices : gmap string Q) (w : World) (id : string) :
  id <> _id grid ->
  gridStateMap (processGrid quoteAndSwap grid tokenPrices w) !! id
  = gridStateMap w !! id
  /\ dbGrids (processGrid quoteAndSwap grid tokenPrices w) !! id = dbGrids w !! id.
Proof. exact (processGrid_elsewhere quoteAndSwap grid tokenPrices w id). Qed.

Lemma processGrid_isolated_witness :
  let w := initialize [solUsdc; solJup] (collection solJup) in
  _id solJup <> _id solUsdc
  /\ gridStateMap (processGrid venueOk solUsdc (feed solUsdc 118) w) !! _id solJup
     = gridStateMap w !! _id solJup
  /\ dbGrids (processGrid venueOk solUsdc (feed solUsdc 118) w) !! _id solJup
     = dbGrids w !! _id solJup.
Proof.
  intros w.
  assert (Hne : _id solJup <> _id solUsdc) by (intros H; discriminate H).
  split; [exact Hne|].
  exact (processGrid_isolated venueOk solUsdc (feed solUsdc 118) w (_id solJup) Hne).
Defined.

(** ** The direction of a tick *)

(** X5. On a well-formed grid whose bot holds the level of the price it
    checked last, a tick at a price that is not lower sets out to execute
    SELL crossings only (none when the level is the same), and a tick at a
    price that is not higher BUY crossings only. *)
Theorem processGrid_follows_direction
    (quoteAndSwap : list SwapRequest -> SwapRequest -> SwapResult)
    (grid : IGrid) (lo hi : Q) (tokenPrices : gmap string Q) (w : World)
    (last price : Q) :
  wellFormed grid ->
  levels grid !! 0%nat = Some lo ->
  levels grid !! gridCount grid = Some hi ->
  holdsLevelOf grid last w ->
  tokenPrices !! targetTokenId grid = Some price ->
  let previous := findGridLevelIndex grid last in
  let new := findGridLevelIndex grid price in
  let w' := processGrid quoteAndSwap grid tokenPrices w in
  (last <= price ->
   crossings (console w')
   = crossings (console w) ++ map (pair SELL) (seq (S previous) (new - previous)))
  /\ (price <= last ->
      crossings (console w')
      = crossings (console w) ++ map (pair BUY) (rev (seq (S new) (previous - new)))).
Proof.
  intros Hwf Hlo Hhi (s & Hstate & Hlevel & _) Hprice previous new w'.
  assert (Hcases : new = previous
                   /\ crossings (console w') = crossings (console w)
                   \/ new <> previous
                      /\ crossings (console w')
                         = crossings (console w)
                           ++ (if (previous <? new)%nat
                               then map (pair SELL) (seq (S previous) (new - previous))
                               else map (pair BUY) (rev (seq (S new) (previous - new))))).
  { destruct (Nat.eq_dec new previous) as [Heq | Hne].
    - left. split; [exact Heq|]. unfold w'.
      rewrite (processGrid_still quoteAndSwap grid tokenPrices w s price
                 Hprice Hstate previous Hlevel Heq). reflexivity.
    - right. split; [exact Hne|].
      destruct (processGrid_moved quoteAndSwap grid tokenPrices w s price
                  Hprice Hstate previous Hlevel Hne) as (traded & Hw' & _ & Htraded).
      unfold w'. rewrite Hw'.
      match goal with
      | |- context [updateGridCurrentPrice ?id ?p ?x] =>
          destruct (updateGridCurrentPrice_elsewhere id p x) as (_ & _ & _ & ->)
      end.
      simpl_world. exact Htraded. }
  split.
  - intros Hup.
    pose proof (locator_monotone grid lo hi last price Hwf Hlo Hhi Hup) as Hmono.
    fold previous new in Hmono.
    destruct Hcases as [[Heq ->] | [Hne ->]].
    + rewrite Heq, Nat.sub_diag. cbn. rewrite app_nil_r. reflexivity.
    + assert (Hlt : (previous <? new)%nat = true) by (apply Nat.ltb_lt; lia).
      rewrite Hlt. reflexivity.
  - intros Hdown.
    pose proof (locator_monotone grid lo hi price last Hwf Hlo Hhi Hdown) as Hmono.
    fold previous new in Hmono.
    destruct Hcases as [[Heq ->] | [Hne ->]].
    + rewrite Heq, Nat.sub_diag. cbn. rewrite app_nil_r. reflexivity.
    + assert (Hlt : (previous <? new)%nat = false) by (apply Nat.ltb_ge; lia).
      rewrite Hlt. reflexivity.
Qed.

Lemma processGrid_follows_direction_witness :
  let w := tracking solUsdc (Some 1%nat) 106 in
  wellFormed solUsdc /\ holdsLevelOf solUsdc 106 w /\ 106 <= 118
  /\ crossings (console (processGrid (venueFailing 2) solUsdc (feed solUsdc 118) w))
     = [(SELL, 2%nat); (SELL, 3%nat)].
Proof.
  intros w.
  assert (Hholds : holdsLevelOf solUsdc 106 w).
  { exists (GridState.mk (Some 1%nat) (Some 106) 0 0). repeat split. }
  assert (Hup : 106 <= 118) by (apply Qleb_iff; reflexivity).
  split; [exact solUsdc_wellFormed|]. split; [exact Hholds|]. split; [exact Hup|].
  exact (proj1 (processGrid_follows_direction (venueFailing 2) solUsdc 100 120
                  (feed solUsdc 118) w 106 118
                  solUsdc_wellFormed eq_refl eq_refl Hholds eq_refl) Hup).
Defined.

(** ** Crossings, venue calls and trade rows *)

Lemma allTruthy_lookup ls j p :
  allTruthy ls = true -> ls !! j = Some p -> truthy p = true.
Proof.
  revert j. induction ls as [|a ls IH]; intros j Hall Hj; [discriminate|].
  unfold allTruthy in Hall. cbn [forallb] in Hall. apply andb_prop in Hall.
  destruct Hall as [Ha Hrest]. destruct j as [|j].
  - cbn in Hj. injection Hj as <-. exact Ha.
  - exact (IH j Hrest Hj).
Qed.

Lemma complete_table_priced grid level :
  length (levels grid) = S (gridCount grid) ->
  allTruthy (levels grid) = true ->
  (level <= gridCount grid)%nat -> pricedLevel grid level.
Proof.
  intros Hlen Hall Hlevel.
  destruct (lookup_lt_is_Some_2 (levels grid) level ltac:(lia)) as [p Hp].
  exists p. split; [exact Hp | exact (allTruthy_lookup _ _ _ Hall Hp)].
Qed.

Lemma keeps_state id w w' :
  keeps id w w' -> is_Some (gridStateMap w !! id) -> is_Some (gridStateMap w' !! id).
Proof.
  intros Hkeeps [s Hs]. pose proof (keeps_level _ _ _ Hkeeps) as H.
  unfold heldLevel in H. rewrite Hs in H.
  destruct (gridStateMap w' !! id) as [s'|]; [eexists; reflexivity | discriminate].
Qed.

Section Complete.

Variable quoteAndSwap : list SwapRequest -> SwapRequest -> SwapResult.

Lemma executeSellTrade_priced grid levelIndex w :
  pricedLevel grid levelIndex ->
  is_Some (gridStateMap w !! _id grid) ->
  length (swaps (executeSellTrade quoteAndSwap grid levelIndex w)) = S (length (swaps w))
  /\ (alwaysLands quoteAndSwap ->
      map tradeKey (dbTrades (executeSellTrade quoteAndSwap grid levelIndex w))
      = map tradeKey (dbTrades w) ++ [(SELL, levelIndex)]).
Proof.
  intros (p & Hp & Htruthy) [s Hs]. unfold executeSellTrade.
  rewrite Hp, Htruthy. simpl_world. rewrite Hs. simpl_world.
  match goal with
  | |- context [success ?r] => destruct (success r) eqn:Hsuccess
  end; simpl_world.
  - split; [rewrite length_app; cbn; lia|]. intros _.
    rewrite map_app. reflexivity.
  - split; [rewrite length_app; cbn; lia|]. intros Hall.
    rewrite Hall in Hsuccess. discriminate.
Qed.

Lemma executeBuyTrade_priced grid levelIndex w :
  pricedLevel grid levelIndex ->
  is_Some (gridStateMap w !! _id grid) ->
  length (swaps (executeBuyTrade quoteAndSwap grid levelIndex w)) = S (length (swaps w))
  /\ (alwaysLands quoteAndSwap ->
      map tradeKey (dbTrades (executeBuyTrade quoteAndSwap grid levelIndex w))
      = map tradeKey (dbTrades w) ++ [(BUY, levelIndex)]).
Proof.
  intros (p & Hp & Htruthy) [s Hs]. unfold executeBuyTrade.
  rewrite Hp, Htruthy. simpl_world. rewrite Hs. simpl_world.
  match goal with
  | |- context [success ?r] => destruct (success r) eqn:Hsuccess
  end; simpl_world.
  - split; [rewrite length_app; cbn; lia|]. intros _.
    rewrite map_app. reflexivity.
  - split; [rewrite length_app; cbn; lia|]. intros Hall.
    rewrite Hall in Hsuccess. discriminate.
Qed.

Lemma sellLoop_priced grid fuel i newGridIndex w :
  (forall j, (i <= j <= newGridIndex)%nat -> pricedLevel grid j) ->
  is_Some (gridStateMap w !! _id grid) ->
  length (swaps (sellLoop quoteAndSwap grid fuel i newGridIndex w))
  = (length (swaps w) + Nat.min fuel (S newGridIndex - i))%nat
  /\ (alwaysLands quoteAndSwap ->
      map tradeKey (dbTrades (sellLoop quoteAndSwap grid fuel i newGridIndex w))
      = map tradeKey (dbTrades w)
        ++ map (pair SELL) (seq i (Nat.min fuel (S newGridIndex - i)))).
Proof.
  revert i w. induction fuel as [|fuel IH]; intros i w Hpriced Hstate.
  - cbn. rewrite app_nil_r. split; [lia | reflexivity].
  - cbn [sellLoop]. destruct (i <=? newGridIndex)%nat eqn:Hi.
    + apply Nat.leb_le in Hi.
      destruct (executeSellTrade_priced grid i w (Hpriced i ltac:(lia)) Hstate)
        as [Hcalls Hrows].
      destruct (IH (S i) (executeSellTrade quoteAndSwap grid i w)
                  ltac:(intros j Hj; apply Hpriced; lia)
                  (keeps_state _ _ _ (executeSellTrade_keeps quoteAndSwap _ grid i w) Hstate))
        as [Hcalls' Hrows'].
      replace (S newGridIndex - i)%nat with (S (S newGridIndex - S i)) by lia.
      rewrite <- Nat.succ_min_distr. split.
      * rewrite Hcalls', Hcalls. lia.
      * intros Hall. rewrite (Hrows' Hall), (Hrows Hall). cbn [seq map].
        rewrite <- app_assoc. reflexivity.
    + apply Nat.leb_gt in Hi.
      replace (S newGridIndex - i)%nat with 0%nat by lia.
      rewrite Nat.min_0_r. cbn. rewrite app_nil_r. split; [lia | reflexivity].
Qed.

Lemma buyLoop_priced grid i newGridIndex w :
  (forall j, (newGridIndex < j <= i)%nat -> pricedLevel grid j) ->
  is_Some (gridStateMap w !! _id grid) ->
  length (swaps (buyLoop quoteAndSwap grid i newGridIndex w))
  = (length (swaps w) + (i - newGridIndex))%nat
  /\ (alwaysLands quoteAndSwap ->
      map tradeKey (dbTrades (buyLoop quoteAndSwap grid i newGridIndex w))
      = map tradeKey (dbTrades w)
        ++ map (pair BUY) (rev (seq (S newGridIndex) (i - newGridIndex)))).
Proof.
  revert w. induction i as [|i IH]; intros w Hpriced Hstate.
  - cbn. rewrite app_nil_r. split; [lia | reflexivity].
  - cbn [buyLoop]. destruct (newGridIndex <? S i)%nat eqn:Hi.
    + apply Nat.ltb_lt in Hi.
      destruct (executeBuyTrade_priced grid (S i) w (Hpriced (S i) ltac:(lia)) Hstate)
        as [Hcalls Hrows].
      destruct (IH (executeBuyTrade quoteAndSwap grid (S i) w)
                  ltac:(intros j Hj; apply Hpriced; lia)
                  (keeps_state _ _ _ (executeBuyTrade_keeps quoteAndSwap _ grid (S i) w) Hstate))
        as [Hcalls' Hrows'].
      replace (S i - newGridIndex)%nat with (S (i - newGridIndex)) by lia.
      split.
      * rewrite Hcalls', Hcalls. lia.
      * intros Hall. rewrite (Hrows' Hall), (Hrows Hall).
        rewrite seq_S, rev_app_distr. cbn [rev app map].
        replace (S newGridIndex + (i - newGridIndex))%nat with (S i) by lia.
        rewrite <- app_assoc. reflexivity.
    + apply Nat.ltb_ge in Hi.
      replace (S i - newGridIndex)%nat with 0%nat by lia.
      cbn. rewrite app_nil_r. split; [lia | reflexivity].
Qed.

(** A tick on a table that has a price for every level. *)
Lemma processGrid_complete grid tokenPrices w gridState price previous :
  length (levels grid) = S (gridCount grid) ->
  allTruthy (levels grid) = true ->
  tokenPrices !! targetTokenId grid = Some price ->
  gridStateMap w !! _id grid = Some gridState ->
  GridState.currentGridIndex gridState = Some previous ->
  (previous <= gridCount grid)%nat ->
  let new := findGridLevelIndex grid price in
  let w' := processGrid quoteAndSwap grid tokenPrices w in
  length (swaps w') = (length (swaps w) + length (crossingsBetween previous new))%nat
  /\ (alwaysLands quoteAndSwap ->
      map tradeKey (dbTrades w') = map tradeKey (dbTrades w) ++ crossingsBetween previous new).
Proof.
  intros Hlen Hall Hprice Hstate Hprev Hbound new w'.
  pose proof (locator_in_range grid price Hlen) as Hnew. fold new in Hnew.
  assert (Hpriced : forall j, (j <= gridCount grid)%nat -> pricedLevel grid j)
    by (intros j Hj; exact (complete_table_priced grid j Hlen Hall Hj)).
  unfold w', processGrid. rewrite Hprice, Hstate, Hprev. fold new.
  destruct (new =? previous)%nat eqn:Heq.
  - apply Nat.eqb_eq in Heq. rewrite Heq. unfold crossingsBetween.
    rewrite Nat.ltb_irrefl, Nat.sub_diag. cbn. rewrite app_nil_r.
    split; [lia | reflexivity].
  - apply Nat.eqb_neq in Heq.
    match goal with
    | |- context [updateGridCurrentPrice ?id ?p ?x] =>
        destruct (updateGridCurrentPrice_elsewhere id p x) as (_ & -> & -> & _)
    end.
    simpl_world.
    assert (Hstarted : is_Some (gridStateMap
                                  (say (LogMoved previous new)
                                     (mutate (_id grid) (withPrice (Some price)) w))
                                !! _id grid)).
    { simpl_world. rewrite lookup_alter_eq, Hstate. eexists. reflexivity. }
    unfold crossingsBetween.
    destruct (previous <? new)%nat eqn:Hup.
    + apply Nat.ltb_lt in Hup.
      destruct (sellLoop_priced grid (new - previous) (previous + 1) new _
                  ltac:(intros j Hj; apply Hpriced; lia) Hstarted) as [Hcalls Hrows].
      replace (Nat.min (new - previous) (S new - (previous + 1)))
        with (new - previous)%nat in Hcalls, Hrows by lia.
      rewrite Nat.add_1_r in Hcalls, Hrows.
      split.
      * rewrite Nat.add_1_r, Hcalls, length_map, length_seq. reflexivity.
      * intros Hlands. rewrite Nat.add_1_r. exact (Hrows Hlands).
    + apply Nat.ltb_ge in Hup.
      assert (Hdown : (new <? previous)%nat = true) by (apply Nat.ltb_lt; lia).
      rewrite Hdown.
      destruct (buyLoop_priced grid previous new _
                  ltac:(intros j Hj; apply Hpriced; lia) Hstarted) as [Hcalls Hrows].
      split.
      * rewrite Hcalls, length_map, length_rev, length_seq. reflexivity.
      * exact Hrows.
Qed.

End Complete.

(** X6. On a grid whose table has a non-zero price for every key
    [0 .. gridCount], a tick from a held level of that range hands the venue
    exactly one request for each crossing of the move, whatever the venue
    answers: no level is skipped for want of a price. *)
Theorem processGrid_calls_venue_per_crossing
    (quoteAndSwap : list SwapRequest -> SwapRequest -> SwapResult)
    (grid : IGrid) (tokenPrices : gmap string Q) (w : World)
    (gridState : GridState.t) (price : Q) (previous : nat) :
  length (levels grid) = S (gridCount grid) ->
  allTruthy (levels grid) = true ->
  tokenPrices !! targetTokenId grid = Some price ->
  gridStateMap w !! _id grid = Some gridState ->
  GridState.currentGridIndex gridState = Some previous ->
  (previous <= gridCount grid)%nat ->
  length (swaps (processGrid quoteAndSwap grid tokenPrices w))
  = (length (swaps w)
     + length (crossingsBetween previous (findGridLevelIndex grid price)))%nat
  /\ crossings (console (processGrid quoteAndSwap grid tokenPrices w))
     = crossings (console w)
       ++ crossingsBetween previous (findGridLevelIndex grid price).
Proof.
  intros Hlen Hall Hprice Hstate Hprev Hbound. split.
  - exact (proj1 (processGrid_complete quoteAndSwap grid tokenPrices w gridState price
                    previous Hlen Hall Hprice Hstate Hprev Hbound)).
  - destruct (Nat.eq_dec (findGridLevelIndex grid price) previous) as [Heq | Hne].
    + rewrite (processGrid_still quoteAndSwap grid tokenPrices w gridState price
                 Hprice Hstate previous Hprev Heq).
      rewrite Heq. unfold crossingsBetween.
      rewrite Nat.ltb_irrefl, Nat.sub_diag. cbn. rewrite app_nil_r. reflexivity.
    + destruct (processGrid_moved quoteAndSwap grid tokenPrices w gridState price
                  Hprice Hstate previous Hprev Hne) as (traded & -> & _ & Htraded).
      match goal with
      | |- context [updateGridCurrentPrice ?id ?p ?x] =>
          destruct (updateGridCurrentPrice_elsewhere id p x) as (_ & _ & _ & ->)
      end.
      simpl_world. exact Htraded.
Qed.

Lemma processGrid_calls_venue_per_crossing_witness :
  let w := tracking solUsdc (Some 3%nat) 116 in
  allTruthy (levels solUsdc) = true
  /\ length (swaps (processGrid venueDown solUsdc (feed solUsdc 101) w)) = 3%nat.
Proof.
  intros w. split; [reflexivity|].
  exact (proj1 (processGrid_calls_venue_per_crossing venueDown solUsdc
                  (feed solUsdc 101) w (GridState.mk (Some 3%nat) (Some 116) 0 0)
                  101 3%nat eq_refl eq_refl eq_refl eq_refl eq_refl ltac:(cbn; lia))).
Defined.

(** X7. On such a grid, when every swap lands, the trade rows a tick records
    are its crossings, side and level, one row for each and in their
    order. *)
Theorem processGrid_records_every_crossing
    (quoteAndSwap : list SwapRequest -> SwapRequest -> SwapResult)
    (grid : IGrid) (tokenPrices : gmap string Q) (w : World)
    (gridState : GridState.t) (price : Q) (previous : nat) :
  alwaysLands quoteAndSwap ->
  length (levels grid) = S (gridCount grid) ->
  allTruthy (levels grid) = true ->
  tokenPrices !! targetTokenId grid = Some price ->
  gridStateMap w !! _id grid = Some gridState ->
  GridState.currentGridIndex gridState = Some previous ->
  (previous <= gridCount grid)%nat ->
  map tradeKey (dbTrades (processGrid quoteAndSwap grid tokenPrices w))
  = map tradeKey (dbTrades w)
    ++ crossingsBetween previous (findGridLevelIndex grid price).
Proof.
  intros Hlands Hlen Hall Hprice Hstate Hprev Hbound.
  exact (proj2 (processGrid_complete quoteAndSwap grid tokenPrices w gridState price
                  previous Hlen Hall Hprice Hstate Hprev Hbound) Hlands).
Qed.

Lemma processGrid_records_every_crossing_witness :
  let w := tracking solUsdc (Some 1%nat) 106 in
  alwaysLands venueOk
  /\ map tradeKey (dbTrades (processGrid venueOk solUsdc (feed solUsdc 121) w))
     = [(SELL, 2%nat); (SELL, 3%nat); (SELL, 4%nat)].
Proof.
  intros w.
  assert (Hlands : alwaysLands venueOk) by (intros before req; reflexivity).
  split; [exact Hlands|].
  exact (processGrid_records_every_crossing venueOk solUsdc (feed solUsdc 121) w
           (GridState.mk (Some 1%nat) (Some 106) 0 0) 121 1%nat
           Hlands eq_refl eq_refl eq_refl eq_refl eq_refl ltac:(cbn; lia)).
Defined.

(** ** Counters and trade rows *)

Lemma countDocuments_app id s rows row :
  countDocuments id s (rows ++ [row])
  = (countDocuments id s rows
     + (if String.eqb (gridId row) id && sideEqb (side row) s then 1 else 0))%nat.
Proof.
  induction rows as [|r rows IH]; cbn [app countDocuments]; [lia|].
  rewrite IH. lia.
Qed.

Lemma countersMatch_same id w w' :
  dbGrids w' !! id = dbGrids w !! id -> dbTrades w' = dbTrades w ->
  countersMatch id w -> countersMatch id w'.
Proof.
  unfold countersMatch, getTradeSummaryByGridId. intros Hg Ht H g Hlookup.
  rewrite Hg in Hlookup. rewrite Ht. exact (H g Hlookup).
Qed.

(** A trade of [grid] that lands: one more on the counter of its side and
    one more row of that side. *)
Lemma countersMatch_traded id grid s buys sells src tgt row w :
  gridId row = _id grid -> side row = s ->
  (buys = if sideEqb s BUY then 1 else 0)%nat ->
  (sells = if sideEqb s SELL then 1 else 0)%nat ->
  countersMatch id w ->
  countersMatch id
    (createTrade row
       (incrementGridTrades (_id grid) buys sells
          (updateGridTokenAmounts (_id grid) src tgt w))).
Proof.
  unfold countersMatch, getTradeSummaryByGridId.
  intros Hrow Hside Hbuys Hsells H g Hlookup. simpl_world.
  cbn [TradeSummary.totalBuys TradeSummary.totalSells] in *.
  rewrite !countDocuments_app, Hrow, Hside.
  destruct (decide (_id grid = id)) as [Hid | Hid].
  - subst id. rewrite String.eqb_refl. rewrite !lookup_alter_eq in Hlookup.
    destruct (dbGrids w !! _id grid) as [g0|] eqn:Hg0; [|discriminate].
    cbn in Hlookup. injection Hlookup as <-. destruct (H g0 eq_refl) as [HB HS].
    cbn [totalBuys totalSells addTrades setTokenAmounts].
    rewrite HB, HS, Hbuys, Hsells. destruct s; cbn; lia.
  - assert (Hneq : String.eqb (_id grid) id = false) by (apply String.eqb_neq; exact Hid).
    rewrite Hneq. cbn. rewrite !lookup_alter_ne in Hlookup by exact Hid.
    destruct (H g Hlookup) as [HB HS]. lia.
Qed.

Section Counters.

Variable quoteAndSwap : list SwapRequest -> SwapRequest -> SwapResult.

Lemma executeSellTrade_counters id grid levelIndex w :
  countersMatch id w ->
  countersMatch id (executeSellTrade quoteAndSwap grid levelIndex w).
Proof.
  intros H. unfold executeSellTrade.
  destruct (levels grid !! levelIndex) as [levelPrice|];
    [|exact (countersMatch_same id w _ eq_refl eq_refl H)].
  destruct (truthy levelPrice); cbn [negb];
    [|exact (countersMatch_same id w _ eq_refl eq_refl H)].
  destruct (gridStateMap (say (LogExecuting SELL levelIndex) w) !! _id grid)
    as [gridState|]; [|exact (countersMatch_same id w _ eq_refl eq_refl H)].
  cbn [callVenue].
  match goal with
  | |- context [success ?r] => destruct (success r)
  end; cbn [negb]; [|exact (countersMatch_same id w _ eq_refl eq_refl H)].
  apply (countersMatch_same id
           (createTrade _ (incrementGridTrades (_id grid) 0 1
                             (updateGridTokenAmounts (_id grid) _ _ w)))
           _ eq_refl eq_refl).
  apply (countersMatch_traded id grid SELL); try reflexivity. exact H.
Qed.

Lemma executeBuyTrade_counters id grid levelIndex w :
  countersMatch id w ->
  countersMatch id (executeBuyTrade quoteAndSwap grid levelIndex w).
Proof.
  intros H. unfold executeBuyTrade.
  destruct (levels grid !! levelIndex) as [levelPrice|];
    [|exact (countersMatch_same id w _ eq_refl eq_refl H)].
  destruct (truthy levelPrice); cbn [negb];
    [|exact (countersMatch_same id w _ eq_refl eq_refl H)].
  destruct (gridStateMap (say (LogExecuting BUY levelIndex) w) !! _id grid)
    as [gridState|]; [|exact (countersMatch_same id w _ eq_refl eq_refl H)].
  cbn [callVenue].
  match goal with
  | |- context [success ?r] => destruct (success r)
  end; cbn [negb]; [|exact (countersMatch_same id w _ eq_refl eq_refl H)].
  apply (countersMatch_same id
           (createTrade _ (incrementGridTrades (_id grid) 1 0
                             (updateGridTokenAmounts (_id grid) _ _ w)))
           _ eq_refl eq_refl).
  apply (countersMatch_traded id grid BUY); try reflexivity. exact H.
Qed.

Lemma sellLoop_counters id grid fuel i newGridIndex w :
  countersMatch id w ->
  countersMatch id (sellLoop quoteAndSwap grid fuel i newGridIndex w).
Proof.
  revert i w. induction fuel as [|fuel IH]; intros i w H; [exact H|].
  cbn [sellLoop]. destruct (i <=? newGridIndex)%nat; [|exact H].
  apply IH, executeSellTrade_counters, H.
Qed.

Lemma buyLoop_counters id grid i newGridIndex w :
  countersMatch id w ->
  countersMatch id (buyLoop quoteAndSwap grid i newGridIndex w).
Proof.
  revert w. induction i as [|i IH]; intros w H; [exact H|].
  cbn [buyLoop]. destruct (newGridIndex <? S i)%nat; [|exact H].
  apply IH, executeBuyTrade_counters, H.
Qed.

Lemma countersMatch_updateGridCurrentPrice id id0 price w :
  countersMatch id w -> countersMatch id (updateGridCurrentPrice id0 price w).
Proof.
  unfold countersMatch, getTradeSummaryByGridId, updateGridCurrentPrice.
  intros H g Hlookup.
  destruct (dbGrids w !! id0) as [stored|] eqn:Hstored; [|exact (H g Hlookup)].
  simpl_world. rewrite lookup_alter in Hlookup. case_decide as Hid.
  - subst id0. rewrite Hstored in Hlookup. cbn in Hlookup. injection Hlookup as <-.
    exact (H stored Hstored).
  - exact (H g Hlookup).
Qed.

Lemma processGrid_counters id grid tokenPrices w :
  countersMatch id w ->
  countersMatch id (processGrid quoteAndSwap grid tokenPrices w).
Proof.
  intros H. unfold processGrid.
  destruct (tokenPrices !! targetTokenId grid) as [price|];
    [|exact (countersMatch_same id w _ eq_refl eq_refl H)].
  destruct (gridStateMap w !! _id grid) as [gridState|];
    [|exact (countersMatch_same id w _ eq_refl eq_refl H)].
  destruct (GridState.currentGridIndex gridState) as [previous|].
  - destruct (findGridLevelIndex grid price =? previous)%nat;
      [exact (countersMatch_same id w _ eq_refl eq_refl H)|].
    apply countersMatch_updateGridCurrentPrice.
    match goal with
    | |- countersMatch id (mutate ?i ?f ?x) =>
        apply (countersMatch_same id x _ eq_refl eq_refl)
    end.
    assert (Hstarted : countersMatch id
              (say (LogMoved previous (findGridLevelIndex grid price))
                 (mutate (_id grid) (withPrice (Some price)) w)))
      by exact (countersMatch_same id w _ eq_refl eq_refl H).
    destruct (previous <? findGridLevelIndex grid price)%nat;
      [apply sellLoop_counters; exact Hstarted|].
    destruct (findGridLevelIndex grid price <? previous)%nat;
      [apply buyLoop_counters; exact Hstarted | exact Hstarted].
  - apply countersMatch_updateGridCurrentPrice.
    exact (countersMatch_same id w _ eq_refl eq_refl H).
Qed.

End Counters.

(** X8. A tick keeps the counters of every grid document in step with the
    trade rows: if [totalBuys] and [totalSells] of a document are the counts
    that [getTradeSummaryByGridId] gives for its id before the tick, they are
    after it, whatever the venue answers. *)
Theorem processGrid_keeps_counters_in_step
    (quoteAndSwap : list SwapRequest -> SwapRequest -> SwapResult)
    (grid : IGrid) (tokenPrices : gmap string Q) (w : World) (id : string) :
  countersMatch id w ->
  countersMatch id (processGrid quoteAndSwap grid tokenPrices w).
Proof. exact (processGrid_counters quoteAndSwap id grid tokenPrices w). Qed.

Lemma processGrid_keeps_counters_in_step_witness :
  let w := tracking solUsdc (Some 1%nat) 106 in
  let w' := processGrid (venueFailing 2) solUsdc (feed solUsdc 121) w in
  countersMatch (_id solUsdc) w
  /\ countersMatch (_id solUsdc) w'
  /\ TradeSummary.totalSells (getTradeSummaryByGridId (_id solUsdc) w') = 2%nat.
Proof.
  intros w w'.
  assert (H : countersMatch (_id solUsdc) w).
  { intros g Hg. injection Hg as <-. split; reflexivity. }
  split; [exact H|]. split; [|reflexivity].
  exact (processGrid_keeps_counters_in_step (venueFailing 2) solUsdc
           (feed solUsdc 121) w (_id solUsdc) H).
Defined.

(** ** A venue that is down *)

Lemma untraded_refl id w : untraded id w w.
Proof. split; reflexivity. Qed.

Lemma untraded_trans id w1 w2 w3 :
  untraded id w1 w2 -> untraded id w2 w3 -> untraded id w1 w3.
Proof.
  intros [R1 H1 S1] [R2 H2 S2]. split; congruence.
Qed.

Lemma untraded_say id line w : untraded id w (say line w).
Proof. split; reflexivity. Qed.

Lemma untraded_mutate id id0 f w :
  (forall s, heldInventory (f s) = heldInventory s) ->
  untraded id w (mutate id0 f w).
Proof.
  intros Hf. split; simpl_world; [reflexivity | | reflexivity].
  apply fmap_lookup_alter. exact Hf.
Qed.

Lemma untraded_updateGridCurrentPrice id id0 price w :
  untraded id w (updateGridCurrentPrice id0 price w).
Proof.
  unfold updateGridCurrentPrice.
  destruct (dbGrids w !! id0); [|apply untraded_refl].
  split; simpl_world; [reflexivity | reflexivity |].
  apply fmap_lookup_alter. reflexivity.
Qed.

Section Down.

Variable quoteAndSwap : list SwapRequest -> SwapRequest -> SwapResult.
Hypothesis Hdown : neverLands quoteAndSwap.

Lemma executeSellTrade_down id grid levelIndex w :
  untraded id w (executeSellTrade quoteAndSwap grid levelIndex w).
Proof.
  unfold executeSellTrade.
  destruct (levels grid !! levelIndex) as [levelPrice|]; [|split; reflexivity].
  destruct (truthy levelPrice); cbn [negb]; [|split; reflexivity].
  destruct (gridStateMap (say (LogExecuting SELL levelIndex) w) !! _id grid);
    [|split; reflexivity].
  cbn [callVenue]. rewrite Hdown. split; reflexivity.
Qed.

Lemma executeBuyTrade_down id grid levelIndex w :
  untraded id w (executeBuyTrade quoteAndSwap grid levelIndex w).
Proof.
  unfold executeBuyTrade.
  destruct (levels grid !! levelIndex) as [levelPrice|]; [|split; reflexivity].
  destruct (truthy levelPrice); cbn [negb]; [|split; reflexivity].
  destruct (gridStateMap (say (LogExecuting BUY levelIndex) w) !! _id grid);
    [|split; reflexivity].
  cbn [callVenue]. rewrite Hdown. split; reflexivity.
Qed.

Lemma sellLoop_down id grid fuel i newGridIndex w :
  untraded id w (sellLoop quoteAndSwap grid fuel i newGridIndex w).
Proof.
  revert i w. induction fuel as [|fuel IH]; intros i w; [apply untraded_refl|].
  cbn [sellLoop]. destruct (i <=? newGridIndex)%nat; [|apply untraded_refl].
  eapply untraded_trans; [apply executeSellTrade_down | apply IH].
Qed.

Lemma buyLoop_down id grid i newGridIndex w :
  untraded id w (buyLoop quoteAndSwap grid i newGridIndex w).
Proof.
  revert w. induction i as [|i IH]; intros w; [apply untraded_refl|].
  cbn [buyLoop]. destruct (newGridIndex <? S i)%nat; [|apply untraded_refl].
  eapply untraded_trans; [apply executeBuyTrade_down | apply IH].
Qed.

Lemma processGrid_down id grid tokenPrices w :
  untraded id w (processGrid quoteAndSwap grid tokenPrices w).
Proof.
  unfold processGrid.
  destruct (tokenPrices !! targetTokenId grid) as [price|]; [|split; reflexivity].
  destruct (gridStateMap w !! _id grid) as [gridState|]; [|split; reflexivity].
  assert (Hpriced : untraded id w (mutate (_id grid) (withPrice (Some price)) w))
    by (apply untraded_mutate; reflexivity).
  destruct (GridState.currentGridIndex gridState) as [previous|].
  - destruct (findGridLevelIndex grid price =? previous)%nat; [exact Hpriced|].
    eapply untraded_trans; [|apply untraded_updateGridCurrentPrice].
    eapply untraded_trans; [|apply untraded_mutate; reflexivity].
    eapply untraded_trans; [exact Hpriced|].
    eapply untraded_trans;
      [exact (untraded_say id (LogMoved previous (findGridLevelIndex grid price)) _)|].
    destruct (previous <? findGridLevelIndex grid price)%nat;
      [apply sellLoop_down|].
    destruct (findGridLevelIndex grid price <? previous)%nat;
      [apply buyLoop_down | apply untraded_refl].
  - eapply untraded_trans; [|apply untraded_updateGridCurrentPrice].
    eapply untraded_trans; [|apply untraded_mutate; reflexivity].
    eapply untraded_trans; [exact Hpriced|]. split; reflexivity.
Qed.

End Down.

(** X9. While no swap lands, a tick trades nothing: it adds no trade row
    and leaves the inventory the bot holds, the inventory the collection
    stores and the counters of every grid as they were (only the level, the
    price and the checkpoint move). *)
Theorem processGrid_trades_nothing_when_venue_is_down
    (quoteAndSwap : list SwapRequest -> SwapRequest -> SwapResult)
    (grid : IGrid) (tokenPrices : gmap string Q) (w : World) (id : string) :
  neverLands quoteAndSwap ->
  untraded id w (processGrid quoteAndSwap grid tokenPrices w).
Proof.
  intros Hdown. exact (processGrid_down quoteAndSwap Hdown id grid tokenPrices w).
Qed.

Lemma processGrid_trades_nothing_when_venue_is_down_witness :
  let w := tracking solUsdc (Some 1%nat) 106 in
  let w' := processGrid venueDown solUsdc (feed solUsdc 121) w in
  neverLands venueDown
  /\ untraded (_id solUsdc) w w'
  /\ heldLevel w' (_id solUsdc) = Some (Some 4%nat).
Proof.
  intros w w'.
  assert (Hdown : neverLands venueDown) by (intros before req; reflexivity).
  split; [exact Hdown|]. split; [|reflexivity].
  exact (processGrid_trades_nothing_when_venue_is_down venueDown solUsdc
           (feed solUsdc 121) w (_id solUsdc) Hdown).
Defined.

(** ** The sign of a recorded profit *)

Lemma executeSellTrade_profit_nonneg
    (quoteAndSwap : list SwapRequest -> SwapRequest -> SwapResult)
    (grid : IGrid) (levelIndex : nat) (w : World) (row : ITrade) :
  wellFormed grid ->
  0 < lowerLimit grid ->
  0 <= quantityInvested grid ->
  dbTrades (executeSellTrade quoteAndSwap grid levelIndex w) = dbTrades w ++ [row] ->
  exists x, profit row = ProfitNumber x /\ 0 <= x.
Proof.
  intros Hwf Hlower Hinvested Hrow.
  destruct (executeSellTrade_row quoteAndSwap grid levelIndex w row Hrow)
    as (p & Hp & _ & _ & ->).
  cbn [profit].
  destruct (wf_lower grid Hwf) as (lo & Hlo & Hlo_eq).
  destruct (wf_upper grid Hwf) as (hi & Hhi & _).
  assert (Hpos : 0 < p).
  { apply Qlt_le_trans with lo; [rewrite Hlo_eq; exact Hlower|].
    exact (lowest_le grid lo Hwf Hlo levelIndex p Hp). }
  assert (Hamount : 0 <= quantityInvested grid / ofNat (gridCount grid) / p).
  { unfold Qdiv. apply Qmult_le_0_compat.
    - apply Qmult_le_0_compat; [exact Hinvested|].
      apply Qinv_le_0_compat. apply (ofNat_le 0). lia.
    - apply Qinv_le_0_compat. apply Qlt_le_weak, Hpos. }
  unfold buyPriceOf. destruct (0 <? levelIndex)%nat eqn:Hlevel.
  - apply Nat.ltb_lt in Hlevel.
    assert (Hbelow : (levelIndex - 1 < length (levels grid))%nat).
    { apply lookup_lt_Some in Hp. lia. }
    destruct (lookup_lt_is_Some_2 _ _ Hbelow) as [b Hb]. rewrite Hb.
    eexists. split; [reflexivity|].
    apply Qmult_le_0_compat; [|exact Hamount].
    assert (Hlt : b < p).
    { apply (strictlyIncreasing_lt _ (wf_increasing grid Hwf) (levelIndex - 1) levelIndex);
        [lia | exact Hb | exact Hp]. }
    lra.
  - apply Nat.ltb_ge in Hlevel. assert (levelIndex = 0%nat) as -> by lia.
    rewrite Hlo in Hp. injection Hp as <-.
    eexists. split; [reflexivity|].
    apply Qmult_le_0_compat; [|exact Hamount]. lra.
Qed.

(** X11. On a well-formed grid with a positive lower limit and an
    investment that is not negative, no SELL records a loss: the profit of
    every row that [executeSellTrade] writes is a number, and not below 0. *)
Theorem recorded_profit_is_never_negative
    (quoteAndSwap : list SwapRequest -> SwapRequest -> SwapResult)
    (grid : IGrid) (levelIndex : nat) (w : World) (row : ITrade) :
  wellFormed grid ->
  0 < lowerLimit grid ->
  0 <= quantityInvested grid ->
  dbTrades (executeSellTrade quoteAndSwap grid levelIndex w) = dbTrades w ++ [row] ->
  exists x, profit row = ProfitNumber x /\ 0 <= x.
Proof. exact (executeSellTrade_profit_nonneg quoteAndSwap grid levelIndex w row). Qed.

Lemma recorded_profit_is_never_negative_witness :
  let w := tracking solUsdc (Some 1%nat) 106 in
  wellFormed solUsdc /\ 0 < lowerLimit solUsdc /\ 0 <= quantityInvested solUsdc
  /\ exists row x,
       dbTrades (executeSellTrade venueOk solUsdc 2 w) = dbTrades w ++ [row]
       /\ profit row = ProfitNumber x /\ 0 <= x.
Proof.
  intros w.
  assert (H1 : 0 < lowerLimit solUsdc) by (apply Qltb_iff; reflexivity).
  assert (H2 : 0 <= quantityInvested solUsdc) by (apply Qleb_iff; reflexivity).
  split; [exact solUsdc_wellFormed|]. split; [exact H1|]. split; [exact H2|].
  eexists.
  assert (Hrow : dbTrades (executeSellTrade venueOk solUsdc 2 w) = dbTrades w ++ [_])
    by reflexivity.
  destruct (recorded_profit_is_never_negative venueOk solUsdc 2 w _
              solUsdc_wellFormed H1 H2 Hrow) as (x & Hx & Hle).
  exists x. split; [exact Hrow|]. split; [exact Hx | exact Hle].
Defined.

(** ** Edits of the limits: rejections *)

(** What an accepted edit wrote. *)
Lemma updateGridPriceLimits_accepted id upper lower count w updated w' :
  updateGridPriceLimits id upper lower count w = (Some updated, w') ->
  exists existing,
    lower < upper
    /\ dbGrids w !! id = Some existing
    /\ (2 <= default (gridCount existing) count)%nat
    /\ updated
       = setLimits upper lower
           (roundedLevels upper lower (default (gridCount existing) count))
           (reproject (currentPrice existing) upper lower
              (default (gridCount existing) count)
              (roundedLevels upper lower (default (gridCount existing) count)))
           (default (gridCount existing) count) existing
    /\ w' = setDbGrids (<[id := updated]> (dbGrids w)) w.
Proof.
  unfold updateGridPriceLimits.
  destruct (Qleb upper lower) eqn:Hrange; [discriminate|].
  destruct (dbGrids w !! id) as [existing|]; [|discriminate].
  change (match count with Some c => c | None => gridCount existing end)
    with (default (gridCount existing) count).
  destruct (default (gridCount existing) count <? 2)%nat eqn:Hcount; [discriminate|].
  intros H. injection H as <- <-.
  exists existing. apply Qleb_false in Hrange. apply Nat.ltb_ge in Hcount.
  repeat split; assumption.
Qed.

(** X12. An edit of the limits is rejected exactly when the new upper limit
    is not above the new lower one, when the grid is not in the collection,
    or when the level count that results is below 2; a rejected edit writes
    nothing. *)
Theorem updateGridPriceLimits_rejects
    (id : string) (upper lower : Q) (count : option nat) (w : World) :
  (fst (updateGridPriceLimits id upper lower count w) = None
   <-> upper <= lower
       \/ dbGrids w !! id = None
       \/ exists existing,
            dbGrids w !! id = Some existing
            /\ (default (gridCount existing) count < 2)%nat)
  /\ (fst (updateGridPriceLimits id upper lower count w) = None ->
      snd (updateGridPriceLimits id upper lower count w) = w).
Proof.
  unfold updateGridPriceLimits.
  destruct (Qleb upper lower) eqn:Hrange.
  { apply Qleb_iff in Hrange. split; [|reflexivity].
    split; [intros _; left; exact Hrange | reflexivity]. }
  apply Qleb_false in Hrange.
  destruct (dbGrids w !! id) as [existing|] eqn:Hexisting.
  2:{ split; [|reflexivity]. split; [intros _; right; left; reflexivity | reflexivity]. }
  change (match count with Some c => c | None => gridCount existing end)
    with (default (gridCount existing) count).
  destruct (default (gridCount existing) count <? 2)%nat eqn:Hcount.
  { apply Nat.ltb_lt in Hcount. split; [|reflexivity].
    split; [|reflexivity]. intros _. right. right. exists existing.
    split; [reflexivity | exact Hcount]. }
  apply Nat.ltb_ge in Hcount. cbn [fst snd]. split; [|discriminate].
  split; [discriminate|].
  intros [Hle | [Hnone | (g & Hg & Hlt)]].
  - exfalso. exact (Qlt_not_le _ _ Hrange Hle).
  - discriminate.
  - injection Hg as <-. lia.
Qed.

(** ** The table an edit writes *)

Lemma toFixed6_proper x y : x == y -> toFixed6 x == toFixed6 y.
Proof.
  intros H. apply Qle_antisym; apply toFixed6_mono; rewrite H; apply Qle_refl.
Qed.

(** The first boundary computed for a range is its lower limit:
    [lowerLimit + (step * 0)]. *)
Lemma first_boundary lower step : fadd lower (fmul step (ofNat 0)) == double lower.
Proof.
  unfold fadd, fmul. apply double_proper.
  rewrite (double_zero (step * ofNat 0)) by (change (ofNat 0) with 0; ring).
  ring.
Qed.

(** Where the double and the exact quotient round apart: for the range
    88.14 .. 130.8153 in 48 steps the exact boundary 6 is 93.4744125, which
    rounds to 93.474413; the double [lowerLimit + (step * 6)] is just below
    it, and the table gets 93.474412. *)
Lemma roundedLevels_rounds_the_double :
  roundedLevels (double (1308153 # 10000)) (double (8814 # 100)) 48 !! 6%nat
  = Some (double (93474412 # 1000000))
  /\ toFixed6 ((8814 # 100) + ((1308153 # 10000) - (8814 # 100)) / 48 * 6)
     == 93474413 # 1000000.
Proof.
  split.
  - rewrite roundedLevels_lookup by lia. vm_compute. reflexivity.
  - vm_compute. reflexivity.
Qed.

(** X14. The table that an accepted edit of limits clear of overflow
    writes has [gridCount + 1] boundaries that come in order, however the arithmetic of doubles and
    the rounding to six decimals fall: key order is price order, so the sort
    of the locator leaves the table as it is; its lowest boundary is the new
    lower limit rounded to six decimals. *)
Theorem updateGridPriceLimits_orders_table
    (id : string) (upper lower : Q) (count : option nat) (w w' : World)
    (updated : IGrid) :
  updateGridPriceLimits id upper lower count w = (Some updated, w') ->
  finiteRange upper lower ->
  length (levels updated) = S (gridCount updated)
  /\ nondecreasing (levels updated)
  /\ sortByPrice (entries (levels updated)) = entries (levels updated)
  /\ exists lo,
       levels updated !! 0%nat = Some lo
       /\ lo == double (toFixed6 (double (lowerLimit updated))).
Proof.
  intros Hedit _.
  destruct (updateGridPriceLimits_accepted _ _ _ _ _ _ _ Hedit)
    as (existing & Hrange & _ & _ & -> & _).
  cbn [levels gridCount lowerLimit setLimits].
  pose proof (roundedLevels_nondecreasing upper lower
                (default (gridCount existing) count) Hrange) as Hmono.
  split; [apply roundedLevels_length|]. split; [exact Hmono|].
  split; [exact (sortByPrice_entriesFrom 0 _ Hmono)|].
  eexists. split; [apply roundedLevels_lookup; lia|].
  apply double_proper, toFixed6_proper, first_boundary.
Qed.

Lemma updateGridPriceLimits_orders_table_witness :
  exists updated w',
    updateGridPriceLimits (_id solUsdc) 130 90 None
      (tracking solUsdc (Some 1%nat) 106) = (Some updated, w')
    /\ finiteRange 130 90
    /\ nondecreasing (levels updated)
    /\ sortByPrice (entries (levels updated)) = entries (levels updated).
Proof.
  eexists. eexists.
  assert (Hedit : updateGridPriceLimits (_id solUsdc) 130 90 None
                    (tracking solUsdc (Some 1%nat) 106) = (Some _, _))
    by reflexivity.
  assert (Hfinite : finiteRange 130 90) by (split; apply Qleb_iff; vm_compute; reflexivity).
  split; [exact Hedit|]. split; [exact Hfinite|].
  destruct (updateGridPriceLimits_orders_table _ _ _ _ _ _ _ Hedit Hfinite)
    as (_ & Hmono & Hsorted & _).
  split; [exact Hmono | exact Hsorted].
Defined.

(** ** Creating and deleting grids *)

Lemma evenLevels_length upper lower n : length (evenLevels upper lower n) = S n.
Proof. unfold evenLevels. rewrite length_map, length_seq. reflexivity. Qed.

Lemma evenLevels_lookup upper lower n i :
  (i <= n)%nat ->
  evenLevels upper lower n !! i
  = Some (fadd lower (fmul (fdiv (fsub upper lower) (ofNat n)) (ofNat i))).
Proof.
  intros Hi. unfold evenLevels. rewrite lookup_map_seq by lia. reflexivity.
Qed.

(** The table of a range does not decrease. *)
Lemma evenLevels_nondecreasing upper lower n :
  lower <= upper -> nondecreasing (evenLevels upper lower n).
Proof.
  intros Hrange i a b Ha Hb.
  assert (Hi : (S i <= n)%nat).
  { apply lookup_lt_Some in Hb. rewrite evenLevels_length in Hb. lia. }
  rewrite evenLevels_lookup in Ha by lia. rewrite evenLevels_lookup in Hb by lia.
  injection Ha as <-. injection Hb as <-.
  apply boundary_mono; [exact Hrange | lia].
Qed.

(** The last boundary of the table need not be the upper limit: for the
    range 0.2 .. 0.9 in four steps it is 0.8999999999999999. *)
Lemma evenLevels_last_boundary :
  evenLevels (double (9 # 10)) (double (2 # 10)) 4 !! 4%nat
  = Some (double (8999999999999999 # 10000000000000000))
  /\ double (8999999999999999 # 10000000000000000) < double (9 # 10).
Proof.
  split.
  - rewrite evenLevels_lookup by lia. vm_compute. reflexivity.
  - apply Qltb_iff. vm_compute. reflexivity.
Qed.

(** X15. [createGrid] without levels, for a range with
    [lowerLimit <= upperLimit], clear of overflow and cut into at least one
    step, and under a fresh id, stores a grid with both counters at 0 whose table has
    [gridCount + 1] boundaries that come in order, however the doubles
    round, and start at the lower limit; [getGridById] finds it under that
    id, and every other document is as it was. *)
Theorem createGrid_stores_ordered_table
    (newId : string) (gridData : IGrid) (w : World) :
  dbGrids w !! newId = None ->
  levels gridData = [] ->
  lowerLimit gridData <= upperLimit gridData ->
  finiteRange (upperLimit gridData) (lowerLimit gridData) ->
  (0 < gridCount gridData)%nat ->
  exists grid w',
    createGrid newId gridData w = (Some grid, w')
    /\ getGridById newId w' = Some grid
    /\ _id grid = newId
    /\ totalBuys grid = 0%nat /\ totalSells grid = 0%nat
    /\ length (levels grid) = S (gridCount grid)
    /\ nondecreasing (levels grid)
    /\ (exists lo, levels grid !! 0%nat = Some lo /\ lo == double (lowerLimit grid))
    /\ forall id, id <> newId -> getGridById id w' = getGridById id w.
Proof.
  intros Hfresh Hlevels Hrange _ _. unfold createGrid.
  rewrite Hfresh, Hlevels. eexists. eexists. split; [reflexivity|].
  unfold getGridById. simpl_world.
  split; [apply lookup_insert_eq|]. split; [reflexivity|].
  split; [reflexivity|]. split; [reflexivity|].
  cbn [levels gridCount lowerLimit].
  split; [apply evenLevels_length|].
  split; [exact (evenLevels_nondecreasing _ _ _ Hrange)|].
  split.
  - eexists. split; [apply evenLevels_lookup; lia | apply first_boundary].
  - intros id Hid. apply lookup_insert_ne. congruence.
Qed.

Lemma createGrid_stores_ordered_table_witness :
  exists grid w',
    createGrid "67edf9f861d2cfdefceb4071" (setLimits 120 110 [] None 30 solUsdc)
      (collection solJup) = (Some grid, w')
    /\ getGridById "67edf9f861d2cfdefceb4071" w' = Some grid
    /\ nondecreasing (levels grid).
Proof.
  destruct (createGrid_stores_ordered_table "67edf9f861d2cfdefceb4071"
              (setLimits 120 110 [] None 30 solUsdc) (collection solJup)
              eq_refl eq_refl ltac:(apply Qleb_iff; reflexivity)
              ltac:(split; apply Qleb_iff; vm_compute; reflexivity) ltac:(cbn; lia))
    as (grid & w' & Hcreate & Hget & _ & _ & _ & _ & Hmono & _).
  exists grid, w'. split; [exact Hcreate|]. split; [exact Hget | exact Hmono].
Defined.

(** X16. Deleting a grid that was just created under a fresh id gives back
    the collection of grids as it was; [deleteGrid] then reports that a
    document was deleted, a second [deleteGrid] that none was, and that one
    changes nothing. *)
Theorem deleteGrid_undoes_createGrid
    (newId : string) (gridData : IGrid) (w : World) :
  dbGrids w !! newId = None ->
  let created := snd (createGrid newId gridData w) in
  let deleted := snd (deleteGrid newId created) in
  fst (deleteGrid newId created) = true
  /\ dbGrids deleted = dbGrids w
  /\ getGridById newId deleted = None
  /\ deleteGrid newId deleted = (false, deleted).
Proof.
  intros Hfresh created deleted.
  assert (Hcreated : exists grid, dbGrids created = <[newId := grid]> (dbGrids w)).
  { unfold created, createGrid. rewrite Hfresh. eexists. reflexivity. }
  destruct Hcreated as [grid Hcreated].
  assert (Hdelete : deleteGrid newId created
                    = (true, setDbGrids (delete newId (dbGrids created)) created)).
  { unfold deleteGrid. rewrite Hcreated, lookup_insert_eq. reflexivity. }
  assert (Hdeleted : dbGrids deleted = dbGrids w).
  { unfold deleted. rewrite Hdelete. cbn [snd]. simpl_world.
    rewrite Hcreated. exact (delete_insert_id _ _ _ Hfresh). }
  split; [rewrite Hdelete; reflexivity|]. split; [exact Hdeleted|].
  unfold getGridById, deleteGrid. rewrite Hdeleted, Hfresh.
  split; reflexivity.
Qed.

Lemma deleteGrid_undoes_createGrid_witness :
  dbGrids (snd (deleteGrid "67edf9f861d2cfdefceb4071"
                  (snd (createGrid "67edf9f861d2cfdefceb4071" solUsdc
                          (collection solJup)))))
  = dbGrids (collection solJup).
Proof.
  exact (proj1 (proj2 (deleteGrid_undoes_createGrid "67edf9f861d2cfdefceb4071"
                         solUsdc (collection solJup) eq_refl))).
Defined.

(** ** A tick over all the grids of the bot *)

Section AllGrids.

Variable quoteAndSwap : list SwapRequest -> SwapRequest -> SwapResult.
Variable tokenPrices : gmap string Q.

(** The pass of [monitorPricesAndExecuteTrades] over the grids. *)
Lemma pass_keeps_state id l w :
  (forall grid, In grid l -> _id grid <> id) ->
  gridStateMap
    (fold_left (fun w grid => processGrid quoteAndSwap grid tokenPrices w) l w) !! id
  = gridStateMap w !! id.
Proof.
  revert w. induction l as [|g l IH]; intros w Hother; [reflexivity|].
  cbn [fold_left]. rewrite IH by (intros grid Hin; apply Hother; right; exact Hin).
  apply (processGrid_elsewhere quoteAndSwap g tokenPrices w id).
  intros Heq. exact (Hother g (or_introl eq_refl) (eq_sym Heq)).
Qed.

Lemma pass_holds l w :
  NoDup (map _id l) ->
  (forall grid, In grid l -> is_Some (gridStateMap w !! _id grid)) ->
  forall grid price,
    In grid l -> tokenPrices !! targetTokenId grid = Some price ->
    holdsLevelOf grid price
      (fold_left (fun w grid => processGrid quoteAndSwap grid tokenPrices w) l w).
Proof.
  revert w. induction l as [|g l IH]; intros w Hnodup Hstates grid price Hin Hprice;
    [destruct Hin|].
  cbn [map] in Hnodup. apply NoDup_cons in Hnodup. destruct Hnodup as [Hfirst Hrest].
  assert (Hothers : forall grid', In grid' l -> _id grid' <> _id g).
  { intros grid' Hin' Heq. apply Hfirst. rewrite <- Heq.
    apply list_elem_of_In, in_map, Hin'. }
  cbn [fold_left]. destruct Hin as [<- | Hin].
  - destruct (Hstates g (or_introl eq_refl)) as [s Hs].
    destruct (processGrid_holds quoteAndSwap g tokenPrices w s price Hprice Hs)
      as (s' & Hs' & Hlevel & Hlast).
    exists s'. rewrite (pass_keeps_state (_id g) l _ Hothers).
    split; [exact Hs'|]. split; assumption.
  - apply IH; [exact Hrest | | exact Hin | exact Hprice].
    intros grid' Hin'.
    destruct (processGrid_elsewhere quoteAndSwap g tokenPrices w (_id grid')
                (Hothers grid' Hin')) as [-> _].
    apply Hstates. right. exact Hin'.
Qed.

End AllGrids.

(** X17. After a tick of a running bot whose grids have distinct ids, an
    entry each in [gridStateMap] and a price each in the answer of the feed,
    the bot holds for every one of its grids the level of that grid's price:
    the grids do not disturb each other. *)
Theorem monitorPricesAndExecuteTrades_holds_all_levels
    (quoteAndSwap : list SwapRequest -> SwapRequest -> SwapResult)
    (bot : Bot) (tokenPrices : gmap string Q) (w : World) (grid : IGrid) (price : Q) :
  isRunning bot = true ->
  NoDup (map _id (grids bot)) ->
  (forall g, In g (grids bot) -> is_Some (gridStateMap w !! _id g)) ->
  In grid (grids bot) ->
  tokenPrices !! targetTokenId grid = Some price ->
  holdsLevelOf grid price
    (monitorPricesAndExecuteTrades quoteAndSwap bot (Some tokenPrices) w).
Proof.
  intros Hrunning Hnodup Hstates Hin Hprice.
  unfold monitorPricesAndExecuteTrades. rewrite Hrunning. cbn [negb orb].
  destruct (grids bot) as [|g l] eqn:Hgrids; [destruct Hin|].
  cbn [length Nat.eqb].
  exact (pass_holds quoteAndSwap tokenPrices (g :: l) w Hnodup Hstates grid price Hin Hprice).
Qed.

Lemma monitorPricesAndExecuteTrades_holds_all_levels_witness :
  let bot := mkBot true [solUsdc; solJup] in
  let w := initialize [solUsdc; solJup] (collection solUsdc) in
  let prices : gmap string Q :=
    <[targetTokenId solJup := 3]> (feed solUsdc 118) in
  NoDup (map _id (grids bot))
  /\ holdsLevelOf solUsdc 118
       (monitorPricesAndExecuteTrades venueOk bot (Some prices) w).
Proof.
  intros bot w prices.
  assert (Hnodup : NoDup (map _id (grids bot))).
  { cbn. apply NoDup_cons. split.
    - intros H. apply list_elem_of_In in H. destruct H as [H | []]. discriminate H.
    - apply NoDup_cons. split; [intros H; apply list_elem_of_In in H; destruct H|].
      apply NoDup_nil. exact I. }
  split; [exact Hnodup|].
  apply (monitorPricesAndExecuteTrades_holds_all_levels venueOk bot prices w solUsdc 118
           eq_refl Hnodup).
  - intros g [<- | [<- | []]]; eexists; reflexivity.
  - left. reflexivity.
  - reflexivity.
Defined.

(** X18. A grid whose stored level is 0 (or unset) starts as a first
    observation when the bot is initialised from it, for [initialize] reads
    a stored level 0 as none: the first tick trades nothing at any price,
    however many levels that price is above the stored one. *)
Theorem initialize_forgets_level_zero
    (quoteAndSwap : list SwapRequest -> SwapRequest -> SwapResult)
    (grid : IGrid) (tokenPrices : gmap string Q) (w : World) (price : Q) :
  currentGridIndex grid = Some 0%nat \/ currentGridIndex grid = None ->
  tokenPrices !! targetTokenId grid = Some price ->
  let w' := processGrid quoteAndSwap grid tokenPrices (initialize [grid] w) in
  crossings (console w') = crossings (console w)
  /\ swaps w' = swaps w
  /\ dbTrades w' = dbTrades w
  /\ heldLevel w' (_id grid) = Some (Some (findGridLevelIndex grid price)).
Proof.
  intros Hzero Hprice w'.
  destruct (processGrid_after_initialize quoteAndSwap grid tokenPrices w price Hprice)
    as (Hc & Hs & Ht).
  { intros i Hi Hpos. destruct Hzero as [H | H]; rewrite H in Hi; [|discriminate].
    injection Hi as <-. contradiction. }
  split; [exact Hc|]. split; [exact Hs|]. split; [exact Ht|].
  assert (Hstate : gridStateMap (initialize [grid] w) !! _id grid
                   = Some (initialState grid)).
  { cbn [initialize fold_left]. simpl_world. apply lookup_insert_eq. }
  destruct (processGrid_holds quoteAndSwap grid tokenPrices _ _ price Hprice Hstate)
    as (s & Hs' & Hlevel & _).
  unfold heldLevel. fold w' in Hs'. rewrite Hs'. cbn. rewrite Hlevel. reflexivity.
Qed.

Lemma initialize_forgets_level_zero_witness :
  let grid := setCurrent (Some 101) (Some 0%nat) solUsdc in
  let w' := processGrid venueOk grid (feed grid 118) (initialize [grid] (collection grid)) in
  findGridLevelIndex grid 118 = 3%nat
  /\ crossings (console w') = []
  /\ dbTrades w' = [].
Proof.
  intros grid w'. split; [reflexivity|].
  destruct (initialize_forgets_level_zero venueOk grid (feed grid 118) (collection grid)
              118 (or_introl eq_refl) eq_refl) as (Hc & _ & Ht & _).
  split; [exact Hc | exact Ht].
Defined.

(** ** The swap venue *)

Lemma quoteAndSwap_landed (v : Jupiter.Venue) (req : SwapRequest) :
  Jupiter.success (fst (Jupiter.quoteAndSwap v req)) = true ->
  exists outAmount publicKey executeResponse signed sig,
    Jupiter.getQuote v req = Jupiter.Returned outAmount
    /\ outAmount <> ""
    /\ Jupiter.SOLANA_PRIVATE_KEY v <> ""
    /\ Jupiter.walletOf v (Jupiter.SOLANA_PRIVATE_KEY v) = Jupiter.Returned publicKey
    /\ Jupiter.executeSwap v outAmount publicKey = Jupiter.Returned executeResponse
    /\ Jupiter.simulationError executeResponse = None
    /\ Jupiter.signTransaction v (Jupiter.swapTransaction executeResponse) publicKey
       = Jupiter.Returned signed
    /\ Jupiter.sendRawTransaction v signed = Jupiter.Returned sig
    /\ Jupiter.confirmTransaction v sig = Jupiter.Returned None
    /\ Jupiter.signature (fst (Jupiter.quoteAndSwap v req)) = Some sig
    /\ Jupiter.outputAmount (fst (Jupiter.quoteAndSwap v req)) = Some outAmount
    /\ snd (Jupiter.quoteAndSwap v req)
       = [Jupiter.CallQuote req; Jupiter.CallSwap outAmount publicKey;
          Jupiter.CallSend signed; Jupiter.CallConfirm sig].
Proof.
  unfold Jupiter.quoteAndSwap.
  destruct (Jupiter.getQuote v req) as [outAmount|] eqn:Hquote; [|discriminate].
  destruct (Jupiter.isEmpty outAmount) eqn:Hamount; [discriminate|].
  destruct (Jupiter.isEmpty (Jupiter.SOLANA_PRIVATE_KEY v)) eqn:Hkey; [discriminate|].
  destruct (Jupiter.walletOf v (Jupiter.SOLANA_PRIVATE_KEY v)) as [publicKey|]
    eqn:Hwallet; [|discriminate].
  destruct (Jupiter.executeSwap v outAmount publicKey) as [executeResponse|]
    eqn:Hswap; [|discriminate].
  destruct (Jupiter.simulationError executeResponse) eqn:Hsimulation; [discriminate|].
  destruct (Jupiter.signTransaction v (Jupiter.swapTransaction executeResponse) publicKey)
    as [signed|] eqn:Hsign; [|discriminate].
  destruct (Jupiter.sendRawTransaction v signed) as [sig|] eqn:Hsend; [|discriminate].
  destruct (Jupiter.confirmTransaction v sig) as [[err|]|] eqn:Hconfirm;
    [discriminate | | discriminate].
  intros _. exists outAmount, publicKey, executeResponse, signed, sig.
  apply String.eqb_neq in Hamount. apply String.eqb_neq in Hkey.
  repeat split; try assumption; try reflexivity.
Qed.

(** X19. [quoteAndSwap] reports success only for a swap that went all the
    way: the quote has an amount, the private key is set, the simulation
    passed, and the transaction was signed, sent and confirmed without an
    error; the result then carries the signature of the transaction that was
    sent and the amount of the quote, and four requests left the process:
    quote, swap, send, confirm. *)
Theorem quoteAndSwap_success_is_confirmed (v : Jupiter.Venue) (req : SwapRequest) :
  Jupiter.success (fst (Jupiter.quoteAndSwap v req)) = true ->
  exists outAmount publicKey executeResponse signed sig,
    Jupiter.getQuote v req = Jupiter.Returned outAmount
    /\ outAmount <> ""
    /\ Jupiter.SOLANA_PRIVATE_KEY v <> ""
    /\ Jupiter.walletOf v (Jupiter.SOLANA_PRIVATE_KEY v) = Jupiter.Returned publicKey
    /\ Jupiter.executeSwap v outAmount publicKey = Jupiter.Returned executeResponse
    /\ Jupiter.simulationError executeResponse = None
    /\ Jupiter.signTransaction v (Jupiter.swapTransaction executeResponse) publicKey
       = Jupiter.Returned signed
    /\ Jupiter.sendRawTransaction v signed = Jupiter.Returned sig
    /\ Jupiter.confirmTransaction v sig = Jupiter.Returned None
    /\ Jupiter.signature (fst (Jupiter.quoteAndSwap v req)) = Some sig
    /\ Jupiter.outputAmount (fst (Jupiter.quoteAndSwap v req)) = Some outAmount
    /\ snd (Jupiter.quoteAndSwap v req)
       = [Jupiter.CallQuote req; Jupiter.CallSwap outAmount publicKey;
          Jupiter.CallSend signed; Jupiter.CallConfirm sig].
Proof. exact (quoteAndSwap_landed v req). Qed.

Lemma quoteAndSwap_success_is_confirmed_witness :
  let req := mkSwap (sourceTokenId solUsdc) (targetTokenId solUsdc) 2272727 100 in
  Jupiter.success (fst (Jupiter.quoteAndSwap venueUp req)) = true
  /\ exists sig,
       Jupiter.sendRawTransaction venueUp "AQAB" = Jupiter.Returned sig
       /\ Jupiter.signature (fst (Jupiter.quoteAndSwap venueUp req)) = Some sig.
Proof.
  intros req. split; [reflexivity|].
  destruct (quoteAndSwap_success_is_confirmed venueUp req eq_refl)
    as (outAmount & publicKey & executeResponse & signed & sig & _ & _ & _ & _ & Hswap
        & _ & Hsign & Hsend & _ & Hsig & _).
  injection Hswap as <-. injection Hsign as <-.
  exists sig. split; [exact Hsend | exact Hsig].
Defined.

(** X20. [quoteAndSwap] sends a transaction only after a quote with an
    amount, with the private key set and with a simulation that passed:
    when the quote has no amount, the key is unset or the simulation fails,
    no transaction leaves the process. *)
Theorem quoteAndSwap_sends_only_simulated (v : Jupiter.Venue) (req : SwapRequest) :
  existsb Jupiter.isSend (snd (Jupiter.quoteAndSwap v req)) = true ->
  exists outAmount publicKey executeResponse,
    Jupiter.getQuote v req = Jupiter.Returned outAmount
    /\ outAmount <> ""
    /\ Jupiter.SOLANA_PRIVATE_KEY v <> ""
    /\ Jupiter.walletOf v (Jupiter.SOLANA_PRIVATE_KEY v) = Jupiter.Returned publicKey
    /\ Jupiter.executeSwap v outAmount publicKey = Jupiter.Returned executeResponse
    /\ Jupiter.simulationError executeResponse = None.
Proof.
  unfold Jupiter.quoteAndSwap.
  destruct (Jupiter.getQuote v req) as [outAmount|] eqn:Hquote; [|discriminate].
  destruct (Jupiter.isEmpty outAmount) eqn:Hamount; [discriminate|].
  destruct (Jupiter.isEmpty (Jupiter.SOLANA_PRIVATE_KEY v)) eqn:Hkey; [discriminate|].
  destruct (Jupiter.walletOf v (Jupiter.SOLANA_PRIVATE_KEY v)) as [publicKey|]
    eqn:Hwallet; [|discriminate].
  destruct (Jupiter.executeSwap v outAmount publicKey) as [executeResponse|]
    eqn:Hswap; [|discriminate].
  destruct (Jupiter.simulationError executeResponse) eqn:Hsimulation; [discriminate|].
  intros _. exists outAmount, publicKey, executeResponse.
  apply String.eqb_neq in Hamount. apply String.eqb_neq in Hkey.
  repeat split; try assumption; try reflexivity.
Qed.

Lemma quoteAndSwap_sends_only_simulated_witness :
  let req := mkSwap (sourceTokenId solUsdc) (targetTokenId solUsdc) 2272727 100 in
  existsb Jupiter.isSend (snd (Jupiter.quoteAndSwap venueUnconfirmed req)) = true
  /\ existsb Jupiter.isSend (snd (Jupiter.quoteAndSwap venueSimulationFails req)) = false
  /\ exists executeResponse,
       Jupiter.executeSwap venueUnconfirmed "2272727"
         "9xQeWvG816bUx9EPjHmaT23yvVM2ZWbrrpZb9PusVFin"
       = Jupiter.Returned executeResponse
       /\ Jupiter.simulationError executeResponse = None.
Proof.
  intros req. split; [reflexivity|]. split; [reflexivity|].
  destruct (quoteAndSwap_sends_only_simulated venueUnconfirmed req eq_refl)
    as (outAmount & publicKey & executeResponse & Hquote & _ & _ & Hwallet & Hswap & Hsim).
  injection Hquote as <-. injection Hwallet as <-.
  exists executeResponse. split; [exact Hswap | exact Hsim].
Defined.

(** X21. Once a transaction was sent, the result of [quoteAndSwap] names it
    exactly when the confirmation call returns: with the signature and
    [success = false] when the confirmation reports an error, with the
    signature and [success = true] when it reports none; when the
    confirmation call throws, the result is a failure without signature,
    though the transaction was sent. *)
Theorem quoteAndSwap_reports_sent_transaction
    (v : Jupiter.Venue) (req : SwapRequest) (sig : string) :
  In (Jupiter.CallConfirm sig) (snd (Jupiter.quoteAndSwap v req)) ->
  existsb Jupiter.isSend (snd (Jupiter.quoteAndSwap v req)) = true
  /\ match Jupiter.confirmTransaction v sig with
     | Jupiter.Returned None =>
         Jupiter.success (fst (Jupiter.quoteAndSwap v req)) = true
         /\ Jupiter.signature (fst (Jupiter.quoteAndSwap v req)) = Some sig
     | Jupiter.Returned (Some err) =>
         Jupiter.success (fst (Jupiter.quoteAndSwap v req)) = false
         /\ Jupiter.signature (fst (Jupiter.quoteAndSwap v req)) = Some sig
         /\ Jupiter.error (fst (Jupiter.quoteAndSwap v req)) = Some err
     | Jupiter.Threw message =>
         Jupiter.success (fst (Jupiter.quoteAndSwap v req)) = false
         /\ Jupiter.signature (fst (Jupiter.quoteAndSwap v req)) = None
         /\ Jupiter.error (fst (Jupiter.quoteAndSwap v req)) = Some message
     end.
Proof.
  unfold Jupiter.quoteAndSwap.
  destruct (Jupiter.getQuote v req) as [outAmount|];
    [|intros [H | []]; discriminate H].
  destruct (Jupiter.isEmpty outAmount); [intros [H | []]; discriminate H|].
  destruct (Jupiter.isEmpty (Jupiter.SOLANA_PRIVATE_KEY v));
    [intros [H | []]; discriminate H|].
  destruct (Jupiter.walletOf v (Jupiter.SOLANA_PRIVATE_KEY v)) as [publicKey|];
    [|intros [H | []]; discriminate H].
  destruct (Jupiter.executeSwap v outAmount publicKey) as [executeResponse|];
    [|intros [H | [H | []]]; discriminate H].
  destruct (Jupiter.simulationError executeResponse);
    [intros [H | [H | []]]; discriminate H|].
  destruct (Jupiter.signTransaction v (Jupiter.swapTransaction executeResponse) publicKey)
    as [signed|]; [|intros [H | [H | []]]; discriminate H].
  destruct (Jupiter.sendRawTransaction v signed) as [sent|];
    [|intros [H | [H | [H | []]]]; discriminate H].
  assert (Hsig : In (Jupiter.CallConfirm sig)
                   [Jupiter.CallQuote req; Jupiter.CallSwap outAmount publicKey;
                    Jupiter.CallSend signed; Jupiter.CallConfirm sent] -> sent = sig).
  { intros [H | [H | [H | [H | []]]]]; try discriminate H. injection H as ->. reflexivity. }
  destruct (Jupiter.confirmTransaction v sent) as [[err|]|] eqn:Hconfirm;
    intros Hin; pose proof (Hsig Hin) as Heq; subst sent; rewrite Hconfirm;
    (split; [reflexivity|]); repeat split.
Qed.

Lemma quoteAndSwap_reports_sent_transaction_witness :
  let req := mkSwap (sourceTokenId solUsdc) (targetTokenId solUsdc) 2272727 100 in
  In (Jupiter.CallConfirm "5xSig") (snd (Jupiter.quoteAndSwap venueUnconfirmed req))
  /\ existsb Jupiter.isSend (snd (Jupiter.quoteAndSwap venueUnconfirmed req)) = true
  /\ Jupiter.signature (fst (Jupiter.quoteAndSwap venueUnconfirmed req)) = None.
Proof.
  intros req.
  assert (Hin : In (Jupiter.CallConfirm "5xSig")
                  (snd (Jupiter.quoteAndSwap venueUnconfirmed req))).
  { cbn. right. right. right. left. reflexivity. }
  split; [exact Hin|].
  destruct (quoteAndSwap_reports_sent_transaction venueUnconfirmed req "5xSig" Hin)
    as [Hsent Hresult].
  split; [exact Hsent|]. exact (proj1 (proj2 Hresult)).
Defined.

(** ** The bot on the swap venue *)

(** A trade that records a row went through a swap that landed, and the row
    carries the signature of that swap. *)
Lemma executeSellTrade_row_result
    (quoteAndSwap : list SwapRequest -> SwapRequest -> SwapResult)
    (grid : IGrid) (levelIndex : nat) (w : World) (row : ITrade) :
  dbTrades (executeSellTrade quoteAndSwap grid levelIndex w) = dbTrades w ++ [row] ->
  exists req,
    success (quoteAndSwap (swaps w) req) = true
    /\ transactionHash row = signature (quoteAndSwap (swaps w) req).
Proof.
  unfold executeSellTrade.
  destruct (levels grid !! levelIndex) as [levelPrice|]; simpl_world;
    [|intros H; destruct (not_extended _ _ H)].
  destruct (truthy levelPrice); simpl_world;
    [|intros H; destruct (not_extended _ _ H)].
  destruct (gridStateMap w !! _id grid) as [gridState|]; simpl_world;
    [|intros H; destruct (not_extended _ _ H)].
  match goal with
  | |- context [success ?r] => destruct (success r) eqn:Hsuccess
  end; simpl_world; [|intros H; destruct (not_extended _ _ H)].
  intros H. apply app_inv_head in H. injection H as <-.
  eexists. split; [exact Hsuccess | reflexivity].
Qed.

Lemma executeBuyTrade_row_result
    (quoteAndSwap : list SwapRequest -> SwapRequest -> SwapResult)
    (grid : IGrid) (levelIndex : nat) (w : World) (row : ITrade) :
  dbTrades (executeBuyTrade quoteAndSwap grid levelIndex w) = dbTrades w ++ [row] ->
  exists req,
    success (quoteAndSwap (swaps w) req) = true
    /\ transactionHash row = signature (quoteAndSwap (swaps w) req).
Proof.
  unfold executeBuyTrade.
  destruct (levels grid !! levelIndex) as [levelPrice|]; simpl_world;
    [|intros H; destruct (not_extended _ _ H)].
  destruct (truthy levelPrice); simpl_world;
    [|intros H; destruct (not_extended _ _ H)].
  destruct (gridStateMap w !! _id grid) as [gridState|]; simpl_world;
    [|intros H; destruct (not_extended _ _ H)].
  match goal with
  | |- context [success ?r] => destruct (success r) eqn:Hsuccess
  end; simpl_world; [|intros H; destruct (not_extended _ _ H)].
  intros H. apply app_inv_head in H. injection H as <-.
  eexists. split; [exact Hsuccess | reflexivity].
Qed.

(** X22. Every trade row that the bot records through [quoteAndSwap], for a
    BUY or for a SELL, carries as its transaction hash the signature of a
    transaction that was sent and whose confirmation reported no error. *)
Theorem recorded_trade_was_confirmed
    (v : list SwapRequest -> Jupiter.Venue)
    (grid : IGrid) (levelIndex : nat) (w : World) (row : ITrade) :
  dbTrades (executeSellTrade (botVenue v) grid levelIndex w) = dbTrades w ++ [row]
  \/ dbTrades (executeBuyTrade (botVenue v) grid levelIndex w) = dbTrades w ++ [row] ->
  exists signed sig,
    transactionHash row = Some sig
    /\ Jupiter.sendRawTransaction (v (swaps w)) signed = Jupiter.Returned sig
    /\ Jupiter.confirmTransaction (v (swaps w)) sig = Jupiter.Returned None.
Proof.
  intros Hrow.
  assert (Hresult : exists req,
             success (botVenue v (swaps w) req) = true
             /\ transactionHash row = signature (botVenue v (swaps w) req)).
  { destruct Hrow as [H | H].
    - exact (executeSellTrade_row_result (botVenue v) grid levelIndex w row H).
    - exact (executeBuyTrade_row_result (botVenue v) grid levelIndex w row H). }
  destruct Hresult as (req & Hsuccess & Hhash).
  unfold botVenue in Hsuccess, Hhash. cbn [success signature] in Hsuccess, Hhash.
  destruct (quoteAndSwap_landed (v (swaps w)) req Hsuccess)
    as (outAmount & publicKey & executeResponse & signed & sig & _ & _ & _ & _ & _ & _
        & _ & Hsend & Hconfirm & Hsig & _).
  exists signed, sig. rewrite Hhash, Hsig. repeat split; assumption.
Qed.

Lemma recorded_trade_was_confirmed_witness :
  let w := tracking solUsdc (Some 1%nat) 106 in
  exists row,
    dbTrades (executeSellTrade (botVenue (fun _ => venueUp)) solUsdc 2 w)
    = dbTrades w ++ [row]
    /\ transactionHash row = Some "5xSig".
Proof.
  intros w. eexists.
  assert (Hrow : dbTrades (executeSellTrade (botVenue (fun _ => venueUp)) solUsdc 2 w)
                 = dbTrades w ++ [_]) by reflexivity.
  split; [exact Hrow|].
  destruct (recorded_trade_was_confirmed (fun _ => venueUp) solUsdc 2 w _
              (or_introl Hrow)) as (signed & sig & Hhash & Hsend & _).
  injection Hsend as <-. exact Hhash.
Defined.

(** ** The profit total of a grid *)

Lemma sumProfit_app id rows row :
  sumProfit id (rows ++ [row])
  = if String.eqb (gridId row) id then addProfit (sumProfit id rows) (profit row)
    else sumProfit id rows.
Proof. unfold sumProfit. rewrite fold_left_app. reflexivity. Qed.

Lemma profitGrows_refl id w : profitGrows id w w.
Proof. intros x Hx. exists x. split; [exact Hx | apply Qle_refl]. Qed.

Lemma profitGrows_trans id w1 w2 w3 :
  profitGrows id w1 w2 -> profitGrows id w2 w3 -> profitGrows id w1 w3.
Proof.
  intros H12 H23 x Hx. destruct (H12 x Hx) as (y & Hy & Hxy).
  destruct (H23 y Hy) as (z & Hz & Hyz). exists z. split; [exact Hz|].
  apply Qle_trans with y; assumption.
Qed.

Lemma profitGrows_same id w w' : dbTrades w' = dbTrades w -> profitGrows id w w'.
Proof.
  intros H x Hx. exists x. unfold getTradeSummaryByGridId in *. rewrite H.
  split; [exact Hx | apply Qle_refl].
Qed.

(** One more row whose profit is undefined or a number that is not
    negative. *)
Lemma profitGrows_row id w w' row :
  dbTrades w' = dbTrades w ++ [row] ->
  profit row = ProfitUndefined \/ (exists p, profit row = ProfitNumber p /\ 0 <= p) ->
  profitGrows id w w'.
Proof.
  intros Hrows Hprofit x Hx. unfold getTradeSummaryByGridId in *.
  cbn [TradeSummary.totalProfit] in *. rewrite Hrows, sumProfit_app.
  destruct (String.eqb (gridId row) id); [|exists x; split; [exact Hx | apply Qle_refl]].
  rewrite Hx. destruct Hprofit as [-> | (p & -> & Hp)]; cbn [addProfit].
  - exists x. split; [reflexivity | apply Qle_refl].
  - exists (x + p). split; [reflexivity | lra].
Qed.

Lemma trade_rows_cases (rows rows' : list ITrade) :
  length rows' = length rows \/ length rows' = S (length rows) ->
  (exists tail, rows' = rows ++ tail) ->
  rows' = rows \/ exists row, rows' = rows ++ [row].
Proof.
  intros Hlen [tail ->]. rewrite length_app in Hlen.
  destruct tail as [|row [|row' tail]].
  - left. apply app_nil_r.
  - right. exists row. reflexivity.
  - exfalso. cbn in Hlen. lia.
Qed.

Section Profit.

Variable quoteAndSwap : list SwapRequest -> SwapRequest -> SwapResult.
Variable grid : IGrid.
Hypothesis Hwf : wellFormed grid.
Hypothesis Hlower : 0 < lowerLimit grid.
Hypothesis Hinvested : 0 <= quantityInvested grid.

Lemma executeSellTrade_rows levelIndex w :
  dbTrades (executeSellTrade quoteAndSwap grid levelIndex w) = dbTrades w
  \/ exists row,
       dbTrades (executeSellTrade quoteAndSwap grid levelIndex w) = dbTrades w ++ [row].
Proof.
  unfold executeSellTrade.
  destruct (levels grid !! levelIndex) as [levelPrice|]; [|left; reflexivity].
  destruct (truthy levelPrice); cbn [negb]; [|left; reflexivity].
  destruct (gridStateMap (say (LogExecuting SELL levelIndex) w) !! _id grid);
    [|left; reflexivity].
  cbn [callVenue].
  match goal with
  | |- context [success ?r] => destruct (success r)
  end; cbn [negb]; [|left; reflexivity].
  right. eexists. reflexivity.
Qed.

Lemma executeBuyTrade_rows levelIndex w :
  dbTrades (executeBuyTrade quoteAndSwap grid levelIndex w) = dbTrades w
  \/ exists row,
       dbTrades (executeBuyTrade quoteAndSwap grid levelIndex w) = dbTrades w ++ [row].
Proof.
  unfold executeBuyTrade.
  destruct (levels grid !! levelIndex) as [levelPrice|]; [|left; reflexivity].
  destruct (truthy levelPrice); cbn [negb]; [|left; reflexivity].
  destruct (gridStateMap (say (LogExecuting BUY levelIndex) w) !! _id grid);
    [|left; reflexivity].
  cbn [callVenue].
  match goal with
  | |- context [success ?r] => destruct (success r)
  end; cbn [negb]; [|left; reflexivity].
  right. eexists. reflexivity.
Qed.

Lemma executeSellTrade_profitGrows id levelIndex w :
  profitGrows id w (executeSellTrade quoteAndSwap grid levelIndex w).
Proof.
  destruct (executeSellTrade_rows levelIndex w) as [Hsame | [row Hrow]].
  - exact (profitGrows_same id w _ Hsame).
  - apply (profitGrows_row id w _ row Hrow). right.
    exact (executeSellTrade_profit_nonneg quoteAndSwap grid levelIndex w row
             Hwf Hlower Hinvested Hrow).
Qed.

Lemma executeBuyTrade_profitGrows id levelIndex w :
  profitGrows id w (executeBuyTrade quoteAndSwap grid levelIndex w).
Proof.
  destruct (executeBuyTrade_rows levelIndex w) as [Hsame | [row Hrow]].
  - exact (profitGrows_same id w _ Hsame).
  - apply (profitGrows_row id w _ row Hrow). left.
    destruct (executeBuyTrade_row quoteAndSwap grid levelIndex w row Hrow)
      as (p & _ & _ & _ & ->). reflexivity.
Qed.

Lemma sellLoop_profitGrows id fuel i newGridIndex w :
  profitGrows id w (sellLoop quoteAndSwap grid fuel i newGridIndex w).
Proof.
  revert i w. induction fuel as [|fuel IH]; intros i w; [apply profitGrows_refl|].
  cbn [sellLoop]. destruct (i <=? newGridIndex)%nat; [|apply profitGrows_refl].
  eapply profitGrows_trans; [apply executeSellTrade_profitGrows | apply IH].
Qed.

Lemma buyLoop_profitGrows id i newGridIndex w :
  profitGrows id w (buyLoop quoteAndSwap grid i newGridIndex w).
Proof.
  revert w. induction i as [|i IH]; intros w; [apply profitGrows_refl|].
  cbn [buyLoop]. destruct (newGridIndex <? S i)%nat; [|apply profitGrows_refl].
  eapply profitGrows_trans; [apply executeBuyTrade_profitGrows | apply IH].
Qed.

Lemma processGrid_profitGrows id tokenPrices w :
  profitGrows id w (processGrid quoteAndSwap grid tokenPrices w).
Proof.
  unfold processGrid.
  destruct (tokenPrices !! targetTokenId grid) as [price|];
    [|apply profitGrows_same; reflexivity].
  destruct (gridStateMap w !! _id grid) as [gridState|];
    [|apply profitGrows_same; reflexivity].
  destruct (GridState.currentGridIndex gridState) as [previous|].
  - destruct (findGridLevelIndex grid price =? previous)%nat;
      [apply profitGrows_same; reflexivity|].
    eapply profitGrows_trans.
    2:{ apply profitGrows_same.
        match goal with
        | |- context [updateGridCurrentPrice ?i ?p ?x] =>
            destruct (updateGridCurrentPrice_elsewhere i p x) as (_ & -> & _)
        end.
        simpl_world. reflexivity. }
    eapply profitGrows_trans;
      [exact (profitGrows_same id w
                (say (LogMoved previous (findGridLevelIndex grid price))
                   (mutate (_id grid) (withPrice (Some price)) w)) eq_refl)|].
    destruct (previous <? findGridLevelIndex grid price)%nat;
      [apply sellLoop_profitGrows|].
    destruct (findGridLevelIndex grid price <? previous)%nat;
      [apply buyLoop_profitGrows | apply profitGrows_refl].
  - apply profitGrows_same.
    match goal with
    | |- context [updateGridCurrentPrice ?i ?p ?x] =>
        destruct (updateGridCurrentPrice_elsewhere i p x) as (_ & -> & _)
    end.
    reflexivity.
Qed.

End Profit.

(** X23. On a well-formed grid with a positive lower limit and an
    investment that is not negative, a tick never lowers a profit total:
    the [totalProfit] that [getTradeSummaryByGridId] gives for any grid id
    is a number after the tick if it was one before, and not a lower one. *)
Theorem processGrid_never_lowers_total_profit
    (quoteAndSwap : list SwapRequest -> SwapRequest -> SwapResult)
    (grid : IGrid) (tokenPrices : gmap string Q) (w : World) (id : string) :
  wellFormed grid ->
  0 < lowerLimit grid ->
  0 <= quantityInvested grid ->
  profitGrows id w (processGrid quoteAndSwap grid tokenPrices w).
Proof.
  intros Hwf Hlower Hinvested.
  exact (processGrid_profitGrows quoteAndSwap grid Hwf Hlower Hinvested id tokenPrices w).
Qed.

Lemma processGrid_never_lowers_total_profit_witness :
  let w := tracking solUsdc (Some 1%nat) 106 in
  let w' := processGrid venueOk solUsdc (feed solUsdc 121) w in
  wellFormed solUsdc
  /\ profitGrows (_id solUsdc) w w'
  /\ exists y,
       TradeSummary.totalProfit (getTradeSummaryByGridId (_id solUsdc) w')
       = ProfitNumber y /\ 0 <= y.
Proof.
  intros w w'.
  pose proof (processGrid_never_lowers_total_profit venueOk solUsdc (feed solUsdc 121)
                w (_id solUsdc) solUsdc_wellFormed
                ltac:(apply Qltb_iff; reflexivity)
                ltac:(apply Qleb_iff; reflexivity)) as H.
  split; [exact solUsdc_wellFormed|]. split; [exact H|].
  exact (H 0 eq_refl).
Defined.
